(** * django_polymorphic: the polymorphic query set and the model metaclass

    A shallow embedding of [polymorphic/query.py] and [polymorphic/base.py].

    Python objects are records of a class and an instance dictionary
    ([__dict__]); dictionaries are finite maps; exceptions are the [Raise]
    results of an error monad; the database is a read-only table store and
    every query the code sends to it is appended to a query log that is passed
    along explicitly. *)

From stdpp Require Import gmap strings list fin_maps.

Open Scope string_scope.
Open Scope list_scope.

(** ** Values, exceptions, the error monad *)

(** Attribute values: what a column, an annotation or an attribute can hold. *)
Inductive value :=
  | VNone
  | VInt (z : Z)
  | VStr (s : string)
  | VNames (l : list string).

#[global] Instance value_eq_dec : EqDecision value.
Proof. solve_decision. Defined.

Definition value_enc (v : value) : unit + (Z + (string + list string)) :=
  match v with
  | VNone => inl tt
  | VInt z => inr (inl z)
  | VStr s => inr (inr (inl s))
  | VNames l => inr (inr (inr l))
  end.

Definition value_dec (x : unit + (Z + (string + list string))) : value :=
  match x with
  | inl _ => VNone
  | inr (inl z) => VInt z
  | inr (inr (inl s)) => VStr s
  | inr (inr (inr l)) => VNames l
  end.

#[global] Instance value_countable : Countable value.
Proof. apply (inj_countable' value_enc value_dec). by intros []. Defined.

(** The exceptions the modelled code can raise or meet. *)
Inductive exn :=
  | KeyError (k : value)
  | KeyErrorName (k : string)
  | AttributeError (name : string)
  | AssertionError (msg : string)
  | TypeError (msg : string)
  | IndexError
  | DoesNotExist
  | MultipleObjectsReturned
  | ContentTypeDoesNotExist.

#[global] Instance exn_eq_dec : EqDecision exn.
Proof. solve_decision. Defined.

Inductive res (A : Type) :=
  | Ok (a : A)
  | Raise (e : exn).
Arguments Ok {A} a.
Arguments Raise {A} e.

Definition res_bind {A B} (m : res A) (k : A → res B) : res B :=
  match m with
  | Ok a => k a
  | Raise e => Raise e
  end.

Notation "'let*' x := m 'in' k" := (res_bind m (λ x, k))
  (at level 10, x name, m at level 100, k at level 200).
Notation "'let*' ' p := m 'in' k" := (res_bind m (λ x, match x with p => k end))
  (at level 10, p strict pattern, m at level 100, k at level 200).

(** A [for] loop whose body can raise. *)
Fixpoint for_each {A S} (body : S → A → res S) (l : list A) (s : S) : res S :=
  match l with
  | [] => Ok s
  | x :: l' => let* s' := body s x in for_each body l' s'
  end.

(** ** Classes, objects and the host framework's registry *)

(** A model field as [_meta.fields] lists it.  [f_set] and [f_get] are the
    field's own [__set__] and [__get__], for the few fields that are
    descriptors themselves; they act on the instance dictionary. *)
Record field := {
  f_name : string;
  f_attname : string;
  f_default : value;
  f_set : option (gmap string value → value → gmap string value);
  f_get : option (gmap string value → value);
}.

(** A class is a model class (named) or one of the proxy classes that
    [deferred_class_factory] builds over a model: [attrs] get Django's
    [DeferredAttribute], [bulk_attrs - attrs] get [BulkDeferredAttribute]. *)
Inductive klass :=
  | Plain (m : string)
  | DeferredClass (m : string) (attrs bulk_attrs : gset string).

#[global] Instance klass_eq_dec : EqDecision klass.
Proof. solve_decision. Defined.

(** The model a class stands for: itself, or [_meta.proxy_for_model] of a
    deferred class.  Every instance of [DeferredClass m _ _] is an instance
    of [m], since the factory derives the class from [m]. *)
Definition klass_model (k : klass) : string :=
  match k with
  | Plain m => m
  | DeferredClass m _ _ => m
  end.

(** The class attribute [_deferred]. *)
Definition _deferred (k : klass) : bool :=
  match k with
  | Plain _ => false
  | DeferredClass _ _ _ => true
  end.

Definition deferred_class_factory (model : string) (attrs bulk_attrs : gset string) : klass :=
  DeferredClass model attrs bulk_attrs.

(** [isinstance(cls.__dict__.get(name), BulkDeferredAttribute)].  The
    overrides of the factory are the bulk descriptors for
    [bulk_attrs - attrs], then updated with the plain deferred ones. *)
Definition is_bulk_deferred (k : klass) (name : string) : bool :=
  match k with
  | Plain _ => false
  | DeferredClass _ attrs bulk => bool_decide (name ∈ bulk ∖ attrs)
  end.

(** [isinstance(cls.__dict__.get(name), DeferredAttribute)]: both kinds, the
    bulk descriptor being a subclass of Django's. *)
Definition is_deferred_attr (k : klass) (name : string) : bool :=
  match k with
  | Plain _ => false
  | DeferredClass _ attrs bulk => bool_decide (name ∈ attrs ∪ bulk)
  end.

Record obj := {
  o_class : klass;
  o_dict : gmap string value;
}.

#[global] Instance obj_eq_dec : EqDecision obj.
Proof. solve_decision. Defined.

(** What the host framework knows about the models: their fields, their
    primary keys, and the content-type registry. *)
Record schema := {
  meta_fields : string → list field;
  get_fields_with_model : string → list (field * option string);
  meta_pk_attname : string → string;
  polymorphic_primary_key_name : string → string;
  get_for_model : string → Z;
  get_for_proxied_model : string → Z;
  get_for_id : Z → option string;
}.

(** The state of a [PolymorphicQuerySet]: the two member variables the class
    adds, and what the code reads from the host's [self.query]. *)
Record queryset := {
  model : string;
  polymorphic_disabled : bool;
  deferred : bool;
  aggregates : list string;
  extra_select : list string;
  aggregate_select : list string;
  select_related : bool;
  only_load : gmap string (gset string);
}.

(** The database as the host framework shows it.  [db_table] are the tables
    behind [base_objects], one per model: each row holds all the columns of
    an instance saved as that model, inherited ones included.
    [results_iter] are the rows the SQL compiler returns for the base query,
    [get_cached_row] builds an object and its related objects from a row,
    and [super_iterator] is the standard [QuerySet.iterator]. *)
Record database := {
  db_table : string → list (gmap string value);
  results_iter : queryset → list (list value);
  get_cached_row : queryset → list value → nat → res obj;
  super_iterator : queryset → list obj;
}.

(** The queries the modelled code sends. *)
Inductive query :=
  | QFilterPkIn (m : string) (idlist : list value)
  | QGetOnly (m : string) (pk : value) (only : list string).

#[global] Instance query_eq_dec : EqDecision query.
Proof. solve_decision. Defined.

Section Objects.
Context (sch : schema).

Definition attnames (m : string) : gset string :=
  list_to_set (f_attname <$> meta_fields sch m).

(** [getattr(o, name)] for a name held in the instance dictionary.  Base
    result objects hold their columns, annotations and extra-select values
    there; a name that is absent raises. *)
Definition getattr (o : obj) (name : string) : res value :=
  match o_dict o !! name with
  | Some v => Ok v
  | None => Raise (AttributeError name)
  end.

(** [o.pk]: the property reads the attribute named [_meta.pk.attname]. *)
Definition get_pk (o : obj) : res value :=
  getattr o (meta_pk_attname sch (klass_model (o_class o))).

Definition set_dict (o : obj) (d : gmap string value) : obj :=
  {| o_class := o_class o; o_dict := d |}.

(** [BulkDeferredAttribute.__set__] of the descriptor made for
    [field_name] on the model [cls]: the first field of the model with this
    attname decides; a field that is a descriptor is given the value first,
    and the value is read back through it when it can be. *)
Definition BulkDeferredAttribute_set (field_name cls : string) (instance : obj)
    (v : value) : obj :=
  let d := o_dict instance in
  let '(d1, v1) :=
    match list_find (λ f, f_attname f = field_name) (meta_fields sch cls) with
    | Some (_, f) =>
        match f_set f with
        | Some set =>
            let d1 := set d v in
            (d1, match f_get f with Some get => get d1 | None => v end)
        | None => (d, v)
        end
    | None => (d, v)
    end in
  set_dict instance (<[field_name := v1]> d1).

(** [setattr(o, name, v)]: through the descriptor when the class has one
    for the name, into the instance dictionary otherwise.  Django's own
    [DeferredAttribute.__set__] stores into the dictionary. *)
Definition setattr (o : obj) (name : string) (v : value) : obj :=
  if is_bulk_deferred (o_class o) name
  then BulkDeferredAttribute_set name (klass_model (o_class o)) o v
  else set_dict o (<[name := v]> (o_dict o)).

(** [o.pk = v]. *)
Definition set_pk (o : obj) (v : value) : obj :=
  setattr o (meta_pk_attname sch (klass_model (o_class o))) v.

(** [for k, v in bo.__dict__.items(): o.__dict__[k] = v] *)
Definition copy_dict (bo o : obj) : obj :=
  set_dict o (o_dict bo ∪ o_dict o).

(** The host's [Model.__init__] with keyword arguments: every field is
    set to its keyword or else to its default, except that a deferred field
    without a keyword is left to be populated on request. *)
Definition init_fields (k : klass) (kwargs : gmap string value) : obj :=
  foldl (λ o f,
           match kwargs !! f_attname f with
           | Some v => setattr o (f_attname f) v
           | None =>
               if is_deferred_attr k (f_attname f) then o
               else setattr o (f_attname f) (f_default f)
           end)
        {| o_class := k; o_dict := ∅ |} (meta_fields sch (klass_model k)).

(** A keyword that names no field is refused. *)
Definition model_init (k : klass) (kwargs : gmap string value) : res obj :=
  if decide (dom kwargs ⊆ attnames (klass_model k))
  then Ok (init_fields k kwargs)
  else Raise (TypeError "invalid keyword argument").

(** [cls()], the constructor without arguments. *)
Definition new_instance (k : klass) : obj := init_fields k ∅.

(** Modelled from the spec: [get_real_instance_class] of
    [polymorphic/models.py], which is not among the sources.  The content
    type is "a registry entry identifying the real class an object was
    saved as": the method looks the object's [polymorphic_ctype_id] up in
    the registry. *)
Definition get_real_instance_class (o : obj) : res string :=
  let* ct := getattr o "polymorphic_ctype_id" in
  match ct with
  | VInt i =>
      match get_for_id sch i with
      | Some m => Ok m
      | None => Raise ContentTypeDoesNotExist
      end
  | _ => Raise ContentTypeDoesNotExist
  end.
End Objects.

(** ** The polymorphic object loader: [PolymorphicQuerySet._get_real_instances] *)

(** The local variables of the loader. *)
Record loader := {
  ordered_id_list : list value;
  base_result_objects_by_id : gmap value obj;
  results : gmap value obj;
  idlist_per_model : list (string * list value);
}.

(** [idlist_per_model[modelclass].append(pk)] on the [defaultdict(list)]. *)
Fixpoint dd_append (d : list (string * list value)) (m : string) (k : value)
    : list (string * list value) :=
  match d with
  | [] => [(m, [k])]
  | (m', l) :: d' =>
      if decide (m' = m) then (m', l ++ [k]) :: d'
      else (m', l) :: dd_append d' m k
  end.

Definition row_pk_in (pk_attname : string) (idlist : list value)
    (row : gmap string value) : Prop :=
  match row !! pk_attname with
  | Some v => v ∈ idlist
  | None => False
  end.

#[global] Instance row_pk_in_dec a l row : Decision (row_pk_in a l row).
Proof. unfold row_pk_in. destruct (row !! a); apply _. Defined.

Section Loader.
Context (sch : schema) (db : database) (self : queryset).

(** [modelclass.base_objects.filter(pk__in=idlist)], evaluated: the rows of
    the model's table whose primary key is in the list, as instances of the
    model.  ([dup_select_related] only copies which related objects are
    loaded along.) *)
Definition base_objects_filter_pk_in (modelclass : string) (idlist : list value)
    : list obj :=
  (λ row, {| o_class := Plain modelclass; o_dict := row |}) <$>
    filter (row_pk_in (meta_pk_attname sch modelclass) idlist)
           (db_table db modelclass).

Definition self_model_content_type_id : Z :=
  get_for_proxied_model sch (model self).
Definition self_model_unproxied_content_type_id : Z :=
  get_for_model sch (model self).

(** The body of the first loop. *)
Definition sort_base_object (st : loader) (base_object : obj) : res loader :=
  let* pk := get_pk sch base_object in
  let ordered := ordered_id_list st ++ [pk] in
  match base_result_objects_by_id st !! pk with
  | Some _ =>
      Ok {| ordered_id_list := ordered;
            base_result_objects_by_id := base_result_objects_by_id st;
            results := results st;
            idlist_per_model := idlist_per_model st |}
  | None =>
      let by_id := <[pk := base_object]> (base_result_objects_by_id st) in
      let* ct := getattr base_object "polymorphic_ctype_id" in
      if decide (ct = VInt self_model_content_type_id) then
        Ok {| ordered_id_list := ordered;
              base_result_objects_by_id := by_id;
              results := <[pk := base_object]> (results st);
              idlist_per_model := idlist_per_model st |}
      else
        let* modelclass := get_real_instance_class sch base_object in
        if decide (get_for_model sch modelclass = self_model_unproxied_content_type_id)
        then
          let o := copy_dict base_object (new_instance sch (Plain modelclass)) in
          Ok {| ordered_id_list := ordered;
                base_result_objects_by_id := by_id;
                results := <[pk := o]> (results st);
                idlist_per_model := idlist_per_model st |}
        else
          Ok {| ordered_id_list := ordered;
                base_result_objects_by_id := by_id;
                results := results st;
                idlist_per_model := dd_append (idlist_per_model st) modelclass pk |}
  end.

(** [for name in names: setattr(o, name, getattr(bo, name))], the copy of
    the annotations and of the extra-select values.  (The guard
    [if self.query.aggregates:] skips a loop over nothing.) *)
Definition copy_attrs (names : list string) (bo o : obj) : res obj :=
  for_each (λ o name, let* attr := getattr bo name in Ok (setattr sch o name attr))
           names o.

Definition lookup_by_id (by_id : gmap value obj) (o_pk : value) : res obj :=
  match by_id !! o_pk with
  | Some bo => Ok bo
  | None => Raise (KeyError o_pk)
  end.

(** The body of the loop over [idlist] in deferred mode. *)
Definition load_deferred (by_id : gmap value obj) (modelclass : string)
    (deferred_modelclass : klass) (res_ : gmap value obj) (o_pk : value)
    : res (gmap value obj) :=
  let* bo := lookup_by_id by_id o_pk in
  if _deferred (o_class bo) && bool_decide (klass_model (o_class bo) = modelclass)
  then Ok (<[o_pk := bo]> res_)
  else
    let o := new_instance sch deferred_modelclass in
    let o := copy_dict bo o in
    let* pk := get_pk sch bo in
    let o := set_pk sch o pk in
    let* o := copy_attrs (aggregates self) bo o in
    let* o := copy_attrs (extra_select self) bo o in
    Ok (<[o_pk := o]> res_).

(** The body of the loop over the re-fetched objects. *)
Definition store_fetched (by_id : gmap value obj) (pk_name : string)
    (res_ : gmap value obj) (o : obj) : res (gmap value obj) :=
  let* o_pk := getattr o pk_name in
  let* bo := lookup_by_id by_id o_pk in
  let* o := copy_attrs (aggregates self) bo o in
  let* o := copy_attrs (extra_select self) bo o in
  Ok (<[o_pk := o]> res_).

(** The body of the loop that re-creates missing objects. *)
Definition recreate_missing (by_id : gmap value obj) (modelclass : string)
    (res_ : gmap value obj) (o_pk : value) : res (gmap value obj) :=
  match res_ !! o_pk with
  | Some _ => Ok res_
  | None =>
      let o := new_instance sch (Plain modelclass) in
      let* bo := lookup_by_id by_id o_pk in
      let o := copy_dict bo o in
      let* pk := get_pk sch bo in
      let o := set_pk sch o pk in
      let* o := copy_attrs (aggregates self) bo o in
      let* o := copy_attrs (extra_select self) bo o in
      Ok (<[o_pk := o]> res_)
  end.

(** The body of the loop over [idlist_per_model.items()]; the state is the
    [results] dictionary and the log of the queries sent so far. *)
Definition load_model (by_id : gmap value obj)
    (st : gmap value obj * list query) (item : string * list value)
    : res (gmap value obj * list query) :=
  let '(res_, log) := st in
  let '(modelclass, idlist) := item in
  let* '(res_, log) :=
    if deferred self then
      let attrs := attnames sch modelclass ∖ attnames sch (model self) in
      let* attrs :=
        if decide (meta_pk_attname sch modelclass ∈ attrs)
        then Ok (attrs ∖ {[meta_pk_attname sch modelclass]})
        else Raise (KeyErrorName (meta_pk_attname sch modelclass)) in
      let deferred_modelclass := deferred_class_factory modelclass ∅ attrs in
      let* res_ := for_each (load_deferred by_id modelclass deferred_modelclass)
                            idlist res_ in
      Ok (res_, log)
    else
      let qs := base_objects_filter_pk_in modelclass idlist in
      let* res_ := for_each (store_fetched by_id
                               (polymorphic_primary_key_name sch (model self)))
                            qs res_ in
      Ok (res_, log ++ [QFilterPkIn modelclass idlist]) in
  let* res_ := for_each (recreate_missing by_id modelclass) idlist res_ in
  Ok (res_, log).

Definition set_names (attr : string) (names : list string) (l : list obj)
    : list obj :=
  if decide (names = []) then l
  else (λ o, setattr sch o attr (VNames names)) <$> l.

Definition empty_loader : loader :=
  {| ordered_id_list := []; base_result_objects_by_id := ∅;
     results := ∅; idlist_per_model := [] |}.

(** [_get_real_instances]: the reconstructed objects, and the queries sent
    to the database on the way. *)
Definition _get_real_instances (base_result_objects : list obj)
    : res (list obj * list query) :=
  let* st := for_each sort_base_object base_result_objects empty_loader in
  let* '(res_, log) :=
    for_each (load_model (base_result_objects_by_id st))
             (idlist_per_model st) (results st, []) in
  let resultlist := omap (λ ordered_id, res_ !! ordered_id) (ordered_id_list st) in
  let resultlist := set_names "polymorphic_annotate_names" (aggregates self) resultlist in
  let resultlist := set_names "polymorphic_extra_select_names" (extra_select self) resultlist in
  Ok (resultlist, log).
End Loader.

(** ** The deferred-field shim: [BulkDeferredAttribute.__get__] *)

Section Deferred.
Context (sch : schema) (db : database).

(** The fields of [cls] that the class of the instance holds a
    [BulkDeferredAttribute] for: the dictionary [fields] of the source,
    from attname to name, in the order of [_meta.fields]. *)
Definition bulk_fields (cls : string) (k : klass) : list field :=
  filter (λ f, is_bulk_deferred k (f_attname f) = true) (meta_fields sch cls).

(** [cls.base_objects.filter(pk=pk).only(...).get()]: the one row of the
    table with this primary key.  [only] limits the columns that are
    loaded; the caller reads no other. *)
Definition base_objects_get (cls : string) (pk : value) : res obj :=
  match filter (λ row, row !! meta_pk_attname sch cls = Some pk) (db_table db cls) with
  | [] => Raise DoesNotExist
  | [row] => Ok {| o_class := Plain cls; o_dict := row |}
  | _ => Raise MultipleObjectsReturned
  end.

(** [__get__] of the descriptor made for [field_name] on the model [cls].
    It returns the value, the instance with its dictionary as the call
    leaves it, and the query log. *)
Definition BulkDeferredAttribute_get (field_name cls : string) (instance : obj)
    (log : list query) : res (value * obj * list query) :=
  let data := o_dict instance in
  let* '(data, log) :=
    match data !! field_name with
    | Some _ => Ok (data, log)
    | None =>
        let fields := bulk_fields cls (o_class instance) in
        if decide (field_name ∈ f_attname <$> fields) then
          let* pk := get_pk sch instance in
          let log := log ++ [QGetOnly cls pk (f_name <$> fields)] in
          let* o :=
            match base_objects_get cls pk with
            | Raise DoesNotExist =>
                (* re-create missing objects *)
                let o := new_instance sch (Plain cls) in
                let o := copy_dict instance o in
                Ok (set_pk sch o pk)
            | r => r
            end in
          let* data :=
            for_each (λ data f,
                        let* val := getattr o (f_attname f) in
                        Ok (<[f_attname f := val]> data))
                     fields data in
          Ok (data, log)
        else Ok (data, log)
    end in
  match data !! field_name with
  | Some v => Ok (v, set_dict instance data, log)
  | None => Raise (KeyErrorName field_name)
  end.
End Deferred.

(** ** Iteration: [PolymorphicQuerySet._iterator] and [iterator] *)

(** [CHUNK_SIZE] of the host framework, 100 for the supported versions. *)
Definition CHUNK_SIZE : nat := 100.
Definition Polymorphic_QuerySet_objects_per_request : nat := CHUNK_SIZE.

(** [dict(zip(keys, vals))] *)
Definition dict_zip (keys : list string) (vals : list value) : gmap string value :=
  foldl (λ d kv, <[kv.1 := kv.2]> d) ∅ (zip keys vals).

Definition index (row : list value) (i : nat) : res value :=
  match row !! i with
  | Some v => Ok v
  | None => Raise IndexError
  end.

(** How far a generator has got. *)
Inductive status :=
  | Running
  | Stopped
  | Failed (e : exn).

#[global] Instance status_eq_dec : EqDecision status.
Proof. solve_decision. Defined.

Record run := {
  yielded : list obj;
  queries : list query;
  state : status;
}.

Section Iterator.
Context (sch : schema) (db : database) (self : queryset).

Definition fill_cache : bool := select_related self.

(** The list of fields that are to be loaded, when only/defer clauses
    were given. *)
Definition load_fields : list string :=
  if decide (only_load self = ∅) then []
  else
    foldl (λ acc fm,
             let m := default (model self) fm.2 in
             match only_load self !! m with
             | Some names =>
                 if decide (f_name fm.1 ∈ names) then acc ++ [f_name fm.1] else acc
             | None => acc ++ [f_name fm.1]
             end)
          [] (get_fields_with_model sch (model self)).

Definition index_start : nat := length (extra_select self).
Definition aggregate_start : nat :=
  index_start +
  (if decide (load_fields = []) then length (meta_fields sch (model self))
   else length load_fields).

Definition is_skipped (f : field) : Prop :=
  load_fields ≠ [] ∧ f_name f ∉ load_fields.

Definition skip : gset string :=
  list_to_set (f_attname <$> filter is_skipped (meta_fields sch (model self))).
Definition init_list : list string :=
  f_attname <$> filter (λ f, ¬ is_skipped f) (meta_fields sch (model self)).

(** [for i, name in enumerate(names): setattr(o, name, row[i + start])] *)
Definition set_from_row (names : list string) (start : nat) (row : list value)
    (o : obj) : res obj :=
  for_each (λ o (ik : nat * string),
              let* v := index row (ik.1 + start) in
              Ok (setattr sch o ik.2 v))
           (imap (λ i k, (i, k)) names) o.

(** The body of the loop over [compiler.results_iter()]: the object that
    is yielded for a row. *)
Definition object_of_row (row : list value) : res obj :=
  let* o :=
    if fill_cache then get_cached_row db self row index_start
    else
      let kwargs :=
        dict_zip init_list (take (aggregate_start - index_start) (drop index_start row)) in
      (* the polymorphic child model class *)
      let* ct := match kwargs !! "polymorphic_ctype_id" with
                 | Some v => Ok v
                 | None => Raise (KeyErrorName "polymorphic_ctype_id")
                 end in
      let* m := match ct with
                | VInt i => match get_for_id sch i with
                            | Some m => Ok m
                            | None => Raise ContentTypeDoesNotExist
                            end
                | _ => Raise ContentTypeDoesNotExist
                end in
      (* the fields of the child class are bulk deferred *)
      let bulk_skip := attnames sch m ∖ attnames sch (model self) in
      let bulk_skip := bulk_skip ∖ {[meta_pk_attname sch m]} in
      let model_cls :=
        if decide (skip = ∅ ∧ bulk_skip = ∅) then Plain m
        else deferred_class_factory m skip bulk_skip in
      let* pk := match kwargs !! meta_pk_attname sch (model self) with
                 | Some v => Ok v
                 | None => Raise (KeyErrorName (meta_pk_attname sch (model self)))
                 end in
      let kwargs := <[meta_pk_attname sch m := pk]> kwargs in
      model_init sch model_cls kwargs in
  let* o := set_from_row (extra_select self) 0 row o in
  set_from_row (aggregate_select self) aggregate_start row o.

(** The generator [_iterator()]: one pending object per row, built when
    [next()] reaches it. *)
Definition _iterator : list (res obj) := object_of_row <$> results_iter db self.

(** The [for i in range(n)] loop of [iterator]: up to [n] calls of
    [base_iter.next()]; it gives the objects read and [reached_end]. *)
Fixpoint next_chunk (n : nat) (base_iter : list (res obj)) : res (list obj * bool) :=
  match n with
  | 0 => Ok ([], false)
  | S n' =>
      match base_iter with
      | [] => Ok ([], true)
      | r :: rest =>
          let* o := r in
          let* '(l, reached_end) := next_chunk n' rest in
          Ok (o :: l, reached_end)
      end
  end.

(** The [while True] loop of [iterator], run for at most [fuel] rounds.
    Each round starts with [base_iter = self._iterator()], as the source
    has it. *)
Fixpoint iterator_while (fuel : nat) (out : list obj) (log : list query) : run :=
  match fuel with
  | 0 => {| yielded := out; queries := log; state := Running |}
  | S fuel' =>
      let base_iter := _iterator in
      match next_chunk Polymorphic_QuerySet_objects_per_request base_iter with
      | Raise e => {| yielded := out; queries := log; state := Failed e |}
      | Ok (base_result_objects, reached_end) =>
          match _get_real_instances sch db self base_result_objects with
          | Raise e => {| yielded := out; queries := log; state := Failed e |}
          | Ok (real_results, q) =>
              if reached_end : bool
              then {| yielded := out ++ real_results; queries := log ++ q;
                      state := Stopped |}
              else iterator_while fuel' (out ++ real_results) (log ++ q)
          end
      end
  end.

(** [iterator()]: what has been yielded after at most [fuel] rounds of the
    loop, and whether the generator has stopped. *)
Definition iterator (fuel : nat) : run :=
  if polymorphic_disabled self
  then {| yielded := super_iterator db self; queries := []; state := Stopped |}
  else iterator_while fuel [] [].
End Iterator.

(** ** The member variables of the query set *)

(** [__init__]: the host's part of the state is given, ours is set from the
    model's [polymorphic_disabled]. *)
Definition init_queryset (model_polymorphic_disabled : bool) (q : queryset) : queryset :=
  {| model := model q;
     polymorphic_disabled := model_polymorphic_disabled;
     deferred := false;
     aggregates := aggregates q; extra_select := extra_select q;
     aggregate_select := aggregate_select q; select_related := select_related q;
     only_load := only_load q |}.

(** [_clone] copies our two variables along with the host's. *)
Definition _clone (self : queryset) : queryset :=
  {| model := model self;
     polymorphic_disabled := polymorphic_disabled self;
     deferred := deferred self;
     aggregates := aggregates self; extra_select := extra_select self;
     aggregate_select := aggregate_select self; select_related := select_related self;
     only_load := only_load self |}.

Definition set_polymorphic_disabled (b : bool) (q : queryset) : queryset :=
  {| model := model q;
     polymorphic_disabled := b;
     deferred := deferred q;
     aggregates := aggregates q; extra_select := extra_select q;
     aggregate_select := aggregate_select q; select_related := select_related q;
     only_load := only_load q |}.

Definition non_polymorphic (self : queryset) : queryset :=
  set_polymorphic_disabled true (_clone self).

(** The clone that [aggregate] hands to the host's [aggregate]. *)
Definition aggregate_clone (self : queryset) : queryset :=
  set_polymorphic_disabled true (_clone self).

(** ** The model metaclass: [PolymorphicModelBase] *)

Module Base.

(** The double quote of the messages. *)
Definition dq : string :=
  String (Ascii.Ascii false true false false false true false false) EmptyString.

Definition POLYMORPHIC_SPECIAL_Q_KWORDS : list string :=
  ["instance_of"; "not_instance_of"].

(** A manager, as far as the metaclass looks at it: whether its type is a
    subclass of [PolymorphicManager], and its [queryset_class], if it has
    one, with whether that is a subclass of [PolymorphicQuerySet]. *)
Record manager := {
  type_name : string;
  is_polymorphic_manager : bool;
  queryset_class : option bool;
  _inherited : bool;
  creation_counter : nat;
}.

(** What a class dictionary can hold under a name. *)
Inductive class_attr :=
  | AManager (m : manager)
  | AManagerDescriptor (m : manager)
  | AOther.

(** A class of [__mro__]. *)
Record base_class := {
  b_name : string;
  b_is_model : bool;
  polymorphic_model_marker : bool;
  b_dict : list (string * class_attr);
}.

(** The class that the host's [ModelBase.__new__] has created. *)
Record new_class := {
  nc_name : string;
  nc_deferred : bool;
  nc_fields : list (string * bool);
  nc_mro_tail : list base_class;
  nc_dict : list (string * class_attr);
  nc_default_manager : manager;
  polymorphic_super_sub_accessors_replaced : option bool;
  nc_polymorphic_primary_key_name : option string;
}.

Definition validate_model_fields (self : new_class) : res unit :=
  for_each (λ _ f,
              if decide (f.1 ∈ POLYMORPHIC_SPECIAL_Q_KWORDS) then
                Raise (AssertionError
                         ("PolymorphicModel: " +:+ dq +:+ nc_name self +:+ dq +:+
                          " - field name " +:+ dq +:+ f.1 +:+ dq +:+
                          " is not allowed in polymorphic models"))
              else Ok tt)
           (nc_fields self) tt.

Definition validate_model_manager (m : manager) (model_name manager_name : string)
    : res manager :=
  if negb (is_polymorphic_manager m) then
    Raise (AssertionError
             ("PolymorphicModel: " +:+ dq +:+ model_name +:+ "." +:+ manager_name +:+ dq +:+
              " manager is of type " +:+ dq +:+ type_name m +:+ dq +:+
              ", but must be a subclass of PolymorphicManager"))
  else
    match queryset_class m with
    | Some true => Ok m
    | _ =>
        Raise (AssertionError
                 ("PolymorphicModel: " +:+ dq +:+ model_name +:+ "." +:+ manager_name +:+ dq +:+
                  " (PolymorphicManager) has been instantiated with a queryset class which is" +:+
                  " not a subclass of PolymorphicQuerySet (which is required)"))
    end.

(** The manager behind a class attribute, [None] when it is no manager. *)
Definition manager_of (a : class_attr) : option manager :=
  match a with
  | AManager m => Some m
  | AManagerDescriptor m => Some m
  | AOther => None
  end.

(** The test of the inner loop of [get_inherited_managers] that decides
    whether a class attribute of a base is taken over. *)
Definition taken_over (attrs : list string) (keys : list string) (key : string)
    (a : class_attr) : option manager :=
  match manager_of a with
  | None => None
  | Some m =>
      if decide (key = "_base_manager") then None
      else if decide (key ∈ attrs) then None
      else if decide (key ∈ keys) then None
      else if _inherited m then None
      else Some m
  end.

Section Metaclass.
(** The host's [Manager._copy_to_model] and [add_to_class]. *)
Context (_copy_to_model : manager → new_class → manager).
Context (add_to_class : new_class → string → manager → new_class).

(** The body of the loop over the class dictionary of one base. *)
Definition inherit_item (self : new_class) (attrs : list string) (base : base_class)
    (add_managers : list (string * string * manager)) (item : string * class_attr)
    : res (list (string * string * manager)) :=
  match taken_over attrs ((λ x, x.1.2) <$> add_managers) item.1 item.2 with
  | None => Ok add_managers
  | Some m =>
      let* _ :=
        if is_polymorphic_manager m
        then validate_model_manager m (nc_name self) item.1
        else Ok m in
      Ok (add_managers ++ [(b_name base, item.1, m)])
  end.

(** The body of the loop over [__mro__[1:]]: only polymorphic models
    hand their managers down. *)
Definition inherit_base (self : new_class) (attrs : list string)
    (add_managers : list (string * string * manager)) (base : base_class)
    : res (list (string * string * manager)) :=
  if negb (b_is_model base) then Ok add_managers
  else if negb (polymorphic_model_marker base) then Ok add_managers
  else for_each (inherit_item self attrs base) (b_dict base) add_managers.

Definition get_inherited_managers (self : new_class) (attrs : list string)
    : res (list (string * string * manager)) :=
  for_each (inherit_base self attrs) (nc_mro_tail self) [].

(** The managers of the class dictionary, sorted by creation counter and
    then by name: the first one, if there is any. *)
Definition first_of (l : list (nat * string * manager)) : option manager :=
  foldr (λ x acc,
           match acc with
           | None => Some x
           | Some y =>
               if decide (x.1.1 < y.1.1 ∨ (x.1.1 = y.1.1 ∧ String.leb x.1.2 y.1.2 = true))
               then Some x else Some y
           end)
        None l
  ≫= λ x, Some x.2.

(** [get_first_user_defined_manager] is a class method: [self] is the class
    that the call binds it to, given by its [__dict__]. *)
Definition get_first_user_defined_manager (self : list (string * class_attr))
    : option manager :=
  first_of (omap (λ kv, (λ m, (creation_counter m, kv.1, m)) <$> manager_of kv.2)
                 self).

(** The [__dict__] of the metaclass [PolymorphicModelBase]: the names that
    its class body binds, which are methods, the thread-local object and a
    property. *)
Definition PolymorphicModelBase_dict : list (string * class_attr) :=
  (λ key, (key, AOther)) <$>
    ["__module__"; "__doc__"; "__new__"; "get_inherited_managers";
     "get_first_user_defined_manager"; "call_superclass_new_method";
     "validate_model_fields"; "validate_model_manager"; "__getattribute__";
     "__init__"; "_polymorphic_disabled"; "_get_polymorphic_disabled";
     "_set_polymorphic_disabled"; "polymorphic_disabled"].

Definition set_default_manager_inherited (b : bool) (c : new_class) : new_class :=
  let m := nc_default_manager c in
  {| nc_name := nc_name c; nc_deferred := nc_deferred c; nc_fields := nc_fields c;
     nc_mro_tail := nc_mro_tail c; nc_dict := nc_dict c;
     nc_default_manager :=
       {| type_name := type_name m;
          is_polymorphic_manager := is_polymorphic_manager m;
          queryset_class := queryset_class m;
          _inherited := b;
          creation_counter := creation_counter m |};
     polymorphic_super_sub_accessors_replaced := polymorphic_super_sub_accessors_replaced c;
     nc_polymorphic_primary_key_name := nc_polymorphic_primary_key_name c |}.

(** The class once the inherited managers and the default manager are
    added.  [new_class.get_first_user_defined_manager()] looks the method
    up on a model class, an instance of the metaclass; as a class method of
    the metaclass it is bound to the metaclass, so the dictionary that it
    walks is that of [PolymorphicModelBase], whatever the new class is. *)
Definition with_managers (c : new_class)
    (inherited_managers : list (string * string * manager)) : new_class :=
  let c := foldl (λ c x, add_to_class c x.1.2 (_copy_to_model x.2 c))
                 c inherited_managers in
  match get_first_user_defined_manager PolymorphicModelBase_dict with
  | Some user_manager =>
      let def_mgr := _copy_to_model user_manager c in
      set_default_manager_inherited false (add_to_class c "_default_manager" def_mgr)
  | None => c
  end.

(** The name of the first primary-key field that is no one-to-one field;
    [nc_fields] pairs each field name with this test. *)
Definition finish (c : new_class) : new_class :=
  {| nc_name := nc_name c; nc_deferred := nc_deferred c; nc_fields := nc_fields c;
     nc_mro_tail := nc_mro_tail c; nc_dict := nc_dict c;
     nc_default_manager := nc_default_manager c;
     polymorphic_super_sub_accessors_replaced := Some false;
     nc_polymorphic_primary_key_name :=
       match filter (λ f, f.2 = true) (nc_fields c) with
       | f :: _ => Some f.1
       | [] => nc_polymorphic_primary_key_name c
       end |}.

(** [__new__], from the class that [call_superclass_new_method] returns. *)
Definition __new__ (created : new_class) (attrs : list string) : res new_class :=
  if nc_deferred created then Ok created
  else
    let* _ := validate_model_fields created in
    let* inherited_managers := get_inherited_managers created attrs in
    let c := with_managers created inherited_managers in
    let* _ := validate_model_manager (nc_default_manager c) (nc_name created)
                                    "_default_manager" in
    Ok (finish c).
End Metaclass.

End Base.

(** ** A sample installation

    Three models over one base table: [A] is the polymorphic base model, [B]
    is derived from it and adds [field2] in a table of its own, [P] is a
    proxy of [A]. *)

Module Sample.

Definition fld (n : string) (d : value) : field :=
  {| f_name := n; f_attname := n; f_default := d; f_set := None; f_get := None |}.

Definition fieldsA : list field :=
  [fld "id" VNone; fld "polymorphic_ctype_id" VNone; fld "field1" (VStr "")].
Definition fieldsB : list field :=
  fieldsA ++ [fld "a_ptr_id" VNone; fld "field2" (VStr "dflt")].

Definition sch : schema :=
  {| meta_fields := λ m, if decide (m = "B") then fieldsB else fieldsA;
     get_fields_with_model := λ m, (λ f, (f, None)) <$> fieldsA;
     meta_pk_attname := λ m, if decide (m = "B") then "a_ptr_id" else "id";
     polymorphic_primary_key_name := λ _, "id";
     get_for_model := λ m, if decide (m = "B") then 2%Z else 1%Z;
     get_for_proxied_model :=
       λ m, if decide (m = "B") then 2%Z else if decide (m = "P") then 3%Z else 1%Z;
     get_for_id :=
       λ i, if decide (i = 1%Z) then Some "A"
            else if decide (i = 2%Z) then Some "B"
            else if decide (i = 3%Z) then Some "P" else None |}.

Definition rowA (i ct : Z) (f1 : string) : gmap string value :=
  <["id" := VInt i]> (<["polymorphic_ctype_id" := VInt ct]> (<["field1" := VStr f1]> ∅)).
Definition rowB (i : Z) (f1 f2 : string) : gmap string value :=
  <["a_ptr_id" := VInt i]> (<["field2" := VStr f2]> (rowA i 2 f1)).

(** A base result object of class [A]. *)
Definition bo (i ct : Z) (f1 : string) : obj :=
  {| o_class := Plain "A"; o_dict := rowA i ct f1 |}.

(** The rows of the base query, given as a parameter of the sample. *)
Definition db (rows : list (list value)) : database :=
  {| db_table := λ m, if decide (m = "B") then [rowB 2 "b" "bb"] else [];
     results_iter := λ _, rows;
     get_cached_row := λ _ _ _, Raise (TypeError "select_related is not part of the sample");
     super_iterator := λ _, [] |}.

Definition qs : queryset :=
  {| model := "A"; polymorphic_disabled := false; deferred := false;
     aggregates := []; extra_select := []; aggregate_select := [];
     select_related := false; only_load := ∅ |}.

Definition qs_deferred : queryset :=
  {| model := "A"; polymorphic_disabled := false; deferred := true;
     aggregates := []; extra_select := []; aggregate_select := [];
     select_related := false; only_load := ∅ |}.

(** A page of base result objects: one saved as [A], one saved as [B] with
    its row in the table of [B], one saved as the proxy [P], one saved as
    [B] whose row in the table of [B] is missing, and the second once more. *)
Definition page : list obj :=
  [bo 1 1 "a"; bo 2 2 "b"; bo 3 3 "p"; bo 4 2 "lost"; bo 2 2 "again"].

(** A query with an annotation [cnt] and an extra-select value [x], and a
    page of base result objects that carry both. *)
Definition qs_annotated : queryset :=
  {| model := "A"; polymorphic_disabled := false; deferred := false;
     aggregates := ["cnt"]; extra_select := ["x"]; aggregate_select := ["cnt"];
     select_related := false; only_load := ∅ |}.

Definition bo_annotated (i ct : Z) (f1 : string) (cnt x : Z) : obj :=
  {| o_class := Plain "A";
     o_dict := <["cnt" := VInt cnt]> (<["x" := VInt x]> (rowA i ct f1)) |}.

Definition page_annotated : list obj :=
  [bo_annotated 1 1 "a" 10 11; bo_annotated 2 2 "b" 20 21;
   bo_annotated 3 3 "p" 30 31; bo_annotated 4 2 "lost" 40 41].

(** [n] base rows that were saved as [A]. *)
Definition rows_of_A (n : nat) : list (list value) :=
  (λ i, [VInt (Z.of_nat i); VInt 1; VStr "a"]) <$> seq 1 n.

End Sample.

(** ** Vocabulary of the statements *)

(** The run of the host's standard iterator: its objects, no query of the
    polymorphic loader, and the generator stopped. *)
Definition standard_run (db : database) (s : queryset) : run :=
  {| yielded := super_iterator db s; queries := []; state := Stopped |}.

Module BaseSpec.
Import Base.

(** A manager that passes [validate_model_manager]. *)
Definition valid_manager (m : manager) : Prop :=
  is_polymorphic_manager m = true ∧ queryset_class m = Some true.

(** The model declares a field with a forbidden name. *)
Definition has_forbidden_field (c : new_class) : Prop :=
  ∃ f, f ∈ nc_fields c ∧ f.1 ∈ POLYMORPHIC_SPECIAL_Q_KWORDS.

(** The managers that are inherited from the polymorphic bases, as the
    traversal of [get_inherited_managers] collects them when nothing is
    validated on the way. *)
Definition collect_item (base : base_class) (attrs : list string)
    (add_managers : list (string * string * manager)) (item : string * class_attr)
    : list (string * string * manager) :=
  match taken_over attrs ((λ x, x.1.2) <$> add_managers) item.1 item.2 with
  | None => add_managers
  | Some m => add_managers ++ [(b_name base, item.1, m)]
  end.

Definition collect_base (attrs : list string)
    (add_managers : list (string * string * manager)) (base : base_class)
    : list (string * string * manager) :=
  if negb (b_is_model base) then add_managers
  else if negb (polymorphic_model_marker base) then add_managers
  else foldl (collect_item base attrs) add_managers (b_dict base).

Definition inherited_managers (c : new_class) (attrs : list string)
    : list (string * string * manager) :=
  foldl (collect_base attrs) [] (nc_mro_tail c).

(** An inherited polymorphic manager whose query set class is wrong. *)
Definition bad_inherited (x : string * string * manager) : Prop :=
  is_polymorphic_manager x.2 = true ∧ ¬ valid_manager x.2.

#[global] Instance valid_manager_dec m : Decision (valid_manager m).
Proof. unfold valid_manager. apply _. Defined.

#[global] Instance bad_inherited_dec x : Decision (bad_inherited x).
Proof. unfold bad_inherited. apply _. Defined.

(** The class with its managers in place, before the default manager is
    validated. *)
Definition resulting_class (_copy_to_model : manager → new_class → manager)
    (add_to_class : new_class → string → manager → new_class)
    (c : new_class) (attrs : list string) : new_class :=
  with_managers _copy_to_model add_to_class c (inherited_managers c attrs).

(** What makes the construction of the class fail. *)
Definition refused (_copy_to_model : manager → new_class → manager)
    (add_to_class : new_class → string → manager → new_class)
    (c : new_class) (attrs : list string) : Prop :=
  has_forbidden_field c
  ∨ Exists bad_inherited (inherited_managers c attrs)
  ∨ ¬ valid_manager (nc_default_manager (resulting_class _copy_to_model add_to_class c attrs)).

(** A sample host and two sample classes over the polymorphic base model:
    [Good] has a polymorphic default manager and allowed field names,
    [Named] declares a field called [instance_of]. *)
Definition poly_manager : manager :=
  {| type_name := "PolymorphicManager"; is_polymorphic_manager := true;
     queryset_class := Some true; _inherited := false; creation_counter := 1 |}.
Definition plain_manager : manager :=
  {| type_name := "Manager"; is_polymorphic_manager := false;
     queryset_class := None; _inherited := false; creation_counter := 2 |}.

Definition sample_copy (m : manager) (_ : new_class) : manager :=
  {| type_name := type_name m; is_polymorphic_manager := is_polymorphic_manager m;
     queryset_class := queryset_class m; _inherited := true;
     creation_counter := creation_counter m |}.

Definition sample_add (c : new_class) (name : string) (m : manager) : new_class :=
  {| nc_name := nc_name c; nc_deferred := nc_deferred c; nc_fields := nc_fields c;
     nc_mro_tail := nc_mro_tail c;
     nc_dict := (name, AManagerDescriptor m) :: nc_dict c;
     nc_default_manager :=
       if decide (name = "_default_manager") then m else nc_default_manager c;
     polymorphic_super_sub_accessors_replaced := polymorphic_super_sub_accessors_replaced c;
     nc_polymorphic_primary_key_name := nc_polymorphic_primary_key_name c |}.

Definition polymorphic_base : base_class :=
  {| b_name := "PolymorphicModel"; b_is_model := true; polymorphic_model_marker := true;
     b_dict := [("objects", AManagerDescriptor poly_manager);
                ("base_objects", AManagerDescriptor plain_manager)] |}.

Definition sample_class (name : string) (fields : list (string * bool))
    (default : manager) : new_class :=
  {| nc_name := name; nc_deferred := false; nc_fields := fields;
     nc_mro_tail := [polymorphic_base]; nc_dict := [];
     nc_default_manager := default;
     polymorphic_super_sub_accessors_replaced := None;
     nc_polymorphic_primary_key_name := None |}.

Definition Good : new_class := sample_class "Good" [("id", true); ("field1", false)] poly_manager.
Definition Named : new_class :=
  sample_class "Named" [("id", true); ("instance_of", false)] poly_manager.

End BaseSpec.

(** ** Vocabulary of the statements about the loader *)

(** What the first loop finds a base object to be: already the real
    instance, an instance of a proxy of the base model, or an instance of a
    derived class that has a table of its own. *)
Inductive kind :=
  | AsIs
  | Proxy (m : string)
  | Derived (m : string).

#[global] Instance kind_eq_dec : EqDecision kind.
Proof. solve_decision. Defined.

Section LoaderSpec.
Context (sch : schema) (db : database) (self : queryset).

Definition classify (bo : obj) : res kind :=
  let* ct := getattr bo "polymorphic_ctype_id" in
  if decide (ct = VInt (self_model_content_type_id sch self)) then Ok AsIs
  else
    let* modelclass := get_real_instance_class sch bo in
    if decide (get_for_model sch modelclass = self_model_unproxied_content_type_id sch self)
    then Ok (Proxy modelclass)
    else Ok (Derived modelclass).

(** The primary key and the attributes of an object that has them. *)
Definition attr_of (bo : obj) (name : string) : value :=
  default VNone (o_dict bo !! name).
Definition pk_of (bo : obj) : value :=
  attr_of bo (meta_pk_attname sch (klass_model (o_class bo))).

(** The first object of a list with a given primary key. *)
Definition first_by_pk (objs : list obj) (k : value) : option obj :=
  head (filter (λ bo, pk_of bo = k) objs).

(** The annotations and the extra-select values of [bo], set on [o]. *)
Definition annotate (names : list string) (bo o : obj) : obj :=
  foldl (λ o name, setattr sch o name (attr_of bo name)) o names.
Definition annotated (bo o : obj) : obj :=
  annotate (extra_select self) bo (annotate (aggregates self) bo o).

(** A new instance of a class, filled from the base object. *)
Definition rebuilt (k : klass) (bo : obj) : obj :=
  annotated bo (set_pk sch (copy_dict bo (new_instance sch k)) (pk_of bo)).

(** The fields that only the derived class has, its primary key apart. *)
Definition subclass_only (m : string) : gset string :=
  (attnames sch m ∖ attnames sch (model self)) ∖ {[meta_pk_attname sch m]}.

(** What deferred mode makes of a base object of the derived class [m]. *)
Definition deferred_instance (m : string) (bo : obj) : obj :=
  if _deferred (o_class bo) && bool_decide (klass_model (o_class bo) = m) then bo
  else rebuilt (deferred_class_factory m ∅ (subclass_only m)) bo.

(** The table of [m] has a row with this primary key. *)
Definition has_row (m : string) (k : value) : Prop :=
  ∃ row, row ∈ db_table db m ∧ row !! meta_pk_attname sch m = Some k.

(** What the loader makes of a derived object. *)
Definition derived_instance (m : string) (bo o : obj) : Prop :=
  if deferred self then o = deferred_instance m bo
  else
    (∃ row, row ∈ db_table db m
            ∧ row !! meta_pk_attname sch m = Some (pk_of bo)
            ∧ o = annotated bo {| o_class := Plain m; o_dict := row |})
    ∨ (¬ has_row m (pk_of bo) ∧ o = rebuilt (Plain m) bo).

(** What the loader makes of a base object, before the names of the
    annotations are attached. *)
Definition reconstructed (bo o : obj) : Prop :=
  match classify bo with
  | Ok AsIs => o = bo
  | Ok (Proxy m) => o = copy_dict bo (new_instance sch (Plain m))
  | Ok (Derived m) => derived_instance m bo o
  | Raise _ => False
  end.

(** The last two loops of the loader, on one object. *)
Definition finalize (o : obj) : obj :=
  let o := if decide (aggregates self = []) then o
           else setattr sch o "polymorphic_annotate_names" (VNames (aggregates self)) in
  if decide (extra_select self = []) then o
  else setattr sch o "polymorphic_extra_select_names" (VNames (extra_select self)).

(** The rows of the table of [m] carry their primary key under the name
    that the loader reads it by. *)
Definition row_keyed (m : string) (row : gmap string value) : Prop :=
  match row !! meta_pk_attname sch m with
  | Some v => row !! polymorphic_primary_key_name sch (model self) = Some v
  | None => True
  end.
Definition table_keyed (m : string) : Prop :=
  Forall (row_keyed m) (db_table db m).

(** A base result object that the loader can work on: it has its primary
    key, its content type is registered, it carries the annotations and the
    extra-select values of the query, and if it is of a derived class then
    in deferred mode the primary key of that class is one of the fields that
    only the class has, and otherwise the table of the class is keyed. *)
Definition object_ok (bo : obj) : Prop :=
  is_Some (o_dict bo !! meta_pk_attname sch (klass_model (o_class bo)))
  ∧ Forall (λ name, is_Some (o_dict bo !! name)) (aggregates self ++ extra_select self)
  ∧ match classify bo with
    | Ok (Derived m) =>
        if deferred self
        then meta_pk_attname sch m ∈ attnames sch m ∖ attnames sch (model self)
        else table_keyed m
    | Ok _ => True
    | Raise _ => False
    end.

#[global] Instance row_keyed_dec m row : Decision (row_keyed m row).
Proof. unfold row_keyed. destruct (row !! meta_pk_attname sch m); apply _. Defined.

#[global] Instance object_ok_dec bo : Decision (object_ok bo).
Proof.
  unfold object_ok, table_keyed.
  destruct (classify bo) as [[| |m]|]; [apply _ |apply _ | |apply _].
  destruct (deferred self); apply _.
Defined.

(** The queries of one page: one per entry of [idlist_per_model], none in
    deferred mode. *)
Definition page_queries (items : list (string * list value)) : list query :=
  if deferred self then [] else (λ it, QFilterPkIn it.1 it.2) <$> items.
End LoaderSpec.

(** ** The state of the loader between its loops *)

Section LoaderInvariant.
Context (sch : schema) (db : database) (self : queryset).

(** The state after the first loop has met a new base object of a kind. *)
Definition place (st : loader) (pk : value) (bo : obj) (kd : kind) : loader :=
  {| ordered_id_list := ordered_id_list st ++ [pk];
     base_result_objects_by_id := <[pk := bo]> (base_result_objects_by_id st);
     results :=
       match kd with
       | AsIs => <[pk := bo]> (results st)
       | Proxy m => <[pk := copy_dict bo (new_instance sch (Plain m))]> (results st)
       | Derived _ => results st
       end;
     idlist_per_model :=
       match kd with
       | Derived m => dd_append (idlist_per_model st) m pk
       | _ => idlist_per_model st
       end |}.

(** Where the first loop has put a base object. *)
Definition placed (st : loader) (k : value) (bo : obj) : Prop :=
  match classify sch self bo with
  | Ok AsIs => results st !! k = Some bo
  | Ok (Proxy m) => results st !! k = Some (copy_dict bo (new_instance sch (Plain m)))
  | Ok (Derived m) =>
      results st !! k = None ∧ ∃ ids, (m, ids) ∈ idlist_per_model st ∧ k ∈ ids
  | Raise _ => False
  end.

(** The state of the loader when the first loop has run over [objs]. *)
Record sorted_page (objs : list obj) (st : loader) : Prop := {
  sp_ordered : ordered_id_list st = pk_of sch <$> objs;
  sp_by_id : ∀ k, base_result_objects_by_id st !! k = first_by_pk sch objs k;
  sp_placed : ∀ k bo, base_result_objects_by_id st !! k = Some bo → placed st k bo;
  sp_results : ∀ k, is_Some (results st !! k) → is_Some (base_result_objects_by_id st !! k);
  sp_models : NoDup ((idlist_per_model st).*1);
  sp_idlists : ∀ m ids, (m, ids) ∈ idlist_per_model st →
    ids ≠ [] ∧ NoDup ids ∧
    ∀ k, k ∈ ids → ∃ bo, base_result_objects_by_id st !! k = Some bo
                         ∧ classify sch self bo = Ok (Derived m);
}.
(** The objects behind the primary keys of one entry of
    [idlist_per_model]. *)
Definition entry_ok (by_id : gmap value obj) (m : string) (ids : list value) : Prop :=
  ∀ k, k ∈ ids →
    ∃ bo, by_id !! k = Some bo ∧ classify sch self bo = Ok (Derived m)
          ∧ object_ok sch db self bo ∧ pk_of sch bo = k.
End LoaderInvariant.

(** ** Vocabulary of the statements about attributes *)

Section AttributeSpec.
Context (sch : schema) (self : queryset).

(** No model has a field of this attname that is a descriptor itself, so
    that setting the attribute stores the value in the instance dictionary
    whatever the class of the instance. *)
Definition stored_directly (name : string) : Prop :=
  ∀ m f, f ∈ meta_fields sch m → f_attname f = name → f_set f = None.

(** The two attributes in which the loader records the names of the
    annotations and of the extra-select values. *)
Definition bookkeeping_names : list string :=
  ["polymorphic_annotate_names"; "polymorphic_extra_select_names"].

(** The names that the loader sets on the objects it returns. *)
Definition loader_names : list string :=
  aggregates self ++ extra_select self ++ bookkeeping_names.
End AttributeSpec.

(** ** Vocabulary of the statements about deferred fields *)

Section DeferredSpec.
Context (sch : schema) (db : database).

(** The object that the values of the deferred fields are taken from: the
    row of the table, or an object re-created from the instance when the row
    is missing. *)
Definition source_of_values (cls : string) (instance : obj) (pk : value) : res obj :=
  match base_objects_get sch db cls pk with
  | Raise DoesNotExist =>
      Ok (set_pk sch (copy_dict instance (new_instance sch (Plain cls))) pk)
  | r => r
  end.
End DeferredSpec.

(** ** Vocabulary of the statements about the edges of the loader *)

Section LoaderEdges.
Context (sch : schema) (self : queryset).

(** A base object that the first loop of the loader can sort: it has its
    primary key, and its content type is registered. *)
Definition sortable (bo : obj) : Prop :=
  is_Some (o_dict bo !! meta_pk_attname sch (klass_model (o_class bo)))
  ∧ match classify sch self bo with Ok _ => True | Raise _ => False end.

#[global] Instance sortable_dec bo : Decision (sortable bo).
Proof. unfold sortable. destruct (classify sch self bo); apply _. Defined.

(** A base object that was saved as the base model itself: it has its
    primary key, and its content type is that of the model of the query. *)
Definition saved_as_base (bo : obj) : Prop :=
  is_Some (o_dict bo !! meta_pk_attname sch (klass_model (o_class bo)))
  ∧ match classify sch self bo with Ok AsIs => True | _ => False end.

#[global] Instance saved_as_base_dec bo : Decision (saved_as_base bo).
Proof. unfold saved_as_base. destruct (classify sch self bo) as [[| |]|]; apply _. Defined.

(** The primary key of a derived class is not one of the fields that only
    the class has: deferred mode cannot take it out of the deferred ones. *)
Definition key_not_its_own (m : string) : Prop :=
  meta_pk_attname sch m ∉ attnames sch m ∖ attnames sch (model self).
End LoaderEdges.

(** A variant of the sample in which the derived model [B] keeps the
    primary key column [id] of its base. *)
Module SampleSharedKey.

Definition sch : schema :=
  {| meta_fields := meta_fields Sample.sch;
     get_fields_with_model := get_fields_with_model Sample.sch;
     meta_pk_attname := λ _, "id";
     polymorphic_primary_key_name := polymorphic_primary_key_name Sample.sch;
     get_for_model := get_for_model Sample.sch;
     get_for_proxied_model := get_for_proxied_model Sample.sch;
     get_for_id := get_for_id Sample.sch |}.

End SampleSharedKey.

(** A variant of the sample in which the derived model [B] has two fields
    of its own, [field2] and [field3]; the table of [B] has the row of the
    object with the primary key 2. *)
Module SampleTwoFields.

Definition fieldsB : list field :=
  Sample.fieldsB ++ [Sample.fld "field3" (VStr "dflt3")].

Definition sch : schema :=
  {| meta_fields := λ m, if decide (m = "B") then fieldsB else Sample.fieldsA;
     get_fields_with_model := get_fields_with_model Sample.sch;
     meta_pk_attname := meta_pk_attname Sample.sch;
     polymorphic_primary_key_name := polymorphic_primary_key_name Sample.sch;
     get_for_model := get_for_model Sample.sch;
     get_for_proxied_model := get_for_proxied_model Sample.sch;
     get_for_id := get_for_id Sample.sch |}.

Definition rowB : gmap string value :=
  <["field3" := VStr "cc"]> (Sample.rowB 2 "b" "bb").

Definition db : database :=
  {| db_table := λ m, if decide (m = "B") then [rowB] else [];
     results_iter := λ _, [];
     get_cached_row := λ _ _ _, Raise (TypeError "select_related is not part of the sample");
     super_iterator := λ _, [] |}.

(** An instance of the deferred class of [B], as the loader makes it in
    deferred mode from the base object with the primary key [i]. *)
Definition deferred_B (i : Z) : obj :=
  {| o_class := deferred_class_factory "B" ∅ {["field2"; "field3"]};
     o_dict := <["a_ptr_id" := VInt i]> (Sample.rowA i 2 "b") |}.

End SampleTwoFields.

(** A query on the sample with an [only()] clause that names [id] and
    [field1], and so leaves the content type out. *)
Module SampleOnly.

Definition qs : queryset :=
  {| model := "A"; polymorphic_disabled := false; deferred := false;
     aggregates := []; extra_select := []; aggregate_select := [];
     select_related := false;
     only_load := {["A" := {["id"; "field1"]}]} |}.

End SampleOnly.

(** ** The proxy set-up of [PolymorphicModelBase.__new__] *)

Module ProxySetup.

(** [_meta] of a parent class, as far as the metaclass reads it. *)
Record options := {
  abstract : bool;
  fields : list string;
}.

(** A base of the class statement: whether it is an instance of
    [ModelBase], and its [_meta] when it has one. *)
Record base := {
  base_name : string;
  is_ModelBase : bool;
  _meta : option options;
}.

(** What a class body can hold under a name other than [Meta]. *)
Inductive member :=
  | Field
  | Other.

#[global] Instance member_eq_dec : EqDecision member.
Proof. solve_decision. Defined.

(** The class body [attrs]: the inner class [Meta], given by the truth
    values of its attributes, and the other members. *)
Record class_body := {
  Meta : option (gmap string bool);
  members : list (string * member);
}.

(** [parents = [b for b in bases if isinstance(b, ModelBase)]] *)
Definition parents (bases : list base) : list base :=
  filter (λ b, is_ModelBase b = true) bases.

(** The loop over the parents that have [_meta]; it gives [is_proxy] and
    [base] as the loop leaves them. *)
Fixpoint find_base (with_meta : list options) (base : option options)
    : bool * option options :=
  match with_meta with
  | [] => (true, base)
  | parent :: rest =>
      if abstract parent && bool_decide (fields parent ≠ []) then (false, base)
      else
        match base with
        | Some _ => (false, base)
        | None => find_base rest (Some parent)
        end
  end.

(** [getattr(attrs.get('Meta', None), 'abstract', False)] *)
Definition Meta_abstract (attrs : class_body) : bool :=
  default false (Meta attrs ≫= λ d, d !! "abstract").

(** The value of [is_proxy] when the last test is reached; [false] also
    when the class has no parent that is a model class, in which case
    nothing is set up. *)
Definition is_proxy (bases : list base) (attrs : class_body) : bool :=
  match parents bases with
  | [] => false
  | _ =>
      let is_proxy := true in
      let is_proxy := if Meta_abstract attrs then false else is_proxy in
      let is_proxy :=
        if is_proxy then
          let '(is_proxy, base) := find_base (omap _meta (parents bases)) None in
          match base with
          | None => false
          | Some _ => is_proxy
          end
        else is_proxy in
      let is_proxy :=
        if is_proxy then
          match filter (λ kv, kv.2 = Field) (members attrs) with
          | [] => is_proxy
          | _ => false
          end
        else is_proxy in
      is_proxy
  end.

(** The class body that is handed to the host's [__new__]: for a proxy,
    [Meta] is replaced by a class derived from it that sets [proxy]. *)
Definition setup_proxy (bases : list base) (attrs : class_body) : class_body :=
  if is_proxy bases attrs then
    {| Meta := Some (<["proxy" := true]> (default ∅ (Meta attrs)));
       members := members attrs |}
  else attrs.

End ProxySetup.

(** ** The managers that a base hands down *)

Module ManagerSpec.
Import Base.

(** The class attribute [key] of [base] is a manager that the traversal
    of [get_inherited_managers] takes over when no base before has given
    a manager of that name. *)
Definition hands_down (attrs : list string) (base : base_class) (key : string)
    (m : manager) : Prop :=
  b_is_model base = true ∧ polymorphic_model_marker base = true
  ∧ (∃ a, (key, a) ∈ b_dict base ∧ manager_of a = Some m)
  ∧ key ≠ "_base_manager" ∧ (key ∉ attrs) ∧ _inherited m = false.

(** The names of the managers of a list of [(base, name, manager)]. *)
Definition names (acc : list (string * string * manager)) : list string :=
  (λ x, x.1.2) <$> acc.

(** What the entries of a list of managers are, and that their names are
    distinct. *)
Definition collected (attrs : list string) (bases : list base_class)
    (acc : list (string * string * manager)) : Prop :=
  NoDup (names acc)
  ∧ ∀ x, x ∈ acc → ∃ base, base ∈ bases ∧ b_name base = x.1.1
                           ∧ hands_down attrs base x.1.2 x.2.

(** A second polymorphic base for the sample: it declares [objects] too,
    and a manager [others] of its own. *)
Definition other_manager : manager :=
  {| type_name := "PolymorphicManager"; is_polymorphic_manager := true;
     queryset_class := Some true; _inherited := false; creation_counter := 5 |}.

Definition second_base : base_class :=
  {| b_name := "Second"; b_is_model := true; polymorphic_model_marker := true;
     b_dict := [("objects", AManager other_manager); ("others", AManager other_manager)] |}.

Definition two_bases : new_class :=
  {| nc_name := "Both"; nc_deferred := false; nc_fields := [("id", true)];
     nc_mro_tail := [BaseSpec.polymorphic_base; second_base];
     nc_dict := [("mine", AManager other_manager); ("objects", AManager BaseSpec.poly_manager)];
     nc_default_manager := BaseSpec.poly_manager;
     polymorphic_super_sub_accessors_replaced := None;
     nc_polymorphic_primary_key_name := None |}.

End ManagerSpec.

(** ** The switch [polymorphic_disabled] of the metaclass *)

Module Flags.

(** [_polymorphic_disabled = local()] is a map from threads to the
    attribute [disabled] of each.  The object is an attribute of the
    metaclass, so there is one for all the model classes. *)

Definition _get_polymorphic_disabled (flags : gmap nat bool) (thread : nat) (cls : string) : bool :=
  default false (flags !! thread).

Definition _set_polymorphic_disabled (flags : gmap nat bool) (thread : nat) (cls : string)
    (disabled : bool) : gmap nat bool :=
  <[thread := disabled]> flags.

(** [__init__] of the metaclass, run for every class that is created. *)
Definition __init__ (argv : list string) (flags : gmap nat bool) (thread : nat) (cls : string)
    : gmap nat bool :=
  _set_polymorphic_disabled flags thread cls (bool_decide ("dumpdata" ∈ argv)).

Section Attributes.
Context {A : Type}.
(** The manager [base_objects] of a class, and the attribute lookup of the
    host's metaclass. *)
Context (base_objects : string → A) (super_getattribute : string → string → A).

Definition __getattribute__ (flags : gmap nat bool) (thread : nat) (cls name : string) : A :=
  if bool_decide (name ∈ ["_default_manager"; "_base_manager"])
     && _get_polymorphic_disabled flags thread cls
  then base_objects cls
  else super_getattribute cls name.
End Attributes.

End Flags.

(** ** Aggregates: [_process_aggregate_args], [annotate] and [aggregate] *)

Module Aggregates.

(** An aggregate object, as far as the query set looks at it. *)
Record Aggregate := {
  function : string;
  lookup : string;
}.

(** [sub in s] on strings. *)
Fixpoint contains (sub s : string) : bool :=
  String.prefix sub s
  || match s with
     | EmptyString => false
     | String _ s' => contains sub s'
     end.

Section Translate.
(** [translate_polymorphic_field_path] of [query_translate.py], and the
    host's [annotate] and [aggregate]. *)
Context {R : Type}.
Context (translate_polymorphic_field_path : string → string → res string).
Context (super_annotate super_aggregate
           : queryset → list Aggregate → list (string * Aggregate) → res R).

(** The keyword aggregates are changed in place; the function gives them
    as the call leaves them. *)
Definition _process_aggregate_args (self : queryset) (args : list Aggregate)
    (kwargs : list (string * Aggregate)) : res (list (string * Aggregate)) :=
  let* _ :=
    for_each (λ _ a,
                if contains "___" (lookup a) then
                  Raise (AssertionError
                           ("PolymorphicModel: annotate()/aggregate(): ___ model lookup " +:+
                            "supported for keyword arguments only"))
                else Ok tt)
             args tt in
  for_each (λ seen kv,
              let* l := translate_polymorphic_field_path (model self) (lookup kv.2) in
              Ok (seen ++ [(kv.1, {| function := function kv.2; lookup := l |})]))
           kwargs [].

(** An aggregate whose lookup has the model syntax [ModelX___field]. *)
Definition model_lookup (a : Aggregate) : Prop :=
  ∃ pre post, lookup a = pre +:+ "___" +:+ post.

(** What the translation of its lookup makes of a keyword aggregate. *)
Definition translated (self : queryset) (kv kv' : string * Aggregate) : Prop :=
  kv'.1 = kv.1 ∧ function kv'.2 = function kv.2
  ∧ translate_polymorphic_field_path (model self) (lookup kv.2) = Ok (lookup kv'.2).

Definition annotate (self : queryset) (args : list Aggregate)
    (kwargs : list (string * Aggregate)) : res R :=
  let* kwargs := _process_aggregate_args self args kwargs in
  super_annotate self args kwargs.

Definition aggregate (self : queryset) (args : list Aggregate)
    (kwargs : list (string * Aggregate)) : res R :=
  let clone := _clone self in
  let* kwargs := _process_aggregate_args clone args kwargs in
  let clone := set_polymorphic_disabled true clone in
  super_aggregate clone args kwargs.
End Translate.

End Aggregates.

(** ** Deferred mode: [defer] *)

Definition set_deferred (b : bool) (q : queryset) : queryset :=
  {| model := model q;
     polymorphic_disabled := polymorphic_disabled q;
     deferred := b;
     aggregates := aggregates q; extra_select := extra_select q;
     aggregate_select := aggregate_select q; select_related := select_related q;
     only_load := only_load q |}.

Section Defer.
(** The host's [aggregate], which [defer] calls with the names of the
    fields when it is given any. *)
Context {R : Type} (super_aggregate : queryset → list (option string) → res R).

(** [defer] with the arguments [fields]: the clone is in deferred mode
    unless the arguments are [(None,)]; it is returned when there is no
    argument, and handed to the host's [aggregate] otherwise. *)
Definition defer (self : queryset) (fields : list (option string)) : res (queryset + R) :=
  let clone := _clone self in
  let clone :=
    if decide (fields = [None]) then set_deferred false clone
    else set_deferred true clone in
  match fields with
  | [] => Ok (inl clone)
  | _ => let* r := super_aggregate clone fields in Ok (inr r)
  end.
End Defer.

(** ** Vocabulary of the statements about the rows of the base query *)

Section RowSpec.
Context (sch : schema) (self : queryset).

(** The content type of a row of the base query: the column of the field
    [polymorphic_ctype_id] among the columns of the fields that are loaded,
    which follow the columns of the extra-select values. *)
Definition row_content_type (row : list value) : option value :=
  '(j, _) ← list_find (λ a, a = "polymorphic_ctype_id") (init_list sch self);
  if decide (index_start self + j < aggregate_start sch self)%nat
  then row !! (index_start self + j)%nat
  else None.

(** The class that the content type of a row records. *)
Definition recorded_class (row : list value) : option string :=
  ct ← row_content_type row;
  match ct with
  | VInt i => get_for_id sch i
  | _ => None
  end.
End RowSpec.

(** * Properties *)

(** ** Loops *)

Lemma for_each_app {A S} (body : S → A → res S) (l1 l2 : list A) (s : S) :
  for_each body (l1 ++ l2) s = res_bind (for_each body l1 s) (for_each body l2).
Proof.
  revert s. induction l1 as [|x l1 IH]; intros s; simpl; [done|].
  destruct (body s x); simpl; auto.
Qed.

Lemma for_each_snoc {A S} (body : S → A → res S) (l : list A) (x : A) (s : S) :
  for_each body (l ++ [x]) s = res_bind (for_each body l s) (λ s', body s' x).
Proof.
  rewrite for_each_app. destruct (for_each body l s) as [s'|]; simpl; [|done].
  by destruct (body s' x).
Qed.

(** ** Disabled polymorphism: the standard iterator *)

Section Disabled.
Context (sch : schema) (db : database).

Lemma iterator_disabled (s : queryset) (fuel : nat) :
  polymorphic_disabled s = true → iterator sch db s fuel = standard_run db s.
Proof. intros H. unfold iterator. by rewrite H. Qed.

(** C9.  A query set whose polymorphic behaviour is switched off, whether by
    [non_polymorphic()], by the model-level flag read when the query set is
    made, or on the clone that [aggregate()] evaluates, or by a clone of any
    of these, iterates exactly as the host's standard iterator does: the same
    objects in the same order, the generator stops, and no query of the
    polymorphic loader is sent. *)
Theorem disabled_iterator_is_standard (q : queryset) (fuel : nat) :
  iterator sch db (non_polymorphic q) fuel = standard_run db (non_polymorphic q)
  ∧ iterator sch db (init_queryset true q) fuel = standard_run db (init_queryset true q)
  ∧ iterator sch db (aggregate_clone q) fuel = standard_run db (aggregate_clone q)
  ∧ iterator sch db (set_polymorphic_disabled true q) fuel
    = standard_run db (set_polymorphic_disabled true q)
  ∧ iterator sch db (_clone (set_polymorphic_disabled true q)) fuel
    = standard_run db (_clone (set_polymorphic_disabled true q)).
Proof. repeat split; by apply iterator_disabled. Qed.
End Disabled.

(** ** The chunked iteration *)

Section Chunks.
Context (sch : schema) (db : database) (self : queryset).

Lemma next_chunk_reached_end (n : nat) (it : list (res obj)) objs (e : bool) :
  next_chunk n it = Ok (objs, e) → e = bool_decide (length it < n)%nat.
Proof.
  revert it objs e. induction n as [|n IH]; intros it objs e H.
  - injection H as <- <-. symmetry. apply bool_decide_eq_false_2. lia.
  - destruct it as [|r rest].
    + injection H as <- <-. symmetry. apply bool_decide_eq_true_2. simpl. lia.
    + simpl in H. destruct r as [o|]; simpl in H; [|done].
      destruct (next_chunk n rest) as [[l e']|] eqn:E; simpl in H; [|done].
      injection H as <- <-. rewrite (IH _ _ _ E).
      apply bool_decide_ext. simpl. lia.
Qed.

Lemma iterator_while_S (fuel : nat) out log :
  iterator_while sch db self (S fuel) out log =
  match next_chunk Polymorphic_QuerySet_objects_per_request (_iterator sch db self) with
  | Raise e => {| yielded := out; queries := log; state := Failed e |}
  | Ok (base_result_objects, reached_end) =>
      match _get_real_instances sch db self base_result_objects with
      | Raise e => {| yielded := out; queries := log; state := Failed e |}
      | Ok (real_results, q) =>
          if reached_end : bool
          then {| yielded := out ++ real_results; queries := log ++ q; state := Stopped |}
          else iterator_while sch db self fuel (out ++ real_results) (log ++ q)
      end
  end.
Proof. reflexivity. Qed.

Lemma iterator_while_never_stops (fuel : nat) out log :
  (Polymorphic_QuerySet_objects_per_request ≤ length (results_iter db self))%nat →
  state (iterator_while sch db self fuel out log) ≠ Stopped.
Proof.
  intros Hlen. revert out log. induction fuel as [|fuel IH]; intros out log; [done|].
  rewrite iterator_while_S.
  destruct (next_chunk Polymorphic_QuerySet_objects_per_request (_iterator sch db self))
    as [[objs e]|] eqn:E; [|done].
  apply next_chunk_reached_end in E.
  unfold _iterator in E. rewrite length_fmap in E.
  rewrite bool_decide_eq_false_2 in E by lia. subst e.
  destruct (_get_real_instances sch db self objs) as [[real q]|]; [|done].
  apply IH.
Qed.

(** C3 (the defect).  When the base query matches at least
    [Polymorphic_QuerySet_objects_per_request] rows, the generator never
    stops: every round of the loop makes a new [_iterator()], reads the
    first chunk again, and finds no end. *)
Theorem iterator_never_stops_on_a_full_chunk (fuel : nat) :
  polymorphic_disabled self = false →
  (Polymorphic_QuerySet_objects_per_request ≤ length (results_iter db self))%nat →
  state (iterator sch db self fuel) ≠ Stopped.
Proof.
  intros Hd Hlen. unfold iterator. rewrite Hd.
  by apply iterator_while_never_stops.
Qed.
End Chunks.

(** With one hundred rows saved as the base model, two rounds have yielded
    the same hundred objects twice and the generator is still running. *)
Example iterator_100_rows_2_rounds :
  let r := iterator Sample.sch (Sample.db (Sample.rows_of_A 100)) Sample.qs 2 in
  state r = Running
  ∧ length (yielded r) = 200%nat
  ∧ drop 100 (yielded r) = take 100 (yielded r).
Proof. intros r. apply (bool_decide_unpack _). vm_compute. exact I. Qed.

(** With ninety-nine rows the first round finds the end. *)
Example iterator_99_rows :
  let r := iterator Sample.sch (Sample.db (Sample.rows_of_A 99)) Sample.qs 1 in
  state r = Stopped ∧ length (yielded r) = 99%nat.
Proof. intros r. apply (bool_decide_unpack _). vm_compute. exact I. Qed.

Lemma iterator_never_stops_witness :
  polymorphic_disabled Sample.qs = false
  ∧ (Polymorphic_QuerySet_objects_per_request
     ≤ length (results_iter (Sample.db (Sample.rows_of_A 100)) Sample.qs))%nat
  ∧ state (iterator Sample.sch (Sample.db (Sample.rows_of_A 100)) Sample.qs 5) ≠ Stopped.
Proof.
  split; [reflexivity|]. split; [vm_compute; lia|].
  apply (iterator_never_stops_on_a_full_chunk Sample.sch
           (Sample.db (Sample.rows_of_A 100)) Sample.qs 5).
  - reflexivity.
  - vm_compute. lia.
Defined.

(** ** The validations of the metaclass *)

Module BaseProofs.
Import Base BaseSpec.

Lemma validate_model_manager_valid m mn kn :
  valid_manager m → validate_model_manager m mn kn = Ok m.
Proof. intros [H1 H2]. unfold validate_model_manager. by rewrite H1, H2. Qed.

Lemma validate_model_manager_invalid m mn kn :
  ¬ valid_manager m → ∃ msg, validate_model_manager m mn kn = Raise (AssertionError msg).
Proof.
  intros H. unfold validate_model_manager, valid_manager in *.
  destruct (is_polymorphic_manager m); simpl; [|eauto].
  destruct (queryset_class m) as [[]|]; eauto. by destruct H.
Qed.

Lemma classic_forbidden c : has_forbidden_field c ∨ ¬ has_forbidden_field c.
Proof.
  unfold has_forbidden_field.
  destruct (decide (Exists (λ f : string * bool, f.1 ∈ POLYMORPHIC_SPECIAL_Q_KWORDS)
                           (nc_fields c))) as [H|H].
  - left. apply Exists_exists in H. done.
  - right. intros ?. apply H, Exists_exists. done.
Qed.

Lemma validate_model_fields_ok c :
  ¬ has_forbidden_field c → validate_model_fields c = Ok tt.
Proof.
  unfold has_forbidden_field, validate_model_fields.
  induction (nc_fields c) as [|f l IH]; intros H; simpl; [done|].
  destruct (decide (f.1 ∈ POLYMORPHIC_SPECIAL_Q_KWORDS)) as [Hin|_].
  - exfalso. apply H. exists f. split; [left|done].
  - simpl. apply IH. intros (g & Hg & Hk). apply H. exists g. split; [by right|done].
Qed.

Lemma validate_model_fields_raise c :
  has_forbidden_field c → ∃ msg, validate_model_fields c = Raise (AssertionError msg).
Proof.
  unfold has_forbidden_field, validate_model_fields.
  induction (nc_fields c) as [|f l IH]; intros (g & Hg & Hk); simpl.
  - by apply elem_of_nil in Hg.
  - destruct (decide (f.1 ∈ POLYMORPHIC_SPECIAL_Q_KWORDS)) as [Hin|Hnin]; simpl; [eauto|].
    apply IH. exists g. split; [|done].
    apply elem_of_cons in Hg as [->|]; done.
Qed.

(** One class attribute: the validating step follows the collecting one
    until a bad manager is met. *)
Lemma inherit_item_collect self attrs base acc item :
  let acc' := collect_item base attrs acc item in
  (Exists bad_inherited acc' → Exists bad_inherited acc ∨
     ∃ msg, inherit_item self attrs base acc item = Raise (AssertionError msg))
  ∧ (¬ Exists bad_inherited acc' → inherit_item self attrs base acc item = Ok acc').
Proof.
  unfold collect_item, inherit_item.
  destruct (taken_over attrs _ item.1 item.2) as [m|]; simpl; [|by auto].
  split.
  - intros [H|H]%Exists_app; [by left|]. right.
    apply Exists_cons in H as [[Hp Hv]|H]; [|by apply Exists_nil in H]. simpl in *.
    rewrite Hp. destruct (validate_model_manager_invalid m (nc_name self) item.1 Hv) as [msg ->].
    by exists msg.
  - intros H. destruct (is_polymorphic_manager m) eqn:Hp; [|done].
    rewrite validate_model_manager_valid; [done|].
    destruct (decide (valid_manager m)) as [|Hv]; [done|].
    exfalso. apply H, Exists_app. right. by left.
Qed.

Lemma collect_item_mono base attrs acc item :
  Exists bad_inherited acc → Exists bad_inherited (collect_item base attrs acc item).
Proof.
  unfold collect_item. destruct (taken_over _ _ _ _); [|done].
  intros. apply Exists_app. by left.
Qed.

Lemma collect_items_mono base attrs items acc :
  Exists bad_inherited acc →
  Exists bad_inherited (foldl (collect_item base attrs) acc items).
Proof.
  revert acc. induction items as [|i items IH]; intros acc H; simpl; [done|].
  by apply IH, collect_item_mono.
Qed.

Lemma inherit_items_collect self attrs base items acc :
  ¬ Exists bad_inherited acc →
  let acc' := foldl (collect_item base attrs) acc items in
  (Exists bad_inherited acc' →
     ∃ msg, for_each (inherit_item self attrs base) items acc = Raise (AssertionError msg))
  ∧ (¬ Exists bad_inherited acc' →
     for_each (inherit_item self attrs base) items acc = Ok acc').
Proof.
  revert acc. induction items as [|i items IH]; intros acc Hacc; simpl.
  - split; [done|auto].
  - destruct (inherit_item_collect self attrs base acc i) as [H1 H2]. simpl in H1, H2.
    destruct (decide (Exists bad_inherited (collect_item base attrs acc i))) as [Hb|Hb].
    + destruct (H1 Hb) as [|[msg ->]]; [done|]. split; [by eauto|].
      intros Hn. exfalso. by apply Hn, collect_items_mono.
    + rewrite (H2 Hb). simpl. by apply IH.
Qed.

Lemma collect_base_mono attrs acc base :
  Exists bad_inherited acc → Exists bad_inherited (collect_base attrs acc base).
Proof.
  unfold collect_base. intros H.
  destruct (negb (b_is_model base)); [done|].
  destruct (negb (polymorphic_model_marker base)); [done|].
  by apply collect_items_mono.
Qed.

Lemma collect_bases_mono attrs bases acc :
  Exists bad_inherited acc → Exists bad_inherited (foldl (collect_base attrs) acc bases).
Proof.
  revert acc. induction bases as [|b bases IH]; intros acc H; simpl; [done|].
  by apply IH, collect_base_mono.
Qed.

Lemma inherit_base_collect self attrs b acc :
  ¬ Exists bad_inherited acc →
  let acc' := collect_base attrs acc b in
  (Exists bad_inherited acc' → ∃ msg, inherit_base self attrs acc b = Raise (AssertionError msg))
  ∧ (¬ Exists bad_inherited acc' → inherit_base self attrs acc b = Ok acc').
Proof.
  intros Hacc. unfold collect_base, inherit_base.
  destruct (negb (b_is_model b)); [by split|].
  destruct (negb (polymorphic_model_marker b)); [by split|].
  by apply inherit_items_collect.
Qed.

Lemma get_inherited_managers_collect self attrs bases acc :
  ¬ Exists bad_inherited acc →
  let acc' := foldl (collect_base attrs) acc bases in
  (Exists bad_inherited acc' →
     ∃ msg, for_each (inherit_base self attrs) bases acc = Raise (AssertionError msg))
  ∧ (¬ Exists bad_inherited acc' → for_each (inherit_base self attrs) bases acc = Ok acc').
Proof.
  revert acc. induction bases as [|b bases IH]; intros acc Hacc; simpl.
  - split; [done|auto].
  - destruct (inherit_base_collect self attrs b acc Hacc) as [H1 H2]. simpl in H1, H2.
    destruct (decide (Exists bad_inherited (collect_base attrs acc b))) as [Hb|Hb].
    + destruct (H1 Hb) as [msg ->]. split; [by eauto|].
      intros Hn. exfalso. by apply Hn, collect_bases_mono.
    + rewrite (H2 Hb). simpl. by apply IH.
Qed.

Section New.
Context (_copy_to_model : manager → new_class → manager).
Context (add_to_class : new_class → string → manager → new_class).

Lemma new_deferred (c : new_class) (attrs : list string) :
  nc_deferred c = true → __new__ _copy_to_model add_to_class c attrs = Ok c.
Proof. intros Hd. unfold __new__. by rewrite Hd. Qed.

(** C7.  The construction of a polymorphic model class that is not a
    deferred class raises an [AssertionError] if and only if the model has a
    field named [instance_of] or [not_instance_of], or an inherited
    polymorphic manager has a query set class that is no subclass of
    [PolymorphicQuerySet], or the resulting default manager is no
    [PolymorphicManager] with such a query set class.  Otherwise it returns
    the class with its managers added, and it raises nothing else. *)
Theorem class_construction_validates (c : new_class) (attrs : list string) :
  nc_deferred c = false →
  ((∃ msg, __new__ _copy_to_model add_to_class c attrs = Raise (AssertionError msg))
     ↔ refused _copy_to_model add_to_class c attrs)
  ∧ (¬ refused _copy_to_model add_to_class c attrs →
     __new__ _copy_to_model add_to_class c attrs
     = Ok (finish (resulting_class _copy_to_model add_to_class c attrs)))
  ∧ (∀ e, __new__ _copy_to_model add_to_class c attrs = Raise e →
     ∃ msg, e = AssertionError msg).
Proof.
  intros Hd. unfold __new__, refused, resulting_class. rewrite Hd.
  assert (Hnil : ¬ Exists bad_inherited ([] : list (string * string * manager)))
    by (by intros ?%Exists_nil).
  destruct (get_inherited_managers_collect c attrs (nc_mro_tail c) [] Hnil) as [G1 G2].
  simpl in G1, G2. fold (get_inherited_managers c attrs) in G1, G2.
  fold (inherited_managers c attrs) in G1, G2.
  destruct (validate_model_fields c) as [[]|e1] eqn:E1; simpl.
  2:{ assert (Hf : has_forbidden_field c).
      { destruct (classic_forbidden c) as [|Hn]; [done|].
        by rewrite (validate_model_fields_ok c Hn) in E1. }
      destruct (validate_model_fields_raise c Hf) as [msg Hm].
      rewrite Hm in E1. injection E1 as <-.
      split; [split; [by left|by eauto]|].
      split; [intros Hn; exfalso; apply Hn; by left|].
      intros e [= <-]. eauto. }
  assert (Hnf : ¬ has_forbidden_field c).
  { intros Hf. destruct (validate_model_fields_raise c Hf) as [msg Hm]. by rewrite Hm in E1. }
  destruct (decide (Exists bad_inherited (inherited_managers c attrs))) as [Hb|Hb].
  { destruct (G1 Hb) as [msg ->]. simpl.
    split; [split; [by right; left|by eauto]|].
    split; [intros Hn; exfalso; apply Hn; by right; left|].
    intros e [= <-]. eauto. }
  rewrite (G2 Hb). simpl.
  set (cm := with_managers _copy_to_model add_to_class c (inherited_managers c attrs)).
  destruct (decide (valid_manager (nc_default_manager cm))) as [Hv|Hv].
  - rewrite (validate_model_manager_valid _ _ _ Hv). simpl.
    split; [split|].
    + by intros [msg ?].
    + intros [?|[?|?]]; done.
    + split; [done|]. by intros e ?.
  - destruct (validate_model_manager_invalid _ (nc_name c) "_default_manager" Hv) as [msg ->].
    simpl. split; [split; [by right; right|by eauto]|].
    split; [intros Hn; exfalso; apply Hn; by right; right|].
    intros e [= <-]. eauto.
Qed.
End New.

Lemma class_construction_validates_witness :
  nc_deferred Named = false
  ∧ ∃ msg, __new__ sample_copy sample_add Named [] = Raise (AssertionError msg).
Proof.
  split; [reflexivity|].
  apply (class_construction_validates sample_copy sample_add Named []); [reflexivity|].
  left. exists ("instance_of", false). split; [|by left].
  unfold Named, sample_class. simpl. by right; left.
Defined.

Example good_class_is_created :
  __new__ sample_copy sample_add Good []
  = Ok (finish (resulting_class sample_copy sample_add Good [])).
Proof. reflexivity. Qed.

End BaseProofs.

(** ** The loader: attributes and the copy of the annotations *)

Section LoaderBasics.
Context (sch : schema) (db : database) (self : queryset).

Lemma getattr_ok (bo : obj) (name : string) :
  is_Some (o_dict bo !! name) → getattr bo name = Ok (attr_of bo name).
Proof. intros [v Hv]. unfold getattr, attr_of. by rewrite Hv. Qed.

Lemma get_pk_ok (bo : obj) :
  is_Some (o_dict bo !! meta_pk_attname sch (klass_model (o_class bo))) →
  get_pk sch bo = Ok (pk_of sch bo).
Proof. apply getattr_ok. Qed.

Lemma copy_attrs_ok (names : list string) (bo o : obj) :
  Forall (λ name, is_Some (o_dict bo !! name)) names →
  copy_attrs sch names bo o = Ok (annotate sch names bo o).
Proof.
  unfold copy_attrs, annotate. revert o.
  induction names as [|n names IH]; intros o H; simpl; [done|].
  apply Forall_cons in H as [Hn H]. rewrite (getattr_ok _ _ Hn). simpl. by apply IH.
Qed.

Lemma copy_both_ok (bo o : obj) :
  Forall (λ name, is_Some (o_dict bo !! name)) (aggregates self ++ extra_select self) →
  (let* o1 := copy_attrs sch (aggregates self) bo o in
   copy_attrs sch (extra_select self) bo o1) = Ok (annotated sch self bo o).
Proof.
  intros [H1 H2]%Forall_app. rewrite (copy_attrs_ok _ _ _ H1). simpl.
  by rewrite (copy_attrs_ok _ _ _ H2).
Qed.

Lemma first_by_pk_snoc (objs : list obj) (bo : obj) (k : value) :
  first_by_pk sch (objs ++ [bo]) k =
  match first_by_pk sch objs k with
  | Some x => Some x
  | None => if decide (pk_of sch bo = k) then Some bo else None
  end.
Proof.
  unfold first_by_pk. rewrite filter_app, head_app.
  destruct (head (filter _ objs)); [done|].
  rewrite filter_cons, filter_nil. by destruct (decide (pk_of sch bo = k)).
Qed.

Lemma first_by_pk_pk (objs : list obj) (k : value) (bo : obj) :
  first_by_pk sch objs k = Some bo → pk_of sch bo = k ∧ bo ∈ objs.
Proof.
  unfold first_by_pk. intros H%head_Some_elem_of.
  by apply list_elem_of_filter in H.
Qed.

Lemma first_by_pk_elem (objs : list obj) (bo : obj) :
  bo ∈ objs → is_Some (first_by_pk sch objs (pk_of sch bo)).
Proof.
  intros H. unfold first_by_pk. apply head_is_Some.
  intros Hnil. by apply (filter_nil_not_elem_of _ _ bo) in Hnil.
Qed.
End LoaderBasics.

(** ** The [defaultdict] of primary keys per model *)

Lemma dd_append_fst (d : list (string * list value)) (m : string) (k : value) :
  (dd_append d m k).*1 = if decide (m ∈ d.*1) then d.*1 else d.*1 ++ [m].
Proof.
  induction d as [|[m' l] d IH].
  - simpl. destruct (decide (m ∈ [])) as [H|]; [by apply elem_of_nil in H|done].
  - cbn [dd_append]. destruct (decide (m' = m)) as [->|Hne].
    + cbn [fmap list_fmap fst]. destruct (decide (m ∈ m :: d.*1)) as [|Hn]; [done|].
      exfalso. apply Hn. by left.
    + cbn [fmap list_fmap fst]. change (list_fmap _ _ fst ?x) with (x.*1). rewrite IH.
      destruct (decide (m ∈ d.*1)) as [Hin|Hnin];
        destruct (decide (m ∈ m' :: d.*1)) as [Hin'|Hnin']; try done.
      * exfalso. apply Hnin'. by right.
      * apply elem_of_cons in Hin' as [?|?]; done.
Qed.

Lemma dd_append_NoDup (d : list (string * list value)) (m : string) (k : value) :
  NoDup (d.*1) → NoDup ((dd_append d m k).*1).
Proof.
  intros H. rewrite dd_append_fst. destruct (decide (m ∈ d.*1)); [done|].
  apply NoDup_app. split; [done|]. split; [|apply NoDup_singleton].
  intros x Hx ->%list_elem_of_singleton. done.
Qed.

(** What an entry of the dictionary was before the append. *)
Lemma dd_append_elem (d : list (string * list value)) (m : string) (k : value) m' ids' :
  (m', ids') ∈ dd_append d m k →
  (m', ids') ∈ d
  ∨ (m' = m ∧ ((∃ ids, (m, ids) ∈ d ∧ ids' = ids ++ [k]) ∨ ((m ∉ d.*1) ∧ ids' = [k]))).
Proof.
  induction d as [|[m0 l] d IH]; simpl.
  - intros [= -> ->]%list_elem_of_singleton. right. split; [done|]. right.
    split; [apply not_elem_of_nil|done].
  - destruct (decide (m0 = m)) as [->|Hne].
    + intros [[= -> ->]|H]%elem_of_cons.
      * right. split; [done|]. left. exists l. split; [by left|done].
      * left. by right.
    + intros [[= -> ->]|H]%elem_of_cons; [left; by left|].
      destruct (IH H) as [?|[-> [(ids & Hi & ->)|[Hn ->]]]].
      * left. by right.
      * right. split; [done|]. left. exists ids. split; [by right|done].
      * right. split; [done|]. right. split; [|done].
        simpl. intros [?|?]%elem_of_cons; done.
Qed.

(** An entry is kept, or grows. *)
Lemma dd_append_mono (d : list (string * list value)) (m : string) (k : value) m' ids :
  (m', ids) ∈ d → ∃ ids', (m', ids') ∈ dd_append d m k ∧ ∀ x, x ∈ ids → x ∈ ids'.
Proof.
  induction d as [|[m0 l] d IH]; simpl; [by intros ?%elem_of_nil|].
  intros [[= -> ->]|H]%elem_of_cons.
  - destruct (decide (m0 = m)) as [->|Hne].
    + exists (l ++ [k]). split; [by left|]. intros x Hx. apply elem_of_app. by left.
    + exists l. split; [by left|done].
  - destruct (decide (m0 = m)) as [->|Hne].
    + exists ids. split; [by right|done].
    + destruct (IH H) as (ids' & H1 & H2). exists ids'. split; [by right|done].
Qed.

Lemma dd_append_new (d : list (string * list value)) (m : string) (k : value) :
  ∃ ids, (m, ids) ∈ dd_append d m k ∧ k ∈ ids.
Proof.
  induction d as [|[m0 l] d IH]; simpl.
  - exists [k]. split; by left.
  - destruct (decide (m0 = m)) as [->|Hne].
    + exists (l ++ [k]). split; [by left|]. apply elem_of_app. right. by left.
    + destruct IH as (ids & H1 & H2). exists ids. split; [by right|done].
Qed.

(** ** The first loop of the loader *)

Section FirstLoop.
Context (sch : schema) (db : database) (self : queryset).

Lemma sort_base_object_place (st : loader) (bo : obj) :
  sort_base_object sch self st bo =
  let* pk := get_pk sch bo in
  match base_result_objects_by_id st !! pk with
  | Some _ =>
      Ok {| ordered_id_list := ordered_id_list st ++ [pk];
            base_result_objects_by_id := base_result_objects_by_id st;
            results := results st;
            idlist_per_model := idlist_per_model st |}
  | None => let* kd := classify sch self bo in Ok (place sch st pk bo kd)
  end.
Proof.
  unfold sort_base_object, classify, place.
  destruct (get_pk sch bo) as [pk|]; simpl; [|done].
  destruct (base_result_objects_by_id st !! pk); [done|].
  destruct (getattr bo "polymorphic_ctype_id") as [ct|]; simpl; [|done].
  destruct (decide (ct = VInt (self_model_content_type_id sch self))); [done|].
  destruct (get_real_instance_class sch bo) as [m|]; simpl; [|done].
  by destruct (decide (get_for_model sch m = self_model_unproxied_content_type_id sch self)).
Qed.

Lemma sorted_page_empty : sorted_page sch self [] empty_loader.
Proof.
  split; simpl; try done.
  all: try (intros; by simplify_map_eq).
  all: try apply NoDup_nil_2.
  all: try (intros k [? H]; by simplify_map_eq).
  all: try (intros m ids H; by apply elem_of_nil in H).
Qed.

(** A base object whose primary key has been met before. *)
Lemma sorted_page_seen (objs : list obj) (st : loader) (bo : obj) :
  sorted_page sch self objs st →
  is_Some (base_result_objects_by_id st !! pk_of sch bo) →
  sorted_page sch self (objs ++ [bo])
    {| ordered_id_list := ordered_id_list st ++ [pk_of sch bo];
       base_result_objects_by_id := base_result_objects_by_id st;
       results := results st;
       idlist_per_model := idlist_per_model st |}.
Proof.
  intros [H1 H2 H3 H4 H5 H6] Hseen. split; simpl; try done.
  - by rewrite fmap_app, H1.
  - intros k. rewrite first_by_pk_snoc, <- H2.
    destruct (base_result_objects_by_id st !! k) eqn:E; [done|].
    destruct (decide (pk_of sch bo = k)) as [<-|]; [|done].
    rewrite E in Hseen. by destruct Hseen.
Qed.

(** A base object with a new primary key. *)
Lemma sorted_page_new (objs : list obj) (st : loader) (bo : obj) (kd : kind) :
  sorted_page sch self objs st →
  base_result_objects_by_id st !! pk_of sch bo = None →
  classify sch self bo = Ok kd →
  sorted_page sch self (objs ++ [bo]) (place sch st (pk_of sch bo) bo kd).
Proof.
  intros [H1 H2 H3 H4 H5 H6] Hnew Hkd.
  assert (Hres : results st !! pk_of sch bo = None).
  { destruct (results st !! pk_of sch bo) eqn:E; [|done].
    destruct (H4 (pk_of sch bo)) as [? Hs]; [by eexists|]. by rewrite Hs in Hnew. }
  split; simpl.
  - by rewrite fmap_app, H1.
  - intros k. rewrite first_by_pk_snoc, <- H2.
    destruct (decide (pk_of sch bo = k)) as [<-|Hne].
    + by rewrite lookup_insert_eq, Hnew.
    + rewrite lookup_insert_ne by done. by destruct (base_result_objects_by_id st !! k).
  - intros k bo'. destruct (decide (pk_of sch bo = k)) as [<-|Hne].
    + rewrite lookup_insert_eq. intros [= <-]. unfold placed. rewrite Hkd.
      destruct kd as [|m|m]; simpl.
      * by rewrite lookup_insert_eq.
      * by rewrite lookup_insert_eq.
      * split; [done|]. apply dd_append_new.
    + rewrite lookup_insert_ne by done. intros Hk. specialize (H3 k bo' Hk).
      unfold placed in *. destruct (classify sch self bo') as [[|m'|m']|]; simpl in *.
      * destruct kd; simpl; rewrite ?lookup_insert_ne by done; done.
      * destruct kd; simpl; rewrite ?lookup_insert_ne by done; done.
      * destruct H3 as [Hn (ids & Hi & Hin)].
        split; [destruct kd; simpl; rewrite ?lookup_insert_ne by done; done|].
        destruct kd as [| |m2]; simpl; try by eauto.
        destruct (dd_append_mono _ m2 (pk_of sch bo) _ _ Hi) as (ids' & ? & Hsub).
        exists ids'. split; [done|]. by apply Hsub.
      * done.
  - intros k Hk. destruct (decide (pk_of sch bo = k)) as [<-|Hne].
    + rewrite lookup_insert_eq. by eexists.
    + rewrite lookup_insert_ne by done. apply H4.
      destruct kd; simpl in Hk; rewrite ?lookup_insert_ne in Hk by done; done.
  - destruct kd; simpl; try done. by apply dd_append_NoDup.
  - intros m ids Hin.
    assert (Hold : ∀ m ids, (m, ids) ∈ idlist_per_model st →
              ids ≠ [] ∧ NoDup ids ∧
              ∀ k, k ∈ ids →
                ∃ bo0, <[pk_of sch bo := bo]> (base_result_objects_by_id st) !! k = Some bo0
                       ∧ classify sch self bo0 = Ok (Derived m)).
    { intros m0 ids0 H0. destruct (H6 m0 ids0 H0) as (Ha & Hb & Hc).
      split; [done|]. split; [done|]. intros k Hk.
      destruct (Hc k Hk) as (bo0 & Hb0 & Hc0). exists bo0. split; [|done].
      rewrite lookup_insert_ne; [done|]. intros <-. by rewrite Hnew in Hb0. }
    destruct kd as [| |m2]; simpl in Hin; try by apply Hold.
    apply dd_append_elem in Hin as [Hin|[-> [(ids0 & Hi & ->)|[Hn ->]]]].
    + by apply Hold.
    + destruct (H6 _ _ Hi) as (Ha & Hb & Hc). split; [by destruct ids0|]. split.
      * apply NoDup_app. split; [done|]. split; [|apply NoDup_singleton].
        intros x Hx ->%list_elem_of_singleton.
        destruct (Hc _ Hx) as (? & Hs & _). by rewrite Hs in Hnew.
      * intros k [Hk| ->%list_elem_of_singleton]%elem_of_app.
        -- by apply (Hold _ _ Hi).
        -- exists bo. by rewrite lookup_insert_eq.
    + split; [done|]. split; [apply NoDup_singleton|].
      intros k ->%list_elem_of_singleton. exists bo. by rewrite lookup_insert_eq.
Qed.

Lemma object_ok_classify (bo : obj) :
  object_ok sch db self bo → ∃ kd, classify sch self bo = Ok kd.
Proof.
  intros (_ & _ & H). destruct (classify sch self bo); [by eauto|done].
Qed.

(** The first loop succeeds on a page of well-formed objects, and leaves
    the state that [sorted_page] describes. *)
Lemma sort_page (objs : list obj) :
  Forall (object_ok sch db self) objs →
  ∃ st, for_each (sort_base_object sch self) objs empty_loader = Ok st
        ∧ sorted_page sch self objs st.
Proof.
  induction objs as [|bo objs IH] using rev_ind; intros Hok.
  - exists empty_loader. split; [done|apply sorted_page_empty].
  - apply Forall_app in Hok as [Hobjs Hbo]. rewrite Forall_singleton in Hbo.
    destruct (IH Hobjs) as (st & Hst & Hinv).
    rewrite for_each_snoc, Hst. simpl. rewrite sort_base_object_place.
    rewrite (get_pk_ok sch bo) by apply Hbo. simpl.
    destruct (base_result_objects_by_id st !! pk_of sch bo) eqn:E.
    + eexists. split; [done|]. apply sorted_page_seen; [done|]. rewrite E. by eexists.
    + destruct (object_ok_classify bo Hbo) as [kd Hkd]. rewrite Hkd. simpl.
      eexists. split; [done|]. by apply sorted_page_new.
Qed.
End FirstLoop.

(** ** The second loop of the loader *)

Section SecondLoop.
Context (sch : schema) (db : database) (self : queryset).
Context (by_id : gmap value obj).

Lemma load_deferred_ok (m : string) (k : value) (bo : obj) (res_ : gmap value obj) :
  by_id !! k = Some bo → object_ok sch db self bo →
  load_deferred sch self by_id m (deferred_class_factory m ∅ (subclass_only sch self m)) res_ k
  = Ok (<[k := deferred_instance sch self m bo]> res_).
Proof.
  intros Hk (Hpk & [Ha He]%Forall_app & _). unfold load_deferred, lookup_by_id, deferred_instance.
  rewrite Hk. simpl.
  destruct (_deferred (o_class bo) && bool_decide (klass_model (o_class bo) = m)); [done|].
  rewrite (get_pk_ok sch bo Hpk). simpl.
  rewrite (copy_attrs_ok sch _ _ _ Ha). simpl.
  by rewrite (copy_attrs_ok sch _ _ _ He).
Qed.

Lemma load_deferred_loop (m : string) (ids : list value) (res0 : gmap value obj) :
  (∀ k, k ∈ ids → ∃ bo, by_id !! k = Some bo ∧ object_ok sch db self bo) →
  ∃ res',
    for_each (load_deferred sch self by_id m
                (deferred_class_factory m ∅ (subclass_only sch self m))) ids res0 = Ok res'
    ∧ (∀ k, k ∉ ids → res' !! k = res0 !! k)
    ∧ (∀ k, k ∈ ids →
         ∃ bo, by_id !! k = Some bo ∧ res' !! k = Some (deferred_instance sch self m bo)).
Proof.
  revert res0. induction ids as [|k ids IH]; intros res0 H; simpl.
  - exists res0. split; [done|]. split; [done|]. by intros k ?%elem_of_nil.
  - destruct (H k) as (bo & Hk & Hok); [by left|].
    rewrite (load_deferred_ok m k bo res0 Hk Hok). simpl.
    destruct (IH (<[k := deferred_instance sch self m bo]> res0)) as (res' & -> & Hf & Hi).
    { intros k' Hk'. apply H. by right. }
    exists res'. split; [done|]. split.
    + intros k' Hk'. rewrite Hf; [|intros ?; apply Hk'; by right].
      apply lookup_insert_ne. intros ->. apply Hk'. by left.
    + intros k' Hk'. destruct (decide (k' ∈ ids)) as [Hin|Hnin]; [by apply Hi|].
      apply elem_of_cons in Hk' as [->|]; [|done].
      exists bo. split; [done|]. by rewrite Hf, lookup_insert_eq.
Qed.

Lemma recreate_missing_new (m : string) (k : value) (bo : obj) (res_ : gmap value obj) :
  by_id !! k = Some bo → object_ok sch db self bo → res_ !! k = None →
  recreate_missing sch self by_id m res_ k = Ok (<[k := rebuilt sch self (Plain m) bo]> res_).
Proof.
  intros Hk (Hpk & [Ha He]%Forall_app & _) Hn. unfold recreate_missing, lookup_by_id, rebuilt.
  rewrite Hn, Hk. simpl. rewrite (get_pk_ok sch bo Hpk). simpl.
  rewrite (copy_attrs_ok sch _ _ _ Ha). simpl.
  by rewrite (copy_attrs_ok sch _ _ _ He).
Qed.

Lemma recreate_missing_loop (m : string) (ids : list value) (res0 : gmap value obj) :
  (∀ k, k ∈ ids → ∃ bo, by_id !! k = Some bo ∧ object_ok sch db self bo) →
  ∃ res',
    for_each (recreate_missing sch self by_id m) ids res0 = Ok res'
    ∧ (∀ k, k ∉ ids → res' !! k = res0 !! k)
    ∧ (∀ k, is_Some (res0 !! k) → res' !! k = res0 !! k)
    ∧ (∀ k, k ∈ ids → res0 !! k = None →
         ∃ bo, by_id !! k = Some bo ∧ res' !! k = Some (rebuilt sch self (Plain m) bo)).
Proof.
  revert res0. induction ids as [|k ids IH]; intros res0 H; simpl.
  - exists res0. split; [done|]. split; [done|]. split; [done|]. by intros k ?%elem_of_nil.
  - destruct (H k) as (bo & Hk & Hok); [by left|].
    assert (Hrest : ∀ k', k' ∈ ids → ∃ bo, by_id !! k' = Some bo ∧ object_ok sch db self bo).
    { intros k' Hk'. apply H. by right. }
    destruct (res0 !! k) as [o|] eqn:E.
    + unfold recreate_missing at 1. rewrite E. simpl.
      destruct (IH res0 Hrest) as (res' & -> & Hf & Hs & Hi).
      exists res'. split; [done|]. split; [|split; [done|]].
      * intros k' Hk'. apply Hf. intros ?. apply Hk'. by right.
      * intros k' [->|Hk']%elem_of_cons Hn; [by rewrite E in Hn|]. by apply Hi.
    + rewrite (recreate_missing_new m k bo res0 Hk Hok E). simpl.
      destruct (IH (<[k := rebuilt sch self (Plain m) bo]> res0) Hrest)
        as (res' & -> & Hf & Hs & Hi).
      exists res'. split; [done|]. split; [|split].
      * intros k' Hk'. rewrite Hf; [|intros ?; apply Hk'; by right].
        apply lookup_insert_ne. intros ->. apply Hk'. by left.
      * intros k' Hk'. rewrite Hs.
        -- apply lookup_insert_ne. intros ->. rewrite E in Hk'. by destruct Hk'.
        -- destruct (decide (k = k')) as [->|]; [by rewrite lookup_insert_eq|].
           by rewrite lookup_insert_ne.
      * intros k' Hk' Hn. destruct (decide (k' = k)) as [->|Hne].
        -- exists bo. split; [done|]. rewrite Hs; by rewrite lookup_insert_eq.
        -- apply elem_of_cons in Hk' as [?|Hk']; [done|]. apply Hi; [done|].
           by rewrite lookup_insert_ne.
Qed.

Lemma store_fetched_ok (m : string) (row : gmap string value) (v : value) (bo : obj)
    (res_ : gmap value obj) :
  row !! polymorphic_primary_key_name sch (model self) = Some v →
  by_id !! v = Some bo → object_ok sch db self bo →
  store_fetched sch self by_id (polymorphic_primary_key_name sch (model self)) res_
    {| o_class := Plain m; o_dict := row |}
  = Ok (<[v := annotated sch self bo {| o_class := Plain m; o_dict := row |}]> res_).
Proof.
  intros Hrow Hk (Hpk & [Ha He]%Forall_app & _). unfold store_fetched, lookup_by_id, getattr.
  simpl. rewrite Hrow. simpl. rewrite Hk. simpl.
  rewrite (copy_attrs_ok sch _ _ _ Ha). simpl.
  by rewrite (copy_attrs_ok sch _ _ _ He).
Qed.

Lemma store_fetched_loop (m : string) (rows : list (gmap string value))
    (res0 : gmap value obj) :
  (∀ row, row ∈ rows →
     ∃ v bo, row !! meta_pk_attname sch m = Some v
             ∧ row !! polymorphic_primary_key_name sch (model self) = Some v
             ∧ by_id !! v = Some bo ∧ object_ok sch db self bo) →
  ∃ res',
    for_each (store_fetched sch self by_id (polymorphic_primary_key_name sch (model self)))
             ((λ row, {| o_class := Plain m; o_dict := row |}) <$> rows) res0 = Ok res'
    ∧ (∀ k, (∀ row, row ∈ rows → row !! meta_pk_attname sch m ≠ Some k) →
         res' !! k = res0 !! k)
    ∧ (∀ k, (∃ row, row ∈ rows ∧ row !! meta_pk_attname sch m = Some k) →
         ∃ row bo, row ∈ rows ∧ row !! meta_pk_attname sch m = Some k
                   ∧ by_id !! k = Some bo
                   ∧ res' !! k
                     = Some (annotated sch self bo {| o_class := Plain m; o_dict := row |})).
Proof.
  revert res0. induction rows as [|row rows IH]; intros res0 H; simpl.
  - exists res0. split; [done|]. split; [done|]. by intros k (? & ?%elem_of_nil & _).
  - destruct (H row) as (v & bo & Hv & Hn & Hk & Hok); [by left|].
    rewrite (store_fetched_ok m row v bo res0 Hn Hk Hok). simpl.
    destruct (IH (<[v := annotated sch self bo {| o_class := Plain m; o_dict := row |}]> res0))
      as (res' & Hfe & Hf & Hi).
    { intros row' Hr. apply H. by right. }
    exists res'. split; [exact Hfe|]. split.
    + intros k Hnone. rewrite Hf; [|intros row' Hr; apply Hnone; by right].
      apply lookup_insert_ne. intros ->. by apply (Hnone row); [left|].
    + intros k (row' & Hr & Hrk).
      destruct (decide (Exists (λ r, r !! meta_pk_attname sch m = Some k) rows)) as [He|He].
      * apply Exists_exists in He as (r & Hr1 & Hr2).
        destruct (Hi k) as (r' & bo' & ? & ? & ? & ?); [by eauto|].
        exists r', bo'. split; [by right|done].
      * assert (row' = row) as ->.
        { apply elem_of_cons in Hr as [?|Hr]; [done|].
          exfalso. apply He, Exists_exists. by eauto. }
        assert (v = k) as -> by congruence.
        exists row, bo. split; [by left|]. split; [done|]. split; [done|].
        rewrite Hf; [by rewrite lookup_insert_eq|].
        intros r Hr1 Hr2. apply He, Exists_exists. by eauto.
Qed.
End SecondLoop.

(** ** One entry of [idlist_per_model], and all of them *)

Section Entries.
Context (sch : schema) (db : database) (self : queryset).
Context (by_id : gmap value obj).

Lemma page_queries_cons (it : string * list value) (items : list (string * list value)) :
  page_queries self (it :: items) = page_queries self [it] ++ page_queries self items.
Proof. unfold page_queries. by destruct (deferred self). Qed.

Lemma load_model_entry (m : string) (ids : list value) (res0 : gmap value obj)
    (log0 : list query) :
  ids ≠ [] → entry_ok sch db self by_id m ids →
  (∀ k, k ∈ ids → res0 !! k = None) →
  ∃ res',
    load_model sch db self by_id (res0, log0) (m, ids)
    = Ok (res', log0 ++ page_queries self [(m, ids)])
    ∧ (∀ k, k ∉ ids → res' !! k = res0 !! k)
    ∧ (∀ k, k ∈ ids →
         ∃ bo o, by_id !! k = Some bo ∧ res' !! k = Some o
                 ∧ derived_instance sch db self m bo o).
Proof.
  intros Hne Hentry Hnone.
  assert (Hok : ∀ k, k ∈ ids → ∃ bo, by_id !! k = Some bo ∧ object_ok sch db self bo).
  { intros k Hk. destruct (Hentry k Hk) as (bo & ? & ? & ? & ?). by eauto. }
  assert (Hmode : if deferred self
                  then meta_pk_attname sch m ∈ attnames sch m ∖ attnames sch (model self)
                  else table_keyed sch db self m).
  { destruct ids as [|k0 ids']; [done|].
    destruct (Hentry k0) as (bo & _ & Hc & (_ & _ & Hm) & _); [by left|].
    by rewrite Hc in Hm. }
  unfold load_model, page_queries, derived_instance.
  destruct (deferred self) eqn:Hd.
  - rewrite decide_True by done. simpl.
    destruct (load_deferred_loop sch db self by_id m ids res0 Hok) as (res1 & Hl & Hf1 & Hi1).
    unfold subclass_only in Hl. rewrite Hl. simpl.
    destruct (recreate_missing_loop sch db self by_id m ids res1 Hok)
      as (res2 & -> & Hf2 & Hs2 & _).
    simpl. rewrite app_nil_r. exists res2. split; [done|]. split.
    + intros k Hk. by rewrite Hf2, Hf1.
    + intros k Hk. destruct (Hi1 k Hk) as (bo & Hb & Hr).
      exists bo, (deferred_instance sch self m bo). split; [done|]. split; [|done].
      rewrite Hs2; [done|]. rewrite Hr. by eexists.
  - pose (rows := filter (row_pk_in (meta_pk_attname sch m) ids) (db_table db m)).
    assert (Hrows : ∀ row, row ∈ rows →
              ∃ v, row !! meta_pk_attname sch m = Some v ∧ v ∈ ids ∧ row ∈ db_table db m).
    { intros row [Hin Ht]%list_elem_of_filter. unfold row_pk_in in Hin.
      destruct (row !! meta_pk_attname sch m) as [v|]; [|done]. by eauto. }
    destruct (store_fetched_loop sch db self by_id m rows res0) as (res1 & Hl & Hf1 & Hi1).
    { intros row Hr. destruct (Hrows row Hr) as (v & Hv & Hvin & Ht).
      destruct (Hentry v Hvin) as (bo & Hb & _ & Hbo & _).
      exists v, bo. split; [done|]. split; [|done].
      unfold table_keyed in Hmode. rewrite Forall_forall in Hmode.
      specialize (Hmode row Ht). unfold row_keyed in Hmode. by rewrite Hv in Hmode. }
    unfold base_objects_filter_pk_in. fold rows. rewrite Hl. simpl.
    destruct (recreate_missing_loop sch db self by_id m ids res1 Hok)
      as (res2 & -> & Hf2 & Hs2 & Hi2).
    simpl. exists res2. split; [done|]. split.
    + intros k Hk. rewrite Hf2 by done. apply Hf1.
      intros row Hr Hrk. destruct (Hrows row Hr) as (v & Hv & Hvin & _). congruence.
    + intros k Hk. destruct (Hentry k Hk) as (bo & Hb & _ & _ & Hpk).
      destruct (decide (Exists (λ r, r !! meta_pk_attname sch m = Some k) (db_table db m)))
        as [He|He].
      * apply Exists_exists in He as (r & Hr1 & Hr2).
        destruct (Hi1 k) as (r' & bo' & Hr' & Hrk & Hb' & Hres).
        { exists r. split; [|done]. apply list_elem_of_filter. split; [|done].
          unfold row_pk_in. by rewrite Hr2. }
        assert (bo' = bo) as -> by congruence.
        exists bo, (annotated sch self bo {| o_class := Plain m; o_dict := r' |}).
        split; [done|]. split.
        -- rewrite Hs2; [done|]. rewrite Hres. by eexists.
        -- left. exists r'. destruct (Hrows r' Hr') as (? & ? & ? & ?).
           split; [done|]. split; [|done]. by rewrite Hpk.
      * destruct (Hi2 k Hk) as (bo' & Hb' & Hres).
        { rewrite Hf1; [by apply Hnone|].
          intros row Hr Hrk. destruct (Hrows row Hr) as (? & ? & ? & ?).
          apply He, Exists_exists. by eauto. }
        assert (bo' = bo) as -> by congruence.
        exists bo, (rebuilt sch self (Plain m) bo). split; [done|]. split; [done|].
        right. split; [|done]. rewrite Hpk. intros (row & ? & ?).
        apply He, Exists_exists. by eauto.
Qed.

Lemma load_models (idl : list (string * list value)) (res0 : gmap value obj)
    (log0 : list query) :
  NoDup (idl.*1) →
  (∀ m ids, (m, ids) ∈ idl → ids ≠ [] ∧ entry_ok sch db self by_id m ids) →
  (∀ m ids k, (m, ids) ∈ idl → k ∈ ids → res0 !! k = None) →
  ∃ res',
    for_each (load_model sch db self by_id) idl (res0, log0)
    = Ok (res', log0 ++ page_queries self idl)
    ∧ (∀ k, (∀ m ids, (m, ids) ∈ idl → k ∉ ids) → res' !! k = res0 !! k)
    ∧ (∀ m ids k, (m, ids) ∈ idl → k ∈ ids →
         ∃ bo o, by_id !! k = Some bo ∧ res' !! k = Some o
                 ∧ derived_instance sch db self m bo o).
Proof.
  revert res0 log0. induction idl as [|[m ids] idl IH]; intros res0 log0 Hnd Hent Hnone.
  - exists res0. simpl. split.
    + unfold page_queries. destruct (deferred self); by rewrite app_nil_r.
    + split; [done|]. by intros m ids k ?%elem_of_nil.
  - simpl in Hnd. apply NoDup_cons in Hnd as [Hm Hnd].
    destruct (Hent m ids) as [Hne Hentry]; [by left|].
    assert (Hdisj : ∀ m' ids' k, (m', ids') ∈ idl → k ∈ ids' → k ∉ ids).
    { intros m' ids' k Hin Hk Hk2.
      destruct (Hentry k Hk2) as (bo & Hb & Hc & _).
      destruct (Hent m' ids') as [_ Hentry']; [by right|].
      destruct (Hentry' k Hk) as (bo' & Hb' & Hc' & _).
      assert (m' = m) as -> by congruence.
      apply Hm. apply list_elem_of_fmap. exists (m, ids'). done. }
    destruct (load_model_entry m ids res0 log0 Hne Hentry) as (res1 & Hl & Hf1 & Hi1).
    { intros k Hk. apply (Hnone m ids); [by left|done]. }
    cbn [for_each]. rewrite Hl. cbn [res_bind].
    destruct (IH res1 (log0 ++ page_queries self [(m, ids)]) Hnd) as (res2 & -> & Hf2 & Hi2).
    { intros m' ids' Hin. apply Hent. by right. }
    { intros m' ids' k Hin Hk. rewrite Hf1 by eauto. apply (Hnone m' ids'); [by right|done]. }
    exists res2. split; [|split].
    + by rewrite (page_queries_cons (m, ids) idl), app_assoc.
    + intros k Hk. rewrite Hf2.
      * apply Hf1. apply (Hk m ids). by left.
      * intros m' ids' Hin. apply (Hk m' ids'). by right.
    + intros m' ids' k [[= -> ->]|Hin]%elem_of_cons Hk; [|by eauto].
      destruct (Hi1 k Hk) as (bo & o & ? & ? & ?). exists bo, o.
      split; [done|]. split; [|done]. rewrite Hf2; [done|].
      intros m' ids' Hin Hk'. by apply (Hdisj m' ids' k).
Qed.
End Entries.

(** ** The loader *)

Section LoaderTotal.
Context (sch : schema) (db : database) (self : queryset).

Lemma set_names_finalize (l : list obj) :
  set_names sch "polymorphic_extra_select_names" (extra_select self)
    (set_names sch "polymorphic_annotate_names" (aggregates self) l)
  = finalize sch self <$> l.
Proof.
  unfold set_names, finalize.
  destruct (decide (aggregates self = [])), (decide (extra_select self = []));
    rewrite <- ?list_fmap_compose; try done.
  by rewrite list_fmap_id.
Qed.

(** The loader succeeds on a page of well-formed objects: it returns, in
    the order of the page, what its dictionary [results] holds for the
    primary key of each object, and the dictionary holds for each key the
    reconstruction of the first object of the page with that key. *)
Lemma loader_spec (objs : list obj) :
  Forall (object_ok sch db self) objs →
  ∃ (st : loader) (res1 : gmap value obj),
    sorted_page sch self objs st
    ∧ _get_real_instances sch db self objs
      = Ok (finalize sch self <$> omap (λ k, res1 !! k) (pk_of sch <$> objs),
            page_queries self (idlist_per_model st))
    ∧ (∀ k bo, first_by_pk sch objs k = Some bo →
         ∃ o, res1 !! k = Some o ∧ reconstructed sch db self bo o).
Proof.
  intros Hok. destruct (sort_page sch db self objs Hok) as (st & Hst & Hinv).
  pose proof Hinv as [H1 H2 H3 H4 H5 H6].
  assert (Hobj : ∀ k bo, base_result_objects_by_id st !! k = Some bo →
            object_ok sch db self bo ∧ pk_of sch bo = k).
  { intros k bo Hb. rewrite H2 in Hb. apply first_by_pk_pk in Hb as [? Hin].
    split; [|done]. rewrite Forall_forall in Hok. by apply Hok. }
  destruct (load_models sch db self (base_result_objects_by_id st) (idlist_per_model st)
              (results st) [] H5) as (res1 & Hl & Hf & Hi).
  { intros m ids Hin. destruct (H6 m ids Hin) as (? & ? & Hc). split; [done|].
    intros k Hk. destruct (Hc k Hk) as (bo & Hb & Hcl). exists bo.
    destruct (Hobj k bo Hb). done. }
  { intros m ids k Hin Hk. destruct (H6 m ids Hin) as (_ & _ & Hc).
    destruct (Hc k Hk) as (bo & Hb & Hcl). specialize (H3 k bo Hb).
    unfold placed in H3. rewrite Hcl in H3. by destruct H3. }
  exists st, res1. split; [done|]. split.
  - unfold _get_real_instances. rewrite Hst. cbn [res_bind]. rewrite Hl. cbn [res_bind].
    by rewrite set_names_finalize, H1.
  - intros k bo Hb. rewrite <- H2 in Hb. specialize (H3 k bo Hb).
    unfold placed in H3. unfold reconstructed.
    destruct (classify sch self bo) as [[|m|m]|] eqn:Hc; [| | |done].
    + exists bo. split; [|done]. rewrite Hf; [done|].
      intros m ids Hin Hk. destruct (H6 m ids Hin) as (_ & _ & Hc').
      destruct (Hc' k Hk) as (bo' & Hb' & Hcl). congruence.
    + eexists. split; [|done]. rewrite Hf; [done|].
      intros m' ids Hin Hk. destruct (H6 m' ids Hin) as (_ & _ & Hc').
      destruct (Hc' k Hk) as (bo' & Hb' & Hcl). congruence.
    + destruct H3 as [_ (ids & Hin & Hk)].
      destruct (Hi m ids k Hin Hk) as (bo' & o & Hb' & Hr & Hd).
      assert (bo' = bo) as -> by congruence. by eauto.
Qed.

(** The objects of the result stand at the places of their base objects. *)
Lemma omap_results (objs : list obj) (res1 : gmap value obj) :
  (∀ bo, bo ∈ objs → is_Some (res1 !! pk_of sch bo)) →
  Forall2 (λ bo o, res1 !! pk_of sch bo = Some o) objs
          (omap (λ k, res1 !! k) (pk_of sch <$> objs)).
Proof.
  induction objs as [|bo objs IH]; intros H; simpl; [constructor|].
  destruct (H bo) as [o Ho]; [by left|]. rewrite Ho. constructor; [done|].
  apply IH. intros bo' Hin. apply H. by right.
Qed.
End LoaderTotal.

(** ** The result of the loader, place by place *)

Lemma NoDup_fst_eq {A B} (l : list (A * B)) (x : A) (y1 y2 : B) :
  NoDup (l.*1) → (x, y1) ∈ l → (x, y2) ∈ l → y1 = y2.
Proof.
  induction l as [|[a b] l IH]; simpl; [by intros _ ?%elem_of_nil|].
  intros [Hn Hnd]%NoDup_cons H1 H2.
  apply elem_of_cons in H1 as [H1|H1]; apply elem_of_cons in H2 as [H2|H2].
  - congruence.
  - injection H1 as <- <-. exfalso. apply Hn. apply list_elem_of_fmap. by exists (x, y2).
  - injection H2 as <- <-. exfalso. apply Hn. apply list_elem_of_fmap. by exists (x, y1).
  - by apply IH.
Qed.

Section LoaderPlaces.
Context (sch : schema) (db : database) (self : queryset).

Lemma loader_places (objs : list obj) :
  Forall (object_ok sch db self) objs →
  ∃ (st : loader) (res1 : gmap value obj) (outs : list obj),
    sorted_page sch self objs st
    ∧ _get_real_instances sch db self objs
      = Ok (finalize sch self <$> outs, page_queries self (idlist_per_model st))
    ∧ Forall2 (λ bo o, res1 !! pk_of sch bo = Some o) objs outs
    ∧ (∀ k bo, first_by_pk sch objs k = Some bo →
         ∃ o, res1 !! k = Some o ∧ reconstructed sch db self bo o).
Proof.
  intros Hok. destruct (loader_spec sch db self objs Hok) as (st & res1 & Hinv & Hres & Hrec).
  exists st, res1, (omap (λ k, res1 !! k) (pk_of sch <$> objs)).
  split; [done|]. split; [done|]. split; [|done].
  apply omap_results. intros bo Hin.
  destruct (first_by_pk_elem sch objs bo Hin) as [bo0 Hbo0].
  destruct (Hrec _ _ Hbo0) as (o & Ho & _). by eexists.
Qed.

(** C2.  On a page of well-formed base objects the loader returns one
    object per base object, at the same position: the object at position
    [i] is the reconstruction of the object of the page that has the primary
    key of the base object at position [i] (the first such object, when
    several have that key), with the names of the annotations attached. *)
Theorem real_instances_keep_the_order (objs : list obj) :
  Forall (object_ok sch db self) objs →
  ∃ out log,
    _get_real_instances sch db self objs = Ok (out, log)
    ∧ length out = length objs
    ∧ ∀ i bo, objs !! i = Some bo →
        ∃ bo0 o, first_by_pk sch objs (pk_of sch bo) = Some bo0
                 ∧ reconstructed sch db self bo0 o
                 ∧ out !! i = Some (finalize sch self o).
Proof.
  intros Hok.
  destruct (loader_places objs Hok) as (st & res1 & outs & _ & Hres & Hpos & Hrec).
  eexists _, _. split; [exact Hres|]. split.
  - rewrite length_fmap. symmetry. by eapply Forall2_length.
  - intros i bo Hi.
    destruct (Forall2_lookup_l _ _ _ _ _ Hpos Hi) as (o & Ho & Hr).
    destruct (first_by_pk_elem sch objs bo) as [bo0 Hbo0]; [by eapply list_elem_of_lookup_2|].
    destruct (Hrec _ _ Hbo0) as (o' & Ho' & Hrc).
    assert (o' = o) as -> by congruence.
    exists bo0, o. split; [done|]. split; [done|].
    by rewrite list_lookup_fmap, Ho.
Qed.

(** C10.  When several base objects of the page have the same primary key,
    the result has one and the same object at each of their positions,
    reconstructed from the first of them; the result is as long as the
    page. *)
Theorem duplicates_share_the_first_reconstruction (objs : list obj) :
  Forall (object_ok sch db self) objs →
  ∃ out log,
    _get_real_instances sch db self objs = Ok (out, log)
    ∧ length out = length objs
    ∧ ∀ i j bo_i bo_j,
        objs !! i = Some bo_i → objs !! j = Some bo_j →
        pk_of sch bo_i = pk_of sch bo_j →
        out !! i = out !! j
        ∧ ∃ bo0 o, first_by_pk sch objs (pk_of sch bo_i) = Some bo0
                   ∧ reconstructed sch db self bo0 o
                   ∧ out !! i = Some (finalize sch self o).
Proof.
  intros Hok.
  destruct (loader_places objs Hok) as (st & res1 & outs & _ & Hres & Hpos & Hrec).
  eexists _, _. split; [exact Hres|]. split.
  - rewrite length_fmap. symmetry. by eapply Forall2_length.
  - intros i j bo_i bo_j Hi Hj Hpk.
    destruct (Forall2_lookup_l _ _ _ _ _ Hpos Hi) as (oi & Hoi & Hri).
    destruct (Forall2_lookup_l _ _ _ _ _ Hpos Hj) as (oj & Hoj & Hrj).
    rewrite Hpk in Hri. assert (oi = oj) as -> by congruence.
    split; [by rewrite !list_lookup_fmap, Hoi, Hoj|].
    destruct (first_by_pk_elem sch objs bo_i) as [bo0 Hbo0]; [by eapply list_elem_of_lookup_2|].
    destruct (Hrec _ _ Hbo0) as (o' & Ho' & Hrc).
    rewrite Hpk in Ho'. assert (o' = oj) as -> by congruence.
    exists bo0, oj. split; [done|]. split; [done|].
    by rewrite list_lookup_fmap, Hoi.
Qed.

(** C4, as the code has it.  Outside deferred mode the loader sends one
    query per derived class that occurs on the page, by the list of the
    primary keys of the objects of that class on the page (each key once);
    objects of the base class or of a proxy of it cause no query.  In
    deferred mode the loader sends no query at all. *)
Theorem one_query_per_derived_class (objs : list obj) :
  Forall (object_ok sch db self) objs →
  ∃ out log (items : list (string * list value)),
    _get_real_instances sch db self objs = Ok (out, log)
    ∧ log = (if deferred self then [] else (λ it, QFilterPkIn it.1 it.2) <$> items)
    ∧ NoDup (items.*1)
    ∧ (∀ m ids, (m, ids) ∈ items →
         ids ≠ [] ∧ NoDup ids
         ∧ ∀ k, k ∈ ids ↔ ∃ bo, first_by_pk sch objs k = Some bo
                               ∧ classify sch self bo = Ok (Derived m))
    ∧ (∀ k bo m, first_by_pk sch objs k = Some bo → classify sch self bo = Ok (Derived m) →
         m ∈ items.*1).
Proof.
  intros Hok.
  destruct (loader_places objs Hok) as (st & res1 & outs & Hinv & Hres & _ & _).
  destruct Hinv as [H1 H2 H3 H4 H5 H6].
  exists (finalize sch self <$> outs), (page_queries self (idlist_per_model st)),
         (idlist_per_model st).
  split; [done|]. split; [done|]. split; [done|]. split.
  - intros m ids Hin. destruct (H6 m ids Hin) as (Ha & Hb & Hc).
    split; [done|]. split; [done|]. intros k. split.
    + intros Hk. destruct (Hc k Hk) as (bo & Hbo & Hcl). exists bo. by rewrite <- H2.
    + intros (bo & Hbo & Hcl). rewrite <- H2 in Hbo. specialize (H3 k bo Hbo).
      unfold placed in H3. rewrite Hcl in H3. destruct H3 as [_ (ids' & Hin' & Hk)].
      by rewrite (NoDup_fst_eq _ _ _ _ H5 Hin Hin').
  - intros k bo m Hbo Hcl. rewrite <- H2 in Hbo. specialize (H3 k bo Hbo).
    unfold placed in H3. rewrite Hcl in H3. destruct H3 as [_ (ids & Hin & _)].
    apply list_elem_of_fmap. by exists (m, ids).
Qed.
End LoaderPlaces.

(** ** The classes of the objects *)

Section Classes.
Context (sch : schema) (db : database) (self : queryset).

Lemma setattr_class (o : obj) (name : string) (v : value) :
  o_class (setattr sch o name v) = o_class o.
Proof.
  unfold setattr, BulkDeferredAttribute_set.
  destruct (is_bulk_deferred (o_class o) name); [|done].
  destruct (list_find _ _) as [[? f]|]; [|done].
  by destruct (f_set f).
Qed.

Lemma annotate_class (names : list string) (bo o : obj) :
  o_class (annotate sch names bo o) = o_class o.
Proof.
  unfold annotate. revert o. induction names as [|n names IH]; intros o; simpl; [done|].
  by rewrite IH, setattr_class.
Qed.

Lemma annotated_class (bo o : obj) : o_class (annotated sch self bo o) = o_class o.
Proof. unfold annotated. by rewrite !annotate_class. Qed.

Lemma finalize_class (o : obj) : o_class (finalize sch self o) = o_class o.
Proof.
  unfold finalize.
  destruct (decide (aggregates self = [])), (decide (extra_select self = []));
    by rewrite ?setattr_class.
Qed.

Lemma init_fields_class (k : klass) (kwargs : gmap string value) :
  o_class (init_fields sch k kwargs) = k.
Proof.
  unfold init_fields.
  generalize (meta_fields sch (klass_model k)). intros fields.
  assert (H : ∀ o, o_class (foldl (λ o f,
             match kwargs !! f_attname f with
             | Some v => setattr sch o (f_attname f) v
             | None => if is_deferred_attr k (f_attname f) then o
                       else setattr sch o (f_attname f) (f_default f)
             end) o fields) = o_class o).
  { induction fields as [|f fields IH]; intros o; simpl; [done|].
    rewrite IH. destruct (kwargs !! f_attname f); [apply setattr_class|].
    destruct (is_deferred_attr k (f_attname f)); [done|apply setattr_class]. }
  by rewrite H.
Qed.

Lemma new_instance_class (k : klass) : o_class (new_instance sch k) = k.
Proof. apply init_fields_class. Qed.

Lemma rebuilt_class (k : klass) (bo : obj) : o_class (rebuilt sch self k bo) = k.
Proof.
  unfold rebuilt, set_pk, copy_dict. rewrite annotated_class, setattr_class. simpl.
  apply new_instance_class.
Qed.

Lemma deferred_instance_model (m : string) (bo : obj) :
  klass_model (o_class (deferred_instance sch self m bo)) = m.
Proof.
  unfold deferred_instance.
  destruct (_deferred (o_class bo)); simpl; [|by rewrite rebuilt_class].
  case_bool_decide; [done|]. by rewrite rebuilt_class.
Qed.

Lemma derived_instance_model (m : string) (bo o : obj) :
  derived_instance sch db self m bo o → klass_model (o_class o) = m.
Proof.
  unfold derived_instance. destruct (deferred self).
  - intros ->. apply deferred_instance_model.
  - intros [(row & _ & _ & ->)|[_ ->]].
    + by rewrite annotated_class.
    + by rewrite rebuilt_class.
Qed.

Lemma classify_real_class (bo : obj) (m : string) :
  classify sch self bo = Ok (Proxy m) ∨ classify sch self bo = Ok (Derived m) →
  get_real_instance_class sch bo = Ok m.
Proof.
  unfold classify. destruct (getattr bo "polymorphic_ctype_id") as [ct|]; simpl; [|by intros []].
  destruct (decide (ct = VInt _)); [by intros []|].
  destruct (get_real_instance_class sch bo) as [m'|]; simpl; [|by intros []].
  destruct (decide (get_for_model sch m' = _)); intros [[=]|[=]]; by subst.
Qed.

End Classes.

(** ** The sample page *)

Lemma sample_page_ok : Forall (object_ok Sample.sch (Sample.db []) Sample.qs) Sample.page.
Proof. apply (bool_decide_unpack _). vm_compute. exact I. Qed.

Lemma sample_page_ok_deferred :
  Forall (object_ok Sample.sch (Sample.db []) Sample.qs_deferred) Sample.page.
Proof. apply (bool_decide_unpack _). vm_compute. exact I. Qed.

Lemma real_instances_keep_the_order_witness :
  Forall (object_ok Sample.sch (Sample.db []) Sample.qs) Sample.page
  ∧ ∃ out log,
      _get_real_instances Sample.sch (Sample.db []) Sample.qs Sample.page = Ok (out, log)
      ∧ length out = length Sample.page
      ∧ ∀ i bo, Sample.page !! i = Some bo →
          ∃ bo0 o, first_by_pk Sample.sch Sample.page (pk_of Sample.sch bo) = Some bo0
                   ∧ reconstructed Sample.sch (Sample.db []) Sample.qs bo0 o
                   ∧ out !! i = Some (finalize Sample.sch Sample.qs o).
Proof.
  split; [apply sample_page_ok|].
  apply (real_instances_keep_the_order Sample.sch (Sample.db []) Sample.qs Sample.page).
  apply (bool_decide_unpack _). vm_compute. exact I.
Defined.

Lemma duplicates_share_the_first_reconstruction_witness :
  Forall (object_ok Sample.sch (Sample.db []) Sample.qs) Sample.page
  ∧ ∃ out log,
      _get_real_instances Sample.sch (Sample.db []) Sample.qs Sample.page = Ok (out, log)
      ∧ length out = length Sample.page
      ∧ ∀ i j bo_i bo_j,
          Sample.page !! i = Some bo_i → Sample.page !! j = Some bo_j →
          pk_of Sample.sch bo_i = pk_of Sample.sch bo_j →
          out !! i = out !! j
          ∧ ∃ bo0 o, first_by_pk Sample.sch Sample.page (pk_of Sample.sch bo_i) = Some bo0
                     ∧ reconstructed Sample.sch (Sample.db []) Sample.qs bo0 o
                     ∧ out !! i = Some (finalize Sample.sch Sample.qs o).
Proof.
  split; [apply sample_page_ok|].
  apply (duplicates_share_the_first_reconstruction
           Sample.sch (Sample.db []) Sample.qs Sample.page).
  apply (bool_decide_unpack _). vm_compute. exact I.
Defined.

(** On the sample page the second and the fifth object have the same key:
    the result has one object for both, made from the second. *)
Example sample_page_result :
  ∃ a b p l log,
    _get_real_instances Sample.sch (Sample.db []) Sample.qs Sample.page
    = Ok ([a; b; p; l; b], log)
    ∧ o_dict b !! "field1" = Some (VStr "b")
    ∧ o_dict b !! "field2" = Some (VStr "bb").
Proof. vm_compute. eexists _, _, _, _, _. split; [reflexivity|]. split; reflexivity. Qed.

(** ** The sample page: a missing row, and deferred mode *)

(** On the sample page the fourth object was saved as [B] and has no row in
    the table of [B]: the loader returns an instance of [B] with the default
    of [field2], and raises nothing. *)
Lemma missing_row_raises_nothing :
  classify Sample.sch Sample.qs (Sample.bo 4 2 "lost") = Ok (Derived "B")
  ∧ ¬ has_row Sample.sch (Sample.db []) "B" (VInt 4)
  ∧ ∃ o, _get_real_instances Sample.sch (Sample.db []) Sample.qs [Sample.bo 4 2 "lost"]
         = Ok ([o], [QFilterPkIn "B" [VInt 4]])
         ∧ o_class o = Plain "B"
         ∧ o_dict o !! "field2" = Some (VStr "dflt").
Proof.
  split; [reflexivity|]. split.
  - intros (row & Hin & Hk). vm_compute in Hin.
    apply list_elem_of_singleton in Hin. subst row. vm_compute in Hk. discriminate.
  - vm_compute. eexists. split; [reflexivity|]. split; reflexivity.
Qed.

(** In deferred mode a page with an object of the derived class [B] is
    loaded without any query. *)
Lemma deferred_page_sends_no_query :
  classify Sample.sch Sample.qs_deferred (Sample.bo 2 2 "b") = Ok (Derived "B")
  ∧ ∃ out, _get_real_instances Sample.sch (Sample.db []) Sample.qs_deferred
             [Sample.bo 2 2 "b"] = Ok (out, []).
Proof. split; [reflexivity|]. vm_compute. by eexists. Qed.

Lemma one_query_per_derived_class_witness :
  Forall (object_ok Sample.sch (Sample.db []) Sample.qs) Sample.page
  ∧ ∃ out, _get_real_instances Sample.sch (Sample.db []) Sample.qs Sample.page
           = Ok (out, [QFilterPkIn "B" [VInt 2; VInt 4]]).
Proof.
  split; [apply sample_page_ok|].
  destruct (one_query_per_derived_class Sample.sch (Sample.db []) Sample.qs Sample.page)
    as (out & log & items & Hres & _).
  { apply (bool_decide_unpack _). vm_compute. exact I. }
  exists out. rewrite Hres. f_equal. f_equal.
  vm_compute in Hres. by injection Hres as _ <-.
Defined.

(** ** The annotations and the extra-select values *)

Section Annotations.
Context (sch : schema) (db : database) (self : queryset).

Lemma setattr_stored (o : obj) (name : string) (v : value) :
  stored_directly sch name →
  setattr sch o name v = set_dict o (<[name := v]> (o_dict o)).
Proof.
  intros Hs. unfold setattr. destruct (is_bulk_deferred (o_class o) name); [|done].
  unfold BulkDeferredAttribute_set.
  destruct (list_find _ _) as [[i f]|] eqn:E; [|done].
  apply list_find_Some in E as (Hi & Hf & _).
  rewrite (Hs (klass_model (o_class o)) f); [done| |done].
  by eapply list_elem_of_lookup_2.
Qed.

Lemma annotate_lookup (names : list string) (bo o : obj) (n : string) :
  Forall (stored_directly sch) names →
  o_dict (annotate sch names bo o) !! n
  = if decide (n ∈ names) then Some (attr_of bo n) else o_dict o !! n.
Proof.
  unfold annotate. revert o. induction names as [|x names IH]; intros o Hs; simpl.
  - destruct (decide (n ∈ [])) as [H|]; [by apply elem_of_nil in H|done].
  - apply Forall_cons in Hs as [Hx Hs]. rewrite (IH _ Hs). rewrite (setattr_stored _ _ _ Hx).
    simpl. destruct (decide (n ∈ names)) as [Hin|Hnin].
    + rewrite decide_True; [done|]. by right.
    + destruct (decide (n = x)) as [->|Hne].
      * rewrite decide_True by (by left). by rewrite lookup_insert_eq.
      * rewrite decide_False by (intros [?|?]%elem_of_cons; done).
        by rewrite lookup_insert_ne.
Qed.

Lemma annotated_carries (bo o : obj) (n : string) :
  Forall (stored_directly sch) (loader_names self) →
  n ∈ aggregates self ++ extra_select self →
  o_dict (annotated sch self bo o) !! n = Some (attr_of bo n).
Proof.
  unfold loader_names. intros [Ha [He _]%Forall_app]%Forall_app Hn.
  unfold annotated. rewrite (annotate_lookup _ _ _ _ He).
  destruct (decide (n ∈ extra_select self)) as [|Hne]; [done|].
  rewrite (annotate_lookup _ _ _ _ Ha).
  apply elem_of_app in Hn as [Hn|Hn]; [|done]. by rewrite decide_True.
Qed.

Lemma finalize_lookup (o : obj) (n : string) :
  Forall (stored_directly sch) (loader_names self) →
  n ∉ bookkeeping_names →
  o_dict (finalize sch self o) !! n = o_dict o !! n.
Proof.
  unfold loader_names. intros [_ [_ Hb]%Forall_app]%Forall_app Hn.
  unfold bookkeeping_names in *.
  apply Forall_cons in Hb as [H1 Hb]. apply Forall_cons in Hb as [H2 _].
  assert (n ≠ "polymorphic_annotate_names") by (intros ->; apply Hn; by left).
  assert (n ≠ "polymorphic_extra_select_names") by (intros ->; apply Hn; right; by left).
  unfold finalize.
  destruct (decide (aggregates self = [])), (decide (extra_select self = []));
    rewrite ?(setattr_stored _ _ _ H1), ?(setattr_stored _ _ _ H2); simpl;
    rewrite ?lookup_insert_ne by done; done.
Qed.

(** What is reconstructed from a base object carries its annotations and
    extra-select values, on each path. *)
Lemma reconstructed_carries (bo o : obj) (n : string) (v : value) :
  Forall (stored_directly sch) (loader_names self) →
  n ∈ aggregates self ++ extra_select self →
  o_dict bo !! n = Some v →
  reconstructed sch db self bo o →
  o_dict o !! n = Some v.
Proof.
  intros Hs Hn Hv. assert (Ha : attr_of bo n = v) by (unfold attr_of; by rewrite Hv).
  unfold reconstructed. destruct (classify sch self bo) as [[|m|m]|]; [| | |done].
  - by intros ->.
  - intros ->. simpl. by apply lookup_union_Some_l.
  - unfold derived_instance, deferred_instance, rebuilt. destruct (deferred self).
    + intros ->. destruct (_ && _); [done|]. by rewrite annotated_carries, Ha.
    + intros [(row & _ & _ & ->)|[_ ->]]; by rewrite annotated_carries, Ha.
Qed.

(** C8.  On a page of well-formed base objects, every object that the
    loader returns carries each annotation and each extra-select value of
    the query with the value that the base object has for it, whichever way
    the object was made: returned as it is, rebuilt as a proxy, re-fetched,
    built as a deferred-class object, or re-created for a missing row.  (The
    base object is the object of the page with that primary key; the names
    are not those of fields that are descriptors themselves, nor the two
    attributes in which the loader records the names.) *)
Theorem real_instances_carry_the_annotations (objs : list obj) :
  Forall (object_ok sch db self) objs →
  Forall (stored_directly sch) (loader_names self) →
  (∀ n, n ∈ aggregates self ++ extra_select self → n ∉ bookkeeping_names) →
  ∃ out log,
    _get_real_instances sch db self objs = Ok (out, log)
    ∧ ∀ i bo, objs !! i = Some bo →
        ∃ bo0 o, first_by_pk sch objs (pk_of sch bo) = Some bo0
          ∧ out !! i = Some o
          ∧ ∀ n, n ∈ aggregates self ++ extra_select self →
                 ∃ v, getattr bo0 n = Ok v ∧ getattr o n = Ok v.
Proof.
  intros Hok Hs Hnb.
  destruct (loader_places sch db self objs Hok) as (st & res1 & outs & _ & Hres & Hpos & Hrec).
  eexists _, _. split; [exact Hres|].
  intros i bo Hi.
  destruct (Forall2_lookup_l _ _ _ _ _ Hpos Hi) as (o & Ho & Hr).
  destruct (first_by_pk_elem sch objs bo) as [bo0 Hbo0]; [by eapply list_elem_of_lookup_2|].
  destruct (Hrec _ _ Hbo0) as (o' & Ho' & Hrc).
  assert (o' = o) as -> by congruence.
  exists bo0, (finalize sch self o). split; [done|]. split.
  { by rewrite list_lookup_fmap, Ho. }
  intros n Hn.
  assert (Hbo0ok : object_ok sch db self bo0).
  { rewrite Forall_forall in Hok. apply Hok. by apply (first_by_pk_pk sch objs _ _ Hbo0). }
  destruct Hbo0ok as (_ & Hnames & _). rewrite Forall_forall in Hnames.
  destruct (Hnames n Hn) as [v Hv]. exists v. unfold getattr. rewrite Hv. split; [done|].
  rewrite (finalize_lookup _ _ Hs (Hnb n Hn)).
  by rewrite (reconstructed_carries bo0 o n v Hs Hn Hv Hrc).
Qed.
End Annotations.

Lemma sample_names_stored :
  Forall (stored_directly Sample.sch) (loader_names Sample.qs_annotated).
Proof.
  apply Forall_forall. intros n _ m f Hf _.
  unfold Sample.sch in Hf. simpl in Hf.
  destruct (decide (m = "B")); unfold Sample.fieldsB, Sample.fieldsA in Hf;
    repeat (apply elem_of_cons in Hf as [->|Hf] || apply elem_of_app in Hf as [Hf|Hf]);
    try done; by apply elem_of_nil in Hf.
Qed.

Lemma real_instances_carry_the_annotations_witness :
  Forall (object_ok Sample.sch (Sample.db []) Sample.qs_annotated) Sample.page_annotated
  ∧ ∃ out log,
      _get_real_instances Sample.sch (Sample.db []) Sample.qs_annotated Sample.page_annotated
      = Ok (out, log)
      ∧ (λ o, o_dict o !! "cnt") <$> out
        = [Some (VInt 10); Some (VInt 20); Some (VInt 30); Some (VInt 40)]
      ∧ (λ o, o_dict o !! "x") <$> out
        = [Some (VInt 11); Some (VInt 21); Some (VInt 31); Some (VInt 41)].
Proof.
  assert (Hok : Forall (object_ok Sample.sch (Sample.db []) Sample.qs_annotated)
                       Sample.page_annotated).
  { apply (bool_decide_unpack _). vm_compute. exact I. }
  split; [exact Hok|].
  destruct (real_instances_carry_the_annotations
              Sample.sch (Sample.db []) Sample.qs_annotated Sample.page_annotated)
    as (out & log & Hres & _).
  - exact Hok.
  - apply sample_names_stored.
  - intros n Hn Hb. vm_compute in Hn.
    repeat (apply elem_of_cons in Hn as [->|Hn]); try (by apply elem_of_nil in Hn);
      vm_compute in Hb;
      repeat (apply elem_of_cons in Hb as [Hb|Hb]); try discriminate;
      by apply elem_of_nil in Hb.
  - exists out, log. split; [done|].
    vm_compute in Hres. injection Hres as <- _. split; reflexivity.
Defined.

(** ** The deferred fields *)

Lemma foldl_preserve {A B} (P : A → Prop) (step : A → B → A) (l : list B) (a : A) :
  P a → (∀ a b, P a → P (step a b)) → P (foldl step a l).
Proof. revert a. induction l as [|b l IH]; intros a Ha H; simpl; auto. Qed.

Lemma foldl_reach {A B} (I Q : A → Prop) (step : A → B → A) (b : B) (l : list B) (a : A) :
  I a → (∀ a c, I a → I (step a c)) →
  (∀ a, I a → Q (step a b)) →
  (∀ a c, I a → Q a → Q (step a c)) →
  b ∈ l → Q (foldl step a l).
Proof.
  intros Ha HI Hb HQ. revert a Ha. induction l as [|c l IH]; intros a Ha Hin; simpl.
  - by apply elem_of_nil in Hin.
  - apply elem_of_cons in Hin as [<-|Hin]; [|by apply IH; auto].
    apply (foldl_preserve (λ a, I a ∧ Q a)); [by auto|].
    intros a' c' [? ?]. by auto.
Qed.

Section DeferredFields.
Context (sch : schema) (db : database).

Lemma setattr_not_bulk (o : obj) (name : string) (v : value) :
  is_bulk_deferred (o_class o) name = false →
  setattr sch o name v = set_dict o (<[name := v]> (o_dict o)).
Proof. intros H. unfold setattr. by rewrite H. Qed.

(** A new instance of a deferred class does not hold the deferred fields. *)
Lemma new_instance_deferred_absent (m : string) (attrs bulk : gset string) (a : string) :
  a ∈ attrs ∪ bulk →
  o_dict (new_instance sch (DeferredClass m attrs bulk)) !! a = None.
Proof.
  intros Ha. unfold new_instance, init_fields.
  apply (foldl_preserve (λ o, o_class o = DeferredClass m attrs bulk ∧ o_dict o !! a = None));
    [done|].
  intros o f [Hc Hn]. rewrite lookup_empty.
  destruct (is_deferred_attr (DeferredClass m attrs bulk) (f_attname f)) eqn:E; [done|].
  simpl in E. apply bool_decide_eq_false in E.
  assert (Hnb : is_bulk_deferred (o_class o) (f_attname f) = false).
  { rewrite Hc. simpl. apply bool_decide_eq_false.
    intros [? _]%elem_of_difference. apply E, elem_of_union. by right. }
  rewrite (setattr_not_bulk _ _ _ Hnb). simpl. split; [done|].
  rewrite lookup_insert_ne; [done|]. intros Heq. apply E. by rewrite Heq.
Qed.

(** A new instance of a model holds all the fields of the model. *)
Lemma new_instance_plain_has (cls : string) (f : field) :
  f ∈ meta_fields sch cls →
  is_Some (o_dict (new_instance sch (Plain cls)) !! f_attname f).
Proof.
  intros Hf. unfold new_instance, init_fields.
  apply (foldl_reach (λ o, o_class o = Plain cls)
                     (λ o, is_Some (o_dict o !! f_attname f)) _ f); [done| | | |done].
  - intros o g Hc. rewrite lookup_empty. simpl. by rewrite setattr_class.
  - intros o Hc. rewrite lookup_empty. simpl.
    rewrite setattr_not_bulk by (by rewrite Hc). simpl. rewrite lookup_insert_eq. by eexists.
  - intros o g Hc Hs. rewrite lookup_empty. simpl.
    rewrite setattr_not_bulk by (by rewrite Hc). simpl.
    destruct (decide (f_attname g = f_attname f)) as [->|Hne].
    + rewrite lookup_insert_eq. by eexists.
    + by rewrite lookup_insert_ne.
Qed.

(** The loop that caches the values of the fetched object. *)
Lemma cache_loop (o : obj) (fields : list field) (data : gmap string value) :
  Forall (λ f, is_Some (o_dict o !! f_attname f)) fields →
  ∃ data',
    for_each (λ data f, let* val := getattr o (f_attname f) in
                        Ok (<[f_attname f := val]> data)) fields data = Ok data'
    ∧ ∀ n, data' !! n = if decide (n ∈ f_attname <$> fields) then o_dict o !! n
                        else data !! n.
Proof.
  revert data. induction fields as [|f fields IH]; intros data H; simpl.
  - exists data. split; [done|]. intros n.
    destruct (decide (n ∈ [])) as [Hin|]; [by apply elem_of_nil in Hin|done].
  - apply Forall_cons in H as [[v Hv] H]. unfold getattr at 1. rewrite Hv. simpl.
    destruct (IH (<[f_attname f := v]> data) H) as (data' & -> & Hd).
    exists data'. split; [done|]. intros n. rewrite Hd.
    destruct (decide (n ∈ f_attname <$> fields)) as [Hin|Hnin].
    + rewrite decide_True; [done|]. by right.
    + destruct (decide (n = f_attname f)) as [->|Hne].
      * rewrite decide_True by (by left). by rewrite lookup_insert_eq.
      * rewrite decide_False by (intros [?|?]%elem_of_cons; done).
        by rewrite lookup_insert_ne.
Qed.

(** A cached value is returned without a query, and the instance stays
    as it is. *)
Lemma BulkDeferredAttribute_get_cached (field_name cls : string) (instance : obj)
    (log : list query) (v : value) :
  o_dict instance !! field_name = Some v →
  BulkDeferredAttribute_get sch db field_name cls instance log = Ok (v, instance, log).
Proof.
  intros H. unfold BulkDeferredAttribute_get. rewrite H. simpl. rewrite H.
  by destruct instance.
Qed.

(** The first access: one query, and the values of all the bulk-deferred
    fields of the instance are cached. *)
Lemma BulkDeferredAttribute_get_first (field_name cls : string) (instance : obj)
    (log : list query) (pk : value) (o : obj) :
  o_dict instance !! field_name = None →
  field_name ∈ f_attname <$> bulk_fields sch cls (o_class instance) →
  o_dict instance !! meta_pk_attname sch (klass_model (o_class instance)) = Some pk →
  source_of_values sch db cls instance pk = Ok o →
  Forall (λ f, is_Some (o_dict o !! f_attname f)) (bulk_fields sch cls (o_class instance)) →
  ∃ v instance',
    BulkDeferredAttribute_get sch db field_name cls instance log
    = Ok (v, instance',
          log ++ [QGetOnly cls pk (f_name <$> bulk_fields sch cls (o_class instance))])
    ∧ o_class instance' = o_class instance
    ∧ o_dict instance' !! field_name = Some v
    ∧ (∀ n, o_dict instance' !! n
            = if decide (n ∈ f_attname <$> bulk_fields sch cls (o_class instance))
              then o_dict o !! n else o_dict instance !! n).
Proof.
  intros Hnone Hin Hpk Hsrc Hall. unfold BulkDeferredAttribute_get.
  rewrite Hnone. rewrite decide_True by done.
  assert (Hgp : get_pk sch instance = Ok pk) by (unfold get_pk, getattr; by rewrite Hpk).
  rewrite Hgp. cbn [res_bind].
  unfold source_of_values in Hsrc. rewrite Hsrc. cbn [res_bind].
  destruct (cache_loop o _ (o_dict instance) Hall) as (data' & -> & Hd). cbn [res_bind].
  assert (Hv : is_Some (data' !! field_name)).
  { rewrite Hd. rewrite decide_True by done.
    apply list_elem_of_fmap in Hin as (f & -> & Hf).
    rewrite Forall_forall in Hall. by apply Hall. }
  destruct Hv as [v Hv]. rewrite Hv. exists v, (set_dict instance data').
  split; [done|]. split; [done|]. split; [done|]. exact Hd.
Qed.

(** The re-created object has all the fields. *)
Lemma recreated_has_fields (cls : string) (instance : obj) (pk : value) (f : field) :
  f ∈ meta_fields sch cls →
  is_Some (o_dict (set_pk sch (copy_dict instance (new_instance sch (Plain cls))) pk)
           !! f_attname f).
Proof.
  intros Hf. unfold set_pk, copy_dict. simpl.
  rewrite setattr_not_bulk by (simpl; by rewrite new_instance_class).
  simpl. destruct (decide (meta_pk_attname sch (klass_model (o_class (new_instance sch (Plain cls))))
                           = f_attname f)) as [->|Hne].
  - rewrite lookup_insert_eq. by eexists.
  - rewrite lookup_insert_ne by done.
    destruct (new_instance_plain_has cls f Hf) as [v Hv].
    destruct (o_dict instance !! f_attname f) as [w|] eqn:E.
    + exists w. by apply lookup_union_Some_l.
    + exists v. rewrite lookup_union_r; done.
Qed.

(** Assignment stores the value in the instance dictionary. *)
Lemma BulkDeferredAttribute_set_stores (field_name cls : string) (instance : obj) (v : value) :
  ∃ v', o_dict (BulkDeferredAttribute_set sch field_name cls instance v) !! field_name = Some v'
        ∧ o_class (BulkDeferredAttribute_set sch field_name cls instance v) = o_class instance
        ∧ ((∀ f, f ∈ meta_fields sch cls → f_attname f = field_name → f_set f = None) →
           v' = v
           ∧ o_dict (BulkDeferredAttribute_set sch field_name cls instance v)
             = <[field_name := v]> (o_dict instance)).
Proof.
  unfold BulkDeferredAttribute_set.
  destruct (list_find _ _) as [[i f]|] eqn:E.
  - apply list_find_Some in E as (Hi & Hf & _).
    destruct (f_set f) as [set|] eqn:Es.
    + eexists. simpl. rewrite lookup_insert_eq. split; [done|]. split; [done|].
      intros H. rewrite (H f) in Es; [done| |done]. by eapply list_elem_of_lookup_2.
    + exists v. simpl. rewrite lookup_insert_eq. done.
  - exists v. simpl. rewrite lookup_insert_eq. done.
Qed.
End DeferredFields.

(** ** Loading in deferred mode *)

Section DeferredLoad.
Context (sch : schema) (db : database) (self : queryset).

Lemma deferred_instance_unfetched (m : string) (bo : obj) (a : string) :
  Forall (stored_directly sch) (loader_names self) →
  a ∈ subclass_only sch self m → a ∉ loader_names self →
  o_dict bo !! a = None →
  o_dict (deferred_instance sch self m bo) !! a = None
  ∧ _deferred (o_class (deferred_instance sch self m bo)) = true.
Proof.
  intros Hs Ha Hnames Hbo. unfold deferred_instance.
  destruct (_deferred (o_class bo) && bool_decide (klass_model (o_class bo) = m)) eqn:E.
  { split; [done|]. by apply andb_true_iff in E as [? _]. }
  rewrite rebuilt_class. split; [|done].
  unfold loader_names in *. pose proof Hs as [Hsa [Hse _]%Forall_app]%Forall_app.
  unfold rebuilt, annotated. rewrite (annotate_lookup sch _ _ _ _ Hse).
  rewrite decide_False by (intros ?; apply Hnames; rewrite !elem_of_app; auto).
  rewrite (annotate_lookup sch _ _ _ _ Hsa).
  rewrite decide_False by (intros ?; apply Hnames; rewrite !elem_of_app; auto).
  unfold set_pk, copy_dict. cbn [o_class set_dict]. rewrite new_instance_class.
  cbn [klass_model deferred_class_factory].
  assert (Hpk : meta_pk_attname sch m ∉ subclass_only sch self m).
  { unfold subclass_only. intros [_ Hn]%elem_of_difference. apply Hn.
    by apply elem_of_singleton. }
  rewrite setattr_not_bulk.
  2:{ cbn [o_class set_dict]. rewrite new_instance_class. simpl.
      apply bool_decide_eq_false. intros [? _]%elem_of_difference. done. }
  cbn [o_dict set_dict]. rewrite lookup_insert_ne by (intros Heq; apply Hpk; by rewrite Heq).
  apply lookup_union_None. split; [done|].
  apply new_instance_deferred_absent. apply elem_of_union. by right.
Qed.

(** In deferred mode the loader sends no query, and the objects of derived
    classes that it returns are instances of deferred classes that do not
    hold the fields that only the derived class has. *)
Lemma deferred_load_fetches_nothing (objs : list obj) :
  Forall (object_ok sch db self) objs → deferred self = true →
  Forall (stored_directly sch) (loader_names self) →
  ∃ out,
    _get_real_instances sch db self objs = Ok (out, [])
    ∧ ∀ i bo bo0 m a,
        objs !! i = Some bo →
        first_by_pk sch objs (pk_of sch bo) = Some bo0 →
        classify sch self bo0 = Ok (Derived m) →
        a ∈ subclass_only sch self m → a ∉ loader_names self →
        o_dict bo0 !! a = None →
        ∃ o, out !! i = Some o
             ∧ klass_model (o_class o) = m
             ∧ _deferred (o_class o) = true
             ∧ o_dict o !! a = None.
Proof.
  intros Hok Hd Hs.
  destruct (loader_places sch db self objs Hok) as (st & res1 & outs & _ & Hres & Hpos & Hrec).
  unfold page_queries in Hres. rewrite Hd in Hres.
  eexists. split; [exact Hres|].
  intros i bo bo0 m a Hi Hbo0 Hc Ha Hnames Hnone.
  destruct (Forall2_lookup_l _ _ _ _ _ Hpos Hi) as (o & Ho & Hr).
  destruct (Hrec _ _ Hbo0) as (o' & Ho' & Hrc).
  assert (o' = o) as -> by congruence.
  exists (finalize sch self o). rewrite list_lookup_fmap, Ho. split; [done|].
  unfold reconstructed in Hrc. rewrite Hc in Hrc. unfold derived_instance in Hrc.
  rewrite Hd in Hrc. subst o.
  destruct (deferred_instance_unfetched m bo0 a Hs Ha Hnames Hnone) as [H1 H2].
  rewrite finalize_class. split; [apply deferred_instance_model|]. split; [done|].
  rewrite finalize_lookup; [done|done|].
  intros Hb. apply Hnames. unfold loader_names. rewrite !elem_of_app. auto.
Qed.
End DeferredLoad.

(** C6.  In deferred mode the fields that only a derived class has are not
    fetched when the instance is loaded: the loader sends no query and
    returns instances of deferred classes that do not hold them.  The first
    access to such a field that the instance does not hold sends one query
    for the bulk-deferred fields of the instance and caches the values of all
    of them in the instance; an access to a field that the instance holds
    returns the value held, sends no query and leaves the instance as it is,
    so every later access to one of these fields does.  An assignment stores
    the value in the instance without any query (the value itself, unless
    the field is a descriptor of its own), and the next access returns what
    was stored. *)
Theorem deferred_fields_load_on_first_access (sch : schema) (db : database) :
  (∀ self objs,
     Forall (object_ok sch db self) objs → deferred self = true →
     Forall (stored_directly sch) (loader_names self) →
     ∃ out,
       _get_real_instances sch db self objs = Ok (out, [])
       ∧ ∀ i bo bo0 m a,
           objs !! i = Some bo →
           first_by_pk sch objs (pk_of sch bo) = Some bo0 →
           classify sch self bo0 = Ok (Derived m) →
           a ∈ subclass_only sch self m → a ∉ loader_names self →
           o_dict bo0 !! a = None →
           ∃ o, out !! i = Some o
                ∧ klass_model (o_class o) = m
                ∧ _deferred (o_class o) = true
                ∧ o_dict o !! a = None)
  ∧ (∀ field_name cls instance log pk o,
       o_dict instance !! field_name = None →
       field_name ∈ f_attname <$> bulk_fields sch cls (o_class instance) →
       o_dict instance !! meta_pk_attname sch (klass_model (o_class instance)) = Some pk →
       source_of_values sch db cls instance pk = Ok o →
       Forall (λ f, is_Some (o_dict o !! f_attname f))
              (bulk_fields sch cls (o_class instance)) →
       ∃ v instance',
         BulkDeferredAttribute_get sch db field_name cls instance log
         = Ok (v, instance',
               log ++ [QGetOnly cls pk (f_name <$> bulk_fields sch cls (o_class instance))])
         ∧ o_dict instance' !! field_name = Some v
         ∧ ∀ f, f ∈ bulk_fields sch cls (o_class instance) →
             ∃ w, o_dict o !! f_attname f = Some w
                  ∧ o_dict instance' !! f_attname f = Some w
                  ∧ ∀ log', BulkDeferredAttribute_get sch db (f_attname f) cls instance' log'
                            = Ok (w, instance', log'))
  ∧ (∀ field_name cls instance log v,
       o_dict instance !! field_name = Some v →
       BulkDeferredAttribute_get sch db field_name cls instance log = Ok (v, instance, log))
  ∧ (∀ field_name cls instance v log,
       ∃ v',
         o_dict (BulkDeferredAttribute_set sch field_name cls instance v) !! field_name
         = Some v'
         ∧ BulkDeferredAttribute_get sch db field_name cls
             (BulkDeferredAttribute_set sch field_name cls instance v) log
           = Ok (v', BulkDeferredAttribute_set sch field_name cls instance v, log)
         ∧ ((∀ f, f ∈ meta_fields sch cls → f_attname f = field_name → f_set f = None) →
            v' = v
            ∧ o_dict (BulkDeferredAttribute_set sch field_name cls instance v)
              = <[field_name := v]> (o_dict instance))).
Proof.
  split; [intros self objs; apply deferred_load_fetches_nothing|].
  split; [|split].
  - intros field_name cls instance log pk o Hnone Hin Hpk Hsrc Hall.
    destruct (BulkDeferredAttribute_get_first sch db field_name cls instance log pk o
                Hnone Hin Hpk Hsrc Hall) as (v & instance' & Hget & Hcls & Hv & Hd).
    exists v, instance'. split; [done|]. split; [done|].
    intros f Hf. rewrite Forall_forall in Hall. destruct (Hall f Hf) as [w Hw].
    assert (Hw' : o_dict instance' !! f_attname f = Some w).
    { rewrite Hd. rewrite decide_True; [done|]. by apply list_elem_of_fmap_2. }
    exists w. split; [done|]. split; [done|].
    intros log'. by apply BulkDeferredAttribute_get_cached.
  - intros. by apply BulkDeferredAttribute_get_cached.
  - intros field_name cls instance v log.
    destruct (BulkDeferredAttribute_set_stores sch field_name cls instance v)
      as (v' & Hv' & _ & Hplain).
    exists v'. split; [done|]. split; [|done].
    by apply BulkDeferredAttribute_get_cached.
Qed.

(** On the sample, in deferred mode: the object saved as [B] is loaded
    without a query and without [field2]; the first access to [field2]
    sends one query and gives the value of the row; the second sends none. *)
Lemma deferred_fields_load_on_first_access_witness :
  ∃ o o',
    _get_real_instances Sample.sch (Sample.db []) Sample.qs_deferred [Sample.bo 2 2 "b"]
    = Ok ([o], [])
    ∧ o_dict o !! "field2" = None
    ∧ BulkDeferredAttribute_get Sample.sch (Sample.db []) "field2" "B" o []
      = Ok (VStr "bb", o', [QGetOnly "B" (VInt 2) ["field2"]])
    ∧ BulkDeferredAttribute_get Sample.sch (Sample.db []) "field2" "B" o' []
      = Ok (VStr "bb", o', []).
Proof.
  destruct (deferred_fields_load_on_first_access Sample.sch (Sample.db []))
    as (Hload & Hfirst & Hlater & _).
  destruct (Hload Sample.qs_deferred [Sample.bo 2 2 "b"]) as (out & Hout & _).
  { apply (bool_decide_unpack _). vm_compute. exact I. }
  { reflexivity. }
  { apply Forall_forall. intros n _ m f Hf _.
    unfold Sample.sch in Hf. simpl in Hf.
    destruct (decide (m = "B")); unfold Sample.fieldsB, Sample.fieldsA in Hf;
      repeat (apply elem_of_cons in Hf as [->|Hf] || apply elem_of_app in Hf as [Hf|Hf]);
      try done; by apply elem_of_nil in Hf. }
  pose proof Hout as Hc. vm_compute in Hc. injection Hc as Hc. subst out.
  eexists _, _. split; [exact Hout|]. split; [reflexivity|].
  match goal with
  | |- BulkDeferredAttribute_get _ _ _ _ ?o _ = _ ∧ _ =>
      destruct (Hfirst "field2" "B" o [] (VInt 2)
                  {| o_class := Plain "B"; o_dict := Sample.rowB 2 "b" "bb" |})
        as (v & o' & Hget & Hv & Hall)
  end.
  { reflexivity. }
  { apply (bool_decide_unpack _). vm_compute. exact I. }
  { reflexivity. }
  { reflexivity. }
  { apply (bool_decide_unpack _). vm_compute. exact I. }
  pose proof Hget as Hg. vm_compute in Hg. injection Hg as <- <-.
  split; [exact Hget|]. apply Hlater. reflexivity.
Defined.


(** ** The objects of the base query *)

Section BaseObjects.
Context (sch : schema) (db : database) (self : queryset).

Lemma set_from_row_class (names : list string) (start : nat) (row : list value)
    (o o' : obj) :
  set_from_row sch names start row o = Ok o' → o_class o' = o_class o.
Proof.
  unfold set_from_row. generalize (imap (λ (i : nat) (k : string), (i, k)) names).
  intros l. revert o. induction l as [|[i k] l IH]; intros o; simpl.
  - by intros [= <-].
  - destruct (index row (i + start)) as [v|]; simpl; [|done].
    intros H. rewrite (IH _ H). apply setattr_class.
Qed.

(** Without [select_related], the object that [_iterator] yields for a row
    is an instance of the class that the registry of content types gives
    for the [polymorphic_ctype_id] of the row. *)
Lemma object_of_row_class (row : list value) (bo : obj) :
  select_related self = false →
  object_of_row sch db self row = Ok bo →
  ∃ i m,
    dict_zip (init_list sch self)
      (take (aggregate_start sch self - index_start self) (drop (index_start self) row))
    !! "polymorphic_ctype_id" = Some (VInt i)
    ∧ get_for_id sch i = Some m
    ∧ klass_model (o_class bo) = m.
Proof.
  intros Hsr. unfold object_of_row, fill_cache. rewrite Hsr.
  destruct (dict_zip _ _ !! "polymorphic_ctype_id") as [ct|] eqn:Ect; simpl; [|done].
  destruct ct as [|i| |]; simpl; try done.
  destruct (get_for_id sch i) as [m|] eqn:Em; simpl; [|done].
  destruct (dict_zip _ _ !! meta_pk_attname sch (model self)) as [pk|]; simpl; [|done].
  unfold model_init. destruct (decide (dom _ ⊆ _)); simpl; [|done].
  destruct (set_from_row sch (extra_select self) 0 row _) as [o1|] eqn:E1; simpl; [|done].
  intros E2. exists i, m. split; [done|]. split; [done|].
  rewrite (set_from_row_class _ _ _ _ _ E2), (set_from_row_class _ _ _ _ _ E1).
  rewrite init_fields_class. by destruct (decide _).
Qed.
End BaseObjects.

(** ** A result that fits into one chunk *)

Section OneChunk.
Context (sch : schema) (db : database) (self : queryset).

(** When the base query ends within the first chunk, the generator stops
    after one round, having yielded the real instances of the chunk. *)
Lemma iterator_stops_below_a_full_chunk (fuel : nat) objs out q :
  polymorphic_disabled self = false →
  next_chunk Polymorphic_QuerySet_objects_per_request (_iterator sch db self)
  = Ok (objs, true) →
  _get_real_instances sch db self objs = Ok (out, q) →
  iterator sch db self (S fuel) = {| yielded := out; queries := q; state := Stopped |}.
Proof.
  intros Hd Hn Hr. unfold iterator. rewrite Hd, iterator_while_S, Hn, Hr. done.
Qed.
End OneChunk.

(** ** One round of the chunked iteration *)

Lemma next_chunk_take (n : nat) (it : list (res obj)) (objs : list obj) :
  take n it = Ok <$> objs →
  next_chunk n it = Ok (objs, bool_decide (length it < n)%nat).
Proof.
  revert it objs. induction n as [|n IH]; intros it objs H.
  - rewrite take_0 in H. symmetry in H. apply fmap_nil_inv in H as ->.
    cbn [next_chunk]. by rewrite bool_decide_eq_false_2 by lia.
  - destruct it as [|r rest].
    + simpl in H. symmetry in H. apply fmap_nil_inv in H as ->.
      cbn [next_chunk]. by rewrite bool_decide_eq_true_2 by (simpl; lia).
    + destruct objs as [|o objs]; [done|]. simpl in H. injection H as -> H.
      cbn [next_chunk res_bind]. rewrite (IH _ _ H). cbn [res_bind].
      do 2 f_equal. apply bool_decide_ext. simpl. lia.
Qed.

Lemma next_chunk_raise (n : nat) (objs : list obj) (e : exn) (rest : list (res obj)) :
  (length objs < n)%nat →
  next_chunk n ((Ok <$> objs) ++ Raise e :: rest) = Raise e.
Proof.
  revert objs. induction n as [|n IH]; intros objs Hlen; [lia|].
  destruct objs as [|o objs]; simpl; [done|].
  rewrite IH; [done|]. simpl in Hlen. lia.
Qed.

Section Rounds.
Context (sch : schema) (db : database) (self : queryset).

(** The rows that one round of the loop reads. *)
Lemma first_chunk (rows : list (list value)) (objs : list obj) :
  Forall2 (λ row o, object_of_row sch db self row = Ok o) rows objs →
  object_of_row sch db self <$> rows = Ok <$> objs.
Proof.
  induction 1 as [|row o rows objs H _ IH]; [done|].
  rewrite !fmap_cons, H. by f_equal.
Qed.

Lemma iterator_while_repeats (fuel : nat) (objs out0 : list obj) (out : list obj)
    (q0 q : list query) :
  (Polymorphic_QuerySet_objects_per_request ≤ length (results_iter db self))%nat →
  Forall2 (λ row o, object_of_row sch db self row = Ok o)
          (take Polymorphic_QuerySet_objects_per_request (results_iter db self)) objs →
  _get_real_instances sch db self objs = Ok (out, q) →
  iterator_while sch db self fuel out0 q0
  = {| yielded := out0 ++ concat (replicate fuel out);
       queries := q0 ++ concat (replicate fuel q);
       state := Running |}.
Proof.
  intros Hlen Hrows Hload. revert out0 q0.
  induction fuel as [|fuel IH]; intros out0 q0.
  - simpl. by rewrite !app_nil_r.
  - rewrite iterator_while_S.
    rewrite (next_chunk_take _ _ objs).
    2:{ unfold _iterator. rewrite <- fmap_take. by apply first_chunk. }
    rewrite Hload. unfold _iterator. rewrite length_fmap.
    rewrite bool_decide_eq_false_2 by lia.
    rewrite IH. cbn [replicate concat]. by rewrite !app_assoc.
Qed.

(** X1.  When the base query gives fewer rows than one chunk holds and
    every row makes an object, the generator runs the loader once over the
    objects of all the rows, yields what the loader returns and stops; when
    the loader raises, the generator fails with that exception, having
    yielded nothing. *)
Theorem iterator_of_a_short_result (objs : list obj) (fuel : nat) :
  polymorphic_disabled self = false →
  Forall2 (λ row o, object_of_row sch db self row = Ok o) (results_iter db self) objs →
  (length objs < Polymorphic_QuerySet_objects_per_request)%nat →
  iterator sch db self (S fuel)
  = match _get_real_instances sch db self objs with
    | Ok (out, q) => {| yielded := out; queries := q; state := Stopped |}
    | Raise e => {| yielded := []; queries := []; state := Failed e |}
    end.
Proof.
  intros Hd Hrows Hlen. unfold iterator. rewrite Hd, iterator_while_S.
  pose proof (Forall2_length _ _ _ Hrows) as Hl.
  rewrite (next_chunk_take _ _ objs).
  2:{ unfold _iterator. rewrite (first_chunk _ _ Hrows).
      apply take_ge. rewrite length_fmap. lia. }
  unfold _iterator. rewrite length_fmap.
  rewrite bool_decide_eq_true_2 by lia.
  by destruct (_get_real_instances sch db self objs) as [[out q]|e].
Qed.

(** X2.  When a row within the first chunk makes no object (the row has no
    content type, the content type is not registered, the row is too
    short), the generator fails with the exception of that row: nothing is
    yielded, not even the objects of the rows before it, and the loader has
    sent no query. *)
Theorem iterator_fails_with_the_row (rows1 rows2 : list (list value)) (row : list value)
    (objs1 : list obj) (e : exn) (fuel : nat) :
  polymorphic_disabled self = false →
  results_iter db self = rows1 ++ row :: rows2 →
  Forall2 (λ row o, object_of_row sch db self row = Ok o) rows1 objs1 →
  (length rows1 < Polymorphic_QuerySet_objects_per_request)%nat →
  object_of_row sch db self row = Raise e →
  iterator sch db self (S fuel) = {| yielded := []; queries := []; state := Failed e |}.
Proof.
  intros Hd Hrows Hok Hlen He. unfold iterator. rewrite Hd, iterator_while_S.
  unfold _iterator. rewrite Hrows, fmap_app, fmap_cons, He, (first_chunk _ _ Hok).
  rewrite next_chunk_raise; [done|].
  rewrite <- (Forall2_length _ _ _ Hok). done.
Qed.

(** X3.  When the base query gives at least as many rows as one chunk
    holds, every round of the loop reads the first chunk again: after [n]
    rounds the generator has yielded [n] times what the loader returns for
    the objects of the first chunk, has sent the queries of that page [n]
    times, and is still running.  The rows after the first chunk are never
    read. *)
Theorem iterator_repeats_the_first_chunk (objs out : list obj) (q : list query) (n : nat) :
  polymorphic_disabled self = false →
  (Polymorphic_QuerySet_objects_per_request ≤ length (results_iter db self))%nat →
  Forall2 (λ row o, object_of_row sch db self row = Ok o)
          (take Polymorphic_QuerySet_objects_per_request (results_iter db self)) objs →
  _get_real_instances sch db self objs = Ok (out, q) →
  iterator sch db self n
  = {| yielded := concat (replicate n out);
       queries := concat (replicate n q);
       state := Running |}.
Proof.
  intros Hd Hlen Hrows Hload. unfold iterator. rewrite Hd.
  by rewrite (iterator_while_repeats n objs [] out [] q Hlen Hrows Hload).
Qed.
End Rounds.

(** The rows of the sample that were saved as the base model make the base
    objects of the sample. *)
Lemma sample_object_of_row (rows : list (list value)) (i : Z) :
  object_of_row Sample.sch (Sample.db rows) Sample.qs [VInt i; VInt 1; VStr "a"]
  = Ok (Sample.bo i 1 "a").
Proof. vm_compute. reflexivity. Qed.

Lemma sample_objects_of_rows (rows : list (list value)) (n : nat) :
  Forall2 (λ row o, object_of_row Sample.sch (Sample.db rows) Sample.qs row = Ok o)
          (Sample.rows_of_A n) ((λ i, Sample.bo (Z.of_nat i) 1 "a") <$> seq 1 n).
Proof.
  unfold Sample.rows_of_A. apply Forall2_fmap, Forall_Forall2_diag, Forall_forall.
  intros i _. apply sample_object_of_row.
Qed.

Lemma sample_first_hundred :
  take Polymorphic_QuerySet_objects_per_request (Sample.rows_of_A 101) = Sample.rows_of_A 100.
Proof. vm_compute. reflexivity. Qed.

Lemma sample_hundred_loaded (rows : list (list value)) :
  _get_real_instances Sample.sch (Sample.db rows) Sample.qs
    ((λ i, Sample.bo (Z.of_nat i) 1 "a") <$> seq 1 100)
  = Ok ((λ i, Sample.bo (Z.of_nat i) 1 "a") <$> seq 1 100, []).
Proof. vm_compute. reflexivity. Qed.

(** Three rows saved as the base model: one round, three objects, no
    query, and the generator has stopped. *)
Lemma iterator_of_a_short_result_witness :
  let db := Sample.db (Sample.rows_of_A 3) in
  let objs := [Sample.bo 1 1 "a"; Sample.bo 2 1 "a"; Sample.bo 3 1 "a"] in
  polymorphic_disabled Sample.qs = false
  ∧ Forall2 (λ row o, object_of_row Sample.sch db Sample.qs row = Ok o)
            (results_iter db Sample.qs) objs
  ∧ (length objs < Polymorphic_QuerySet_objects_per_request)%nat
  ∧ iterator Sample.sch db Sample.qs 1
    = {| yielded := objs; queries := []; state := Stopped |}.
Proof.
  intros db objs.
  assert (H2 : Forall2 (λ row o, object_of_row Sample.sch db Sample.qs row = Ok o)
                       (results_iter db Sample.qs) objs).
  { apply (sample_objects_of_rows (Sample.rows_of_A 3) 3). }
  assert (H3 : (length objs < Polymorphic_QuerySet_objects_per_request)%nat).
  { vm_compute. lia. }
  split; [reflexivity|]. split; [exact H2|]. split; [exact H3|].
  rewrite (iterator_of_a_short_result Sample.sch db Sample.qs objs 0 eq_refl H2 H3).
  vm_compute. reflexivity.
Defined.

(** A second row whose content type is not registered: the generator
    fails, and the object of the first row is not yielded. *)
Lemma iterator_fails_with_the_row_witness :
  let rows := [[VInt 1; VInt 1; VStr "a"]; [VInt 2; VInt 9; VStr "x"]] in
  iterator Sample.sch (Sample.db rows) Sample.qs 1
  = {| yielded := []; queries := []; state := Failed ContentTypeDoesNotExist |}.
Proof.
  intros rows.
  apply (iterator_fails_with_the_row Sample.sch (Sample.db rows) Sample.qs
           [[VInt 1; VInt 1; VStr "a"]] [] [VInt 2; VInt 9; VStr "x"]
           [Sample.bo 1 1 "a"] ContentTypeDoesNotExist 0).
  - reflexivity.
  - reflexivity.
  - apply (sample_objects_of_rows rows 1).
  - vm_compute. lia.
  - vm_compute. reflexivity.
Defined.

(** One hundred and one rows saved as the base model: three rounds yield
    the first hundred objects three times, and the generator is still
    running. *)
Lemma iterator_repeats_the_first_chunk_witness :
  let db := Sample.db (Sample.rows_of_A 101) in
  let objs := (λ i, Sample.bo (Z.of_nat i) 1 "a") <$> seq 1 100 in
  iterator Sample.sch db Sample.qs 3
  = {| yielded := concat (replicate 3 objs); queries := []; state := Running |}.
Proof.
  intros db objs.
  apply (iterator_repeats_the_first_chunk Sample.sch db Sample.qs objs objs [] 3).
  - reflexivity.
  - vm_compute. lia.
  - change (results_iter db Sample.qs) with (Sample.rows_of_A 101).
    rewrite sample_first_hundred. apply sample_objects_of_rows.
  - apply sample_hundred_loaded.
Defined.

(** ** The edges of the loader *)

Section LoaderEdgeProofs.
Context (sch : schema) (db : database) (self : queryset).

(** The first loop succeeds on a page of objects that have their primary
    key and a registered content type. *)
Lemma sort_page_sortable (objs : list obj) :
  Forall (sortable sch self) objs →
  ∃ st, for_each (sort_base_object sch self) objs empty_loader = Ok st
        ∧ sorted_page sch self objs st.
Proof.
  induction objs as [|bo objs IH] using rev_ind; intros Hok.
  - exists empty_loader. split; [done|apply sorted_page_empty].
  - apply Forall_app in Hok as [Hobjs Hbo]. rewrite Forall_singleton in Hbo.
    destruct (IH Hobjs) as (st & Hst & Hinv). destruct Hbo as [Hpk Hkd].
    rewrite for_each_snoc, Hst. simpl. rewrite sort_base_object_place.
    rewrite (get_pk_ok sch bo Hpk). simpl.
    destruct (base_result_objects_by_id st !! pk_of sch bo) eqn:E.
    + eexists. split; [done|]. apply sorted_page_seen; [done|]. rewrite E. by eexists.
    + destruct (classify sch self bo) as [kd|] eqn:Hc; [|done]. simpl.
      eexists. split; [done|]. by apply sorted_page_new.
Qed.

(** X4.  The loader reads the primary key of every base object: at the
    first object of the page that has none, it raises the [AttributeError]
    of the missing attribute, whatever follows on the page; no object is
    returned and no query has been sent. *)
Theorem loader_needs_the_primary_key (objs1 objs2 : list obj) (bo : obj) :
  Forall (sortable sch self) objs1 →
  o_dict bo !! meta_pk_attname sch (klass_model (o_class bo)) = None →
  _get_real_instances sch db self (objs1 ++ bo :: objs2)
  = Raise (AttributeError (meta_pk_attname sch (klass_model (o_class bo)))).
Proof.
  intros Hok Hnone. destruct (sort_page_sortable objs1 Hok) as (st & Hst & _).
  unfold _get_real_instances. rewrite for_each_app, Hst. cbn [res_bind for_each].
  unfold sort_base_object at 1, get_pk, getattr. by rewrite Hnone.
Qed.

(** X5.  In deferred mode the loader takes the primary key of a derived
    class out of the set of the fields that only the class has.  When the
    page has objects of derived classes and none of these classes has its
    primary key in that set, the loader raises the [KeyError] of the primary
    key of one of them. *)
Theorem deferred_loader_needs_a_key_of_its_own (objs : list obj) :
  deferred self = true →
  Forall (sortable sch self) objs →
  (∃ k bo m, first_by_pk sch objs k = Some bo ∧ classify sch self bo = Ok (Derived m)) →
  (∀ bo m, bo ∈ objs → classify sch self bo = Ok (Derived m) → key_not_its_own sch self m) →
  ∃ bo m, bo ∈ objs ∧ classify sch self bo = Ok (Derived m)
          ∧ _get_real_instances sch db self objs
            = Raise (KeyErrorName (meta_pk_attname sch m)).
Proof.
  intros Hd Hok (k & bo & m & Hfirst & Hc) Hbad.
  destruct (sort_page_sortable objs Hok) as (st & Hst & [H1 H2 H3 H4 H5 H6]).
  assert (Hne : idlist_per_model st ≠ []).
  { rewrite <- H2 in Hfirst. specialize (H3 k bo Hfirst). unfold placed in H3.
    rewrite Hc in H3. destruct H3 as [_ (ids & Hin & _)].
    intros Hnil. rewrite Hnil in Hin. by apply elem_of_nil in Hin. }
  destruct (idlist_per_model st) as [|[m' ids'] rest] eqn:Eidl; [done|].
  destruct (H6 m' ids') as (Hids & _ & Hall); [by left|].
  destruct ids' as [|k' ids'']; [done|].
  destruct (Hall k') as (bo' & Hb' & Hc'); [by left|].
  rewrite H2 in Hb'. apply first_by_pk_pk in Hb' as [_ Hin'].
  exists bo', m'. split; [done|]. split; [done|].
  unfold _get_real_instances. rewrite Hst. cbn [res_bind]. rewrite Eidl.
  cbn [for_each]. unfold load_model at 1. rewrite Hd.
  rewrite decide_False; [done|]. by apply (Hbad bo' m').
Qed.

(** X6.  A page of objects that were all saved as the base model, with
    distinct primary keys, is returned as it is, and no query is sent: the
    loader only attaches the names of the annotations and of the
    extra-select values, when the query has any. *)
Theorem base_class_page_is_returned (objs : list obj) :
  Forall (saved_as_base sch self) objs →
  NoDup (pk_of sch <$> objs) →
  _get_real_instances sch db self objs = Ok (finalize sch self <$> objs, [])
  ∧ (aggregates self = [] → extra_select self = [] →
     _get_real_instances sch db self objs = Ok (objs, [])).
Proof.
  intros Hall0 Hnd.
  assert (Hall : Forall (λ bo, is_Some (o_dict bo !! meta_pk_attname sch (klass_model (o_class bo)))
                               ∧ classify sch self bo = Ok AsIs) objs).
  { eapply Forall_impl; [exact Hall0|]. intros bo [Hpk Hc]. split; [done|].
    by destruct (classify sch self bo) as [[| |]|]. }
  assert (Hok : Forall (sortable sch self) objs).
  { eapply Forall_impl; [exact Hall|]. intros bo [Hpk Hc]. split; [done|]. by rewrite Hc. }
  destruct (sort_page_sortable objs Hok) as (st & Hst & [H1 H2 H3 H4 H5 H6]).
  assert (Hnil : idlist_per_model st = []).
  { destruct (idlist_per_model st) as [|[m ids] rest] eqn:E; [done|]. exfalso.
    destruct (H6 m ids) as (Hids & _ & Hk); [by left|].
    destruct ids as [|k ids]; [done|].
    destruct (Hk k) as (bo & Hb & Hc); [by left|].
    rewrite H2 in Hb. apply first_by_pk_pk in Hb as [_ Hin].
    rewrite Forall_forall in Hall. destruct (Hall bo Hin) as [_ Hc']. congruence. }
  assert (Hself : ∀ bo, bo ∈ objs → results st !! pk_of sch bo = Some bo).
  { intros bo Hin.
    destruct (first_by_pk_elem sch objs bo Hin) as [bo0 Hbo0].
    pose proof (first_by_pk_pk sch objs _ _ Hbo0) as [Hpk Hin0].
    assert (bo0 = bo) as ->.
    { apply list_elem_of_lookup in Hin as [i Hi]. apply list_elem_of_lookup in Hin0 as [j Hj].
      assert (i = j) as ->; [|congruence].
      apply (NoDup_lookup _ i j (pk_of sch bo) Hnd); rewrite list_lookup_fmap.
      - by rewrite Hi.
      - rewrite Hj. simpl. by rewrite Hpk. }
    rewrite <- H2 in Hbo0. specialize (H3 _ _ Hbo0). unfold placed in H3.
    rewrite Forall_forall in Hall. destruct (Hall bo Hin) as [_ Hc]. by rewrite Hc in H3. }
  assert (Hout : omap (λ k, results st !! k) (pk_of sch <$> objs) = objs).
  { clear -Hself. induction objs as [|bo objs IH]; [done|].
    cbn [fmap list_fmap omap list_omap]. rewrite (Hself bo) by (by left).
    f_equal. apply IH. intros bo' Hin. apply Hself. by right. }
  assert (Hres : _get_real_instances sch db self objs = Ok (finalize sch self <$> objs, [])).
  { unfold _get_real_instances. rewrite Hst. cbn [res_bind]. rewrite Hnil.
    cbn [for_each res_bind]. by rewrite set_names_finalize, H1, Hout. }
  split; [done|]. intros Ha He. rewrite Hres. do 2 f_equal.
  rewrite <- (list_fmap_id objs) at 2. apply list_fmap_ext. intros i o _.
  unfold finalize. by rewrite !decide_True.
Qed.
End LoaderEdgeProofs.

(** On the sample: an object without [id] between two good ones. *)
Lemma loader_needs_the_primary_key_witness :
  let nokey := {| o_class := Plain "A"; o_dict := <["field1" := VStr "x"]> ∅ |} in
  _get_real_instances Sample.sch (Sample.db []) Sample.qs
    ([Sample.bo 1 1 "a"] ++ nokey :: [Sample.bo 2 2 "b"])
  = Raise (AttributeError "id").
Proof.
  intros nokey.
  apply (loader_needs_the_primary_key Sample.sch (Sample.db []) Sample.qs
           [Sample.bo 1 1 "a"] [Sample.bo 2 2 "b"] nokey).
  - apply (bool_decide_unpack _). vm_compute. exact I.
  - reflexivity.
Defined.

(** On the variant of the sample in which [B] keeps the key column [id]:
    in deferred mode a page with an object saved as [B] makes the loader
    raise the [KeyError] of [id]. *)
Lemma deferred_loader_needs_a_key_of_its_own_witness :
  ∃ bo m, bo ∈ [Sample.bo 2 2 "b"]
    ∧ classify SampleSharedKey.sch Sample.qs_deferred bo = Ok (Derived m)
    ∧ _get_real_instances SampleSharedKey.sch (Sample.db []) Sample.qs_deferred
        [Sample.bo 2 2 "b"]
      = Raise (KeyErrorName (meta_pk_attname SampleSharedKey.sch m)).
Proof.
  apply (deferred_loader_needs_a_key_of_its_own SampleSharedKey.sch (Sample.db [])
           Sample.qs_deferred [Sample.bo 2 2 "b"]).
  - reflexivity.
  - apply (bool_decide_unpack _). vm_compute. exact I.
  - exists (VInt 2), (Sample.bo 2 2 "b"), "B". split; reflexivity.
  - intros bo m ->%list_elem_of_singleton [= <-].
    unfold key_not_its_own. apply (bool_decide_unpack _). vm_compute. exact I.
Defined.

(** On the sample: a page of two objects saved as [A]. *)
Lemma base_class_page_is_returned_witness :
  _get_real_instances Sample.sch (Sample.db []) Sample.qs
    [Sample.bo 1 1 "a"; Sample.bo 2 1 "b"]
  = Ok ([Sample.bo 1 1 "a"; Sample.bo 2 1 "b"], []).
Proof.
  apply (base_class_page_is_returned Sample.sch (Sample.db []) Sample.qs
           [Sample.bo 1 1 "a"; Sample.bo 2 1 "b"]).
  - apply (bool_decide_unpack _). vm_compute. exact I.
  - apply (bool_decide_unpack _). vm_compute. exact I.
  - reflexivity.
  - reflexivity.
Defined.

(** ** The objects that are re-created for missing rows *)

Section Recreated.
Context (sch : schema) (db : database) (self : queryset).

Lemma annotate_lookup_plain (names : list string) (bo o : obj) (n : string) :
  _deferred (o_class o) = false →
  o_dict (annotate sch names bo o) !! n
  = if decide (n ∈ names) then Some (attr_of bo n) else o_dict o !! n.
Proof.
  unfold annotate. revert o. induction names as [|x names IH]; intros o Hp; simpl.
  - destruct (decide (n ∈ [])) as [H|]; [by apply elem_of_nil in H|done].
  - assert (Hx : setattr sch o x (attr_of bo x) = set_dict o (<[x := attr_of bo x]> (o_dict o))).
    { apply setattr_not_bulk. by destruct (o_class o). }
    rewrite IH by (by rewrite setattr_class). rewrite Hx. simpl.
    destruct (decide (n ∈ names)) as [Hin|Hnin].
    + rewrite decide_True; [done|]. by right.
    + destruct (decide (n = x)) as [->|Hne].
      * rewrite decide_True by (by left). by rewrite lookup_insert_eq.
      * rewrite decide_False by (intros [?|?]%elem_of_cons; done).
        by rewrite lookup_insert_ne.
Qed.

Lemma finalize_lookup_plain (o : obj) (n : string) :
  _deferred (o_class o) = false → n ∉ bookkeeping_names →
  o_dict (finalize sch self o) !! n = o_dict o !! n.
Proof.
  intros Hp Hn. unfold bookkeeping_names in Hn.
  assert (n ≠ "polymorphic_annotate_names") by (intros ->; apply Hn; by left).
  assert (n ≠ "polymorphic_extra_select_names") by (intros ->; apply Hn; right; by left).
  assert (Hs : ∀ o' a v, _deferred (o_class o') = false → a ≠ n →
             o_dict (setattr sch o' a v) !! n = o_dict o' !! n).
  { intros o' a v Hp' Ha. rewrite setattr_not_bulk by (by destruct (o_class o')).
    simpl. by rewrite lookup_insert_ne. }
  unfold finalize.
  destruct (decide (aggregates self = [])), (decide (extra_select self = []));
    rewrite ?Hs; rewrite ?setattr_class; done.
Qed.

(** A new instance of a model holds the default of each field. *)
Lemma new_instance_defaults (m : string) (f : field) :
  NoDup (f_attname <$> meta_fields sch m) → f ∈ meta_fields sch m →
  o_dict (new_instance sch (Plain m)) !! f_attname f = Some (f_default f).
Proof.
  unfold new_instance, init_fields. cbn [klass_model].
  generalize (meta_fields sch m). intros fields Hnd Hf.
  match goal with |- o_dict (foldl ?s _ _) !! _ = _ => set (step := s) end.
  assert (Hstep : ∀ o g, o_class o = Plain m →
            step o g = set_dict o (<[f_attname g := f_default g]> (o_dict o))).
  { intros o g Hc. unfold step. rewrite lookup_empty. simpl.
    apply setattr_not_bulk. by rewrite Hc. }
  assert (Hkeep : ∀ fs o a, o_class o = Plain m → a ∉ f_attname <$> fs →
            o_dict (foldl step o fs) !! a = o_dict o !! a).
  { induction fs as [|g fs IH]; intros o a Hc Ha; simpl; [done|].
    rewrite fmap_cons in Ha. apply not_elem_of_cons in Ha as [Hne Ha].
    rewrite IH; [|by rewrite Hstep|done].
    rewrite Hstep by done. simpl. by rewrite lookup_insert_ne. }
  assert (Hgen : ∀ fs o, o_class o = Plain m → NoDup (f_attname <$> fs) →
            f ∈ fs → o_dict (foldl step o fs) !! f_attname f = Some (f_default f)).
  { induction fs as [|g fs IH]; intros o Hc Hnd' Hf'; [by apply elem_of_nil in Hf'|].
    rewrite fmap_cons in Hnd'. apply NoDup_cons in Hnd' as [Hg Hnd']. simpl.
    apply elem_of_cons in Hf' as [->|Hf'].
    - rewrite Hkeep; [|by rewrite Hstep|done].
      rewrite Hstep by done. simpl. by rewrite lookup_insert_eq.
    - apply IH; [by rewrite Hstep|done|done]. }
  by apply Hgen.
Qed.

(** What a new instance of a model holds once it is filled from a base
    object. *)
Lemma rebuilt_plain_lookup (m : string) (bo : obj) (n : string) :
  o_dict (rebuilt sch self (Plain m) bo) !! n
  = if decide (n ∈ extra_select self) then Some (attr_of bo n)
    else if decide (n ∈ aggregates self) then Some (attr_of bo n)
    else if decide (n = meta_pk_attname sch m) then Some (pk_of sch bo)
    else match o_dict bo !! n with
         | Some v => Some v
         | None => o_dict (new_instance sch (Plain m)) !! n
         end.
Proof.
  unfold rebuilt, annotated.
  assert (Hc : o_class (set_pk sch (copy_dict bo (new_instance sch (Plain m))) (pk_of sch bo))
               = Plain m).
  { unfold set_pk, copy_dict. rewrite setattr_class. simpl. apply new_instance_class. }
  rewrite annotate_lookup_plain by (by rewrite annotate_class, Hc).
  destruct (decide (n ∈ extra_select self)); [done|].
  rewrite annotate_lookup_plain by (by rewrite Hc).
  destruct (decide (n ∈ aggregates self)); [done|].
  unfold set_pk, copy_dict. cbn [o_class set_dict]. rewrite new_instance_class.
  cbn [klass_model].
  rewrite setattr_not_bulk by (cbn [o_class set_dict]; by rewrite new_instance_class).
  cbn [o_dict set_dict].
  destruct (decide (n = meta_pk_attname sch m)) as [->|Hne].
  - by rewrite lookup_insert_eq.
  - rewrite lookup_insert_ne by done. rewrite lookup_union.
    by destruct (o_dict bo !! n), (o_dict (new_instance sch (Plain m)) !! n).
Qed.

(** X7.  Outside deferred mode, the object that the loader returns for a
    base object whose derived row is missing is an instance of the derived
    class with the primary key of the base object; it has every attribute
    of the base object with the value the base object has for it, and each
    field of the derived class that the base object does not have holds the
    default of the field. *)
Theorem recreated_objects_are_filled (objs : list obj) :
  Forall (object_ok sch db self) objs → deferred self = false →
  ∃ out log,
    _get_real_instances sch db self objs = Ok (out, log)
    ∧ ∀ i bo bo0 m,
        objs !! i = Some bo →
        first_by_pk sch objs (pk_of sch bo) = Some bo0 →
        classify sch self bo0 = Ok (Derived m) →
        ¬ has_row sch db m (pk_of sch bo0) →
        meta_pk_attname sch m ∉ loader_names self →
        ∃ o, out !! i = Some o
          ∧ o_class o = Plain m
          ∧ get_pk sch o = Ok (pk_of sch bo0)
          ∧ (∀ n v, o_dict bo0 !! n = Some v → n ≠ meta_pk_attname sch m →
                    n ∉ bookkeeping_names → o_dict o !! n = Some v)
          ∧ (NoDup (f_attname <$> meta_fields sch m) →
             ∀ f, f ∈ meta_fields sch m → o_dict bo0 !! f_attname f = None →
                  f_attname f ≠ meta_pk_attname sch m →
                  f_attname f ∉ bookkeeping_names →
                  o_dict o !! f_attname f = Some (f_default f)).
Proof.
  intros Hok Hd.
  destruct (loader_places sch db self objs Hok) as (st & res1 & outs & _ & Hres & Hpos & Hrec).
  eexists _, _. split; [exact Hres|].
  intros i bo bo0 m Hi Hbo0 Hc Hrow Hpkn.
  destruct (Forall2_lookup_l _ _ _ _ _ Hpos Hi) as (o & Ho & Hr).
  destruct (Hrec _ _ Hbo0) as (o' & Ho' & Hrc).
  assert (o' = o) as -> by congruence.
  assert (o = rebuilt sch self (Plain m) bo0) as ->.
  { unfold reconstructed in Hrc. rewrite Hc in Hrc. unfold derived_instance in Hrc.
    rewrite Hd in Hrc. destruct Hrc as [(row & Hin & Hk & _)|[_ ->]]; [|done].
    exfalso. apply Hrow. by exists row. }
  assert (Hbo0ok : object_ok sch db self bo0).
  { rewrite Forall_forall in Hok. apply Hok. by apply (first_by_pk_pk sch objs _ _ Hbo0). }
  destruct Hbo0ok as (_ & Hnames & _). rewrite Forall_forall in Hnames.
  assert (Hcls : o_class (rebuilt sch self (Plain m) bo0) = Plain m) by apply rebuilt_class.
  assert (Hplain : _deferred (o_class (rebuilt sch self (Plain m) bo0)) = false)
    by (by rewrite Hcls).
  exists (finalize sch self (rebuilt sch self (Plain m) bo0)).
  split; [by rewrite list_lookup_fmap, Ho|].
  split; [by rewrite finalize_class|].
  unfold loader_names in Hpkn. rewrite !elem_of_app in Hpkn.
  split; [|split].
  - unfold get_pk, getattr. rewrite finalize_class, Hcls. cbn [klass_model].
    rewrite finalize_lookup_plain by tauto.
    rewrite rebuilt_plain_lookup.
    rewrite decide_False by tauto. rewrite decide_False by tauto.
    by rewrite decide_True.
  - intros n v Hv Hne Hnb. rewrite finalize_lookup_plain by done.
    rewrite rebuilt_plain_lookup. unfold attr_of. rewrite Hv. simpl.
    destruct (decide (n ∈ extra_select self)); [done|].
    destruct (decide (n ∈ aggregates self)); [done|].
    by rewrite decide_False.
  - intros Hnd f Hf Hnone Hne Hnb. rewrite finalize_lookup_plain by done.
    rewrite rebuilt_plain_lookup.
    assert (Hna : f_attname f ∉ aggregates self ++ extra_select self).
    { intros Hin. destruct (Hnames _ Hin) as [w Hw]. congruence. }
    rewrite elem_of_app in Hna.
    rewrite decide_False by tauto. rewrite decide_False by tauto.
    rewrite decide_False by done. rewrite Hnone.
    by apply new_instance_defaults.
Qed.
End Recreated.

Lemma sample_attnames_distinct (m : string) :
  NoDup (f_attname <$> meta_fields Sample.sch m).
Proof.
  unfold Sample.sch. cbn [meta_fields].
  destruct (decide (m = "B")); apply (bool_decide_unpack _); vm_compute; exact I.
Qed.

Lemma sample_no_row_of_4 : ¬ has_row Sample.sch (Sample.db []) "B" (VInt 4).
Proof.
  intros (row & Hin & Hk).
  change (db_table (Sample.db []) "B") with [Sample.rowB 2 "b" "bb"] in Hin.
  apply list_elem_of_singleton in Hin. rewrite Hin in Hk.
  vm_compute in Hk. discriminate.
Qed.

(** On the sample: the fourth object of the page was saved as [B] and has
    no row in the table of [B]. *)
Lemma recreated_objects_are_filled_witness :
  ∃ out log o,
    _get_real_instances Sample.sch (Sample.db []) Sample.qs Sample.page = Ok (out, log)
    ∧ out !! 3%nat = Some o
    ∧ o_class o = Plain "B"
    ∧ get_pk Sample.sch o = Ok (VInt 4)
    ∧ o_dict o !! "field1" = Some (VStr "lost")
    ∧ o_dict o !! "field2" = Some (VStr "dflt").
Proof.
  destruct (recreated_objects_are_filled Sample.sch (Sample.db []) Sample.qs Sample.page)
    as (out & log & Hres & Hall).
  { apply sample_page_ok. }
  { reflexivity. }
  destruct (Hall 3%nat (Sample.bo 4 2 "lost") (Sample.bo 4 2 "lost") "B")
    as (o & Ho & Hc & Hpk & Hattrs & Hdef).
  { reflexivity. }
  { reflexivity. }
  { reflexivity. }
  { apply sample_no_row_of_4. }
  { apply (bool_decide_unpack _). vm_compute. exact I. }
  exists out, log, o. split; [done|]. split; [done|]. split; [done|].
  split; [exact Hpk|]. split.
  - apply Hattrs; [reflexivity|done|].
    apply (bool_decide_unpack _). vm_compute. exact I.
  - apply (Hdef (sample_attnames_distinct "B") (Sample.fld "field2" (VStr "dflt"))).
    + change (meta_fields Sample.sch "B") with Sample.fieldsB.
      unfold Sample.fieldsB. apply elem_of_app. right. right. left.
    + reflexivity.
    + done.
    + apply (bool_decide_unpack _). vm_compute. exact I.
Defined.

(** ** The load of a bulk-deferred attribute, on every path *)

Section DeferredEdges.
Context (sch : schema) (db : database).

(** The loop that caches the fetched values only writes the names of the
    fields it is given. *)
Lemma cache_loop_frame (o : obj) (fields : list field) (data data' : gmap string value) :
  for_each (λ data f, let* val := getattr o (f_attname f) in
                      Ok (<[f_attname f := val]> data)) fields data = Ok data' →
  (∀ n, n ∉ f_attname <$> fields → data' !! n = data !! n)
  ∧ (∀ n, is_Some (data !! n) → is_Some (data' !! n)).
Proof.
  revert data. induction fields as [|f fields IH]; intros data H; simpl in H.
  - by injection H as <-.
  - destruct (getattr o (f_attname f)) as [v|]; simpl in H; [|done].
    destruct (IH _ H) as [H1 H2]. split.
    + intros n Hn. rewrite fmap_cons in Hn. apply not_elem_of_cons in Hn as [Hne Hn].
      rewrite H1 by done. by rewrite lookup_insert_ne.
    + intros n Hn. apply H2. destruct (decide (f_attname f = n)) as [->|Hne].
      * rewrite lookup_insert_eq. by eexists.
      * by rewrite lookup_insert_ne.
Qed.

(** X8.  Whenever the access to a bulk-deferred attribute returns, it
    returns the value that the instance then holds under the name; the
    class of the instance is unchanged, no attribute of the instance is
    removed, no attribute other than the bulk-deferred fields of the
    instance is changed, and at most one query has been sent: the one for
    the bulk-deferred fields of the row with the primary key of the
    instance. *)
Theorem BulkDeferredAttribute_get_frame (field_name cls : string) (instance instance' : obj)
    (log log' : list query) (v : value) :
  BulkDeferredAttribute_get sch db field_name cls instance log = Ok (v, instance', log') →
  o_class instance' = o_class instance
  ∧ o_dict instance' !! field_name = Some v
  ∧ (∀ n, n ∉ f_attname <$> bulk_fields sch cls (o_class instance) →
          o_dict instance' !! n = o_dict instance !! n)
  ∧ (∀ n, is_Some (o_dict instance !! n) → is_Some (o_dict instance' !! n))
  ∧ (log' = log
     ∨ ∃ pk, get_pk sch instance = Ok pk
             ∧ log' = log ++ [QGetOnly cls pk
                                (f_name <$> bulk_fields sch cls (o_class instance))]).
Proof.
  unfold BulkDeferredAttribute_get.
  destruct (o_dict instance !! field_name) as [v0|] eqn:E0.
  - cbn [res_bind]. rewrite E0. intros [= <- <- <-]. simpl.
    split; [done|]. split; [done|]. split; [done|]. split; [done|]. by left.
  - destruct (decide (field_name ∈ f_attname <$> bulk_fields sch cls (o_class instance))).
    2:{ cbn [res_bind]. by rewrite E0. }
    destruct (get_pk sch instance) as [pk|] eqn:Epk; [|done]. cbn [res_bind].
    destruct (source_of_values sch db cls instance pk) as [o|e1] eqn:Esrc;
      unfold source_of_values in Esrc; rewrite Esrc; [|done].
    cbn [res_bind].
    match goal with
    | |- context [for_each ?body ?l ?d] => destruct (for_each body l d) as [data'|] eqn:Eloop
    end; [|done].
    cbn [res_bind].
    destruct (data' !! field_name) as [v1|] eqn:E1; [|done].
    intros [= <- <- <-]. simpl.
    destruct (cache_loop_frame _ _ _ _ Eloop) as [H1 H2].
    split; [done|]. split; [done|]. split; [done|]. split; [done|].
    right. by exists pk.
Qed.

(** X9.  The errors of the access to a bulk-deferred attribute that the
    instance does not hold.  When the class of the instance has no
    bulk-deferred descriptor for the name, the access raises the [KeyError]
    of the name.  When it has one and the instance has no primary key, the
    access raises the [AttributeError] of the primary key.  When the table
    has more than one row with the primary key of the instance, the error of
    the host is not caught: only the "does not exist" error is. *)
Theorem BulkDeferredAttribute_get_errors (field_name cls : string) (instance : obj)
    (log : list query) :
  o_dict instance !! field_name = None →
  (field_name ∉ f_attname <$> bulk_fields sch cls (o_class instance) →
   BulkDeferredAttribute_get sch db field_name cls instance log
   = Raise (KeyErrorName field_name))
  ∧ (field_name ∈ f_attname <$> bulk_fields sch cls (o_class instance) →
     o_dict instance !! meta_pk_attname sch (klass_model (o_class instance)) = None →
     BulkDeferredAttribute_get sch db field_name cls instance log
     = Raise (AttributeError (meta_pk_attname sch (klass_model (o_class instance)))))
  ∧ (∀ pk, field_name ∈ f_attname <$> bulk_fields sch cls (o_class instance) →
     o_dict instance !! meta_pk_attname sch (klass_model (o_class instance)) = Some pk →
     base_objects_get sch db cls pk = Raise MultipleObjectsReturned →
     BulkDeferredAttribute_get sch db field_name cls instance log
     = Raise MultipleObjectsReturned).
Proof.
  intros Hnone. unfold BulkDeferredAttribute_get. rewrite Hnone. split; [|split].
  - intros Hn. rewrite decide_False by done. cbn [res_bind]. by rewrite Hnone.
  - intros Hin Hpk. rewrite decide_True by done.
    unfold get_pk, getattr. by rewrite Hpk.
  - intros pk Hin Hpk Hm. rewrite decide_True by done.
    unfold get_pk, getattr. rewrite Hpk. cbn [res_bind]. by rewrite Hm.
Qed.

Lemma source_of_values_row (cls : string) (instance : obj) (pk : value) (o : obj) :
  base_objects_get sch db cls pk = Ok o → source_of_values sch db cls instance pk = Ok o.
Proof. unfold source_of_values. by intros ->. Qed.

(** X10.  The first load writes every bulk-deferred field of the instance,
    also one that was assigned before: when a value is assigned to one
    bulk-deferred field and another one, which the instance does not hold,
    is read afterwards, the instance holds the value of the row for the
    assigned field, whatever was assigned. *)
Theorem first_load_overwrites_assigned_fields (assigned read cls : string) (instance : obj)
    (x pk : value) (o : obj) (log : list query) :
  let instance1 := BulkDeferredAttribute_set sch assigned cls instance x in
  assigned ∈ f_attname <$> bulk_fields sch cls (o_class instance) →
  read ∈ f_attname <$> bulk_fields sch cls (o_class instance) →
  (∀ f, f ∈ meta_fields sch cls → f_attname f = assigned → f_set f = None) →
  o_dict instance1 !! read = None →
  o_dict instance1 !! meta_pk_attname sch (klass_model (o_class instance)) = Some pk →
  base_objects_get sch db cls pk = Ok o →
  Forall (λ f, is_Some (o_dict o !! f_attname f)) (bulk_fields sch cls (o_class instance)) →
  o_dict instance1 !! assigned = Some x
  ∧ ∃ v w instance2,
      BulkDeferredAttribute_get sch db read cls instance1 log
      = Ok (v, instance2,
            log ++ [QGetOnly cls pk (f_name <$> bulk_fields sch cls (o_class instance))])
      ∧ o_dict o !! assigned = Some w
      ∧ o_dict instance2 !! assigned = Some w.
Proof.
  intros instance1 Ha Hr Hplain Hnone Hpk Hrow Hall.
  destruct (BulkDeferredAttribute_set_stores sch assigned cls instance x)
    as (x' & Hx' & Hcls & Hst).
  destruct (Hst Hplain) as [-> Hdict]. fold instance1 in Hx', Hcls, Hdict.
  split; [done|].
  destruct (BulkDeferredAttribute_get_first sch db read cls instance1 log pk o)
    as (v & instance2 & Hget & _ & _ & Hd).
  - done.
  - by rewrite Hcls.
  - by rewrite Hcls.
  - by apply source_of_values_row.
  - by rewrite Hcls.
  - rewrite Hcls in Hget, Hd.
    rewrite Forall_forall in Hall.
    apply list_elem_of_fmap in Ha as Ha'. destruct Ha' as (f & Hf & Hfin).
    destruct (Hall f Hfin) as [w Hw]. rewrite <- Hf in Hw.
    exists v, w, instance2. split; [done|]. split; [done|].
    rewrite Hd. by rewrite decide_True.
Qed.

Lemma base_objects_get_no_row (cls : string) (pk : value) :
  ¬ has_row sch db cls pk → base_objects_get sch db cls pk = Raise DoesNotExist.
Proof.
  intros Hn. unfold base_objects_get.
  destruct (filter _ (db_table db cls)) as [|row rows] eqn:E; [done|].
  exfalso. apply Hn. exists row.
  assert (Hin : row ∈ filter (λ row, row !! meta_pk_attname sch cls = Some pk)
                             (db_table db cls)) by (rewrite E; by left).
  apply list_elem_of_filter in Hin as [? ?]. done.
Qed.

(** X11.  When the row of the instance is missing from the table of the
    class, the access to a bulk-deferred field that the instance does not
    hold sends the one query, raises nothing, and returns the default of
    the field: the values are taken from a new instance of the class that
    is filled from the instance. *)
Theorem deferred_field_of_a_missing_row (cls : string) (instance : obj) (f : field)
    (pk : value) (log : list query) :
  f ∈ bulk_fields sch cls (o_class instance) →
  NoDup (f_attname <$> meta_fields sch cls) →
  o_dict instance !! f_attname f = None →
  o_dict instance !! meta_pk_attname sch (klass_model (o_class instance)) = Some pk →
  ¬ has_row sch db cls pk →
  f_attname f ≠ meta_pk_attname sch cls →
  ∃ instance',
    BulkDeferredAttribute_get sch db (f_attname f) cls instance log
    = Ok (f_default f, instance',
          log ++ [QGetOnly cls pk (f_name <$> bulk_fields sch cls (o_class instance))])
    ∧ o_dict instance' !! f_attname f = Some (f_default f).
Proof.
  intros Hf Hnd Hnone Hpk Hrow Hne.
  set (o := set_pk sch (copy_dict instance (new_instance sch (Plain cls))) pk).
  assert (Hsrc : source_of_values sch db cls instance pk = Ok o).
  { unfold source_of_values. by rewrite (base_objects_get_no_row cls pk Hrow). }
  assert (Hfields : ∀ g, g ∈ bulk_fields sch cls (o_class instance) → g ∈ meta_fields sch cls).
  { intros g Hg. unfold bulk_fields in Hg. by apply list_elem_of_filter in Hg as [_ ?]. }
  assert (Hall : Forall (λ g, is_Some (o_dict o !! f_attname g))
                        (bulk_fields sch cls (o_class instance))).
  { apply Forall_forall. intros g Hg. apply recreated_has_fields. by apply Hfields. }
  destruct (BulkDeferredAttribute_get_first sch db (f_attname f) cls instance log pk o)
    as (v & instance' & Hget & _ & Hv & Hd); [done|by apply list_elem_of_fmap_2|done|done|done|].
  assert (Ho : o_dict o !! f_attname f = Some (f_default f)).
  { unfold o, set_pk, copy_dict. cbn [o_class set_dict]. rewrite new_instance_class.
    cbn [klass_model].
    rewrite setattr_not_bulk by (cbn [o_class set_dict]; by rewrite new_instance_class).
    cbn [o_dict set_dict]. rewrite lookup_insert_ne by done.
    rewrite lookup_union_r by done. apply new_instance_defaults; [done|]. by apply Hfields. }
  assert (v = f_default f) as ->.
  { rewrite Hd in Hv. rewrite decide_True in Hv by (by apply list_elem_of_fmap_2). congruence. }
  by exists instance'.
Qed.
End DeferredEdges.

(** On the sample with two fields: the first access to [field2]. *)
Lemma BulkDeferredAttribute_get_frame_witness :
  let instance := SampleTwoFields.deferred_B 2 in
  let instance' :=
    set_dict instance
      (<["field3" := VStr "cc"]> (<["field2" := VStr "bb"]> (o_dict instance))) in
  BulkDeferredAttribute_get SampleTwoFields.sch SampleTwoFields.db "field2" "B" instance []
  = Ok (VStr "bb", instance', [QGetOnly "B" (VInt 2) ["field2"; "field3"]])
  ∧ o_dict instance' !! "field1" = o_dict instance !! "field1".
Proof.
  intros instance instance'.
  assert (H : BulkDeferredAttribute_get SampleTwoFields.sch SampleTwoFields.db
                "field2" "B" instance []
              = Ok (VStr "bb", instance', [QGetOnly "B" (VInt 2) ["field2"; "field3"]])).
  { vm_compute. reflexivity. }
  split; [exact H|].
  destruct (BulkDeferredAttribute_get_frame SampleTwoFields.sch SampleTwoFields.db
              "field2" "B" instance instance' [] _ (VStr "bb") H) as (_ & _ & Hframe & _).
  apply Hframe. apply (bool_decide_unpack _). vm_compute. exact I.
Defined.

(** On the sample with two fields: a name that is no field. *)
Lemma BulkDeferredAttribute_get_errors_witness :
  BulkDeferredAttribute_get SampleTwoFields.sch SampleTwoFields.db "field9" "B"
    (SampleTwoFields.deferred_B 2) []
  = Raise (KeyErrorName "field9").
Proof.
  destruct (BulkDeferredAttribute_get_errors SampleTwoFields.sch SampleTwoFields.db
              "field9" "B" (SampleTwoFields.deferred_B 2) []) as (Hkey & _ & _).
  - reflexivity.
  - apply Hkey. apply (bool_decide_unpack _). vm_compute. exact I.
Defined.

(** On the sample with two fields: [field2] is assigned, then [field3] is
    read; the instance holds the [field2] of the row afterwards. *)
Lemma first_load_overwrites_assigned_fields_witness :
  let instance1 :=
    BulkDeferredAttribute_set SampleTwoFields.sch "field2" "B"
      (SampleTwoFields.deferred_B 2) (VStr "mine") in
  o_dict instance1 !! "field2" = Some (VStr "mine")
  ∧ ∃ v w instance2,
      BulkDeferredAttribute_get SampleTwoFields.sch SampleTwoFields.db "field3" "B"
        instance1 []
      = Ok (v, instance2, [QGetOnly "B" (VInt 2) ["field2"; "field3"]])
      ∧ w = VStr "bb"
      ∧ o_dict instance2 !! "field2" = Some w.
Proof.
  intros instance1.
  destruct (first_load_overwrites_assigned_fields SampleTwoFields.sch SampleTwoFields.db
              "field2" "field3" "B" (SampleTwoFields.deferred_B 2) (VStr "mine") (VInt 2)
              {| o_class := Plain "B"; o_dict := SampleTwoFields.rowB |} [])
    as (Hx & v & w & instance2 & Hget & Hw & Hw2).
  - apply (bool_decide_unpack _). vm_compute. exact I.
  - apply (bool_decide_unpack _). vm_compute. exact I.
  - intros f Hf _. change (meta_fields SampleTwoFields.sch "B") with SampleTwoFields.fieldsB in Hf.
    unfold SampleTwoFields.fieldsB, Sample.fieldsB, Sample.fieldsA in Hf.
    repeat (apply elem_of_cons in Hf as [->|Hf] || apply elem_of_app in Hf as [Hf|Hf]);
      try done; by apply elem_of_nil in Hf.
  - reflexivity.
  - reflexivity.
  - reflexivity.
  - apply (bool_decide_unpack _). vm_compute. exact I.
  - split; [exact Hx|]. exists v, w, instance2. split; [exact Hget|]. split; [|exact Hw2].
    vm_compute in Hw. by injection Hw as <-.
Defined.

Lemma sample_two_fields_distinct :
  NoDup (f_attname <$> meta_fields SampleTwoFields.sch "B").
Proof. apply (bool_decide_unpack _). vm_compute. exact I. Qed.

Lemma sample_two_fields_no_row_of_4 :
  ¬ has_row SampleTwoFields.sch SampleTwoFields.db "B" (VInt 4).
Proof.
  intros (row & Hin & Hk).
  change (db_table SampleTwoFields.db "B") with [SampleTwoFields.rowB] in Hin.
  apply list_elem_of_singleton in Hin. rewrite Hin in Hk.
  vm_compute in Hk. discriminate.
Qed.

(** On the sample with two fields: the object with the primary key 4 has
    no row in the table of [B]; its [field3] reads as the default. *)
Lemma deferred_field_of_a_missing_row_witness :
  ∃ instance',
    BulkDeferredAttribute_get SampleTwoFields.sch SampleTwoFields.db "field3" "B"
      (SampleTwoFields.deferred_B 4) []
    = Ok (VStr "dflt3", instance', [QGetOnly "B" (VInt 4) ["field2"; "field3"]])
    ∧ o_dict instance' !! "field3" = Some (VStr "dflt3").
Proof.
  apply (deferred_field_of_a_missing_row SampleTwoFields.sch SampleTwoFields.db "B"
           (SampleTwoFields.deferred_B 4) (Sample.fld "field3" (VStr "dflt3")) (VInt 4) []).
  - unfold bulk_fields. apply list_elem_of_filter. split; [reflexivity|].
    change (meta_fields SampleTwoFields.sch "B") with SampleTwoFields.fieldsB.
    unfold SampleTwoFields.fieldsB. apply elem_of_app. right. left.
  - apply sample_two_fields_distinct.
  - reflexivity.
  - reflexivity.
  - apply sample_two_fields_no_row_of_4.
  - done.
Defined.

(** ** The objects that [_iterator] makes of the rows *)

Lemma foldl_insert_notin (d : gmap string value) (l : list (string * value)) (k : string) :
  k ∉ l.*1 → foldl (λ d kv, <[kv.1 := kv.2]> d) d l !! k = d !! k.
Proof.
  revert d. induction l as [|[k0 v0] l IH]; intros d Hk; simpl; [done|].
  rewrite fmap_cons in Hk. apply not_elem_of_cons in Hk as [Hne Hk].
  rewrite IH by done. simpl. by rewrite lookup_insert_ne.
Qed.

Lemma foldl_insert_in (d : gmap string value) (l : list (string * value)) (j : nat)
    (k : string) (v : value) :
  NoDup (l.*1) → l !! j = Some (k, v) →
  foldl (λ d kv, <[kv.1 := kv.2]> d) d l !! k = Some v.
Proof.
  revert d j. induction l as [|[k0 v0] l IH]; intros d j Hnd Hj; [done|].
  rewrite fmap_cons in Hnd. apply NoDup_cons in Hnd as [Hk0 Hnd]. simpl.
  destruct j as [|j]; simpl in Hj.
  - injection Hj as -> ->. rewrite foldl_insert_notin by done. simpl.
    by rewrite lookup_insert_eq.
  - by apply (IH _ j).
Qed.

Lemma zip_fst_sublist {A B} (l : list A) (k : list B) : (zip l k).*1 `sublist_of` l.
Proof.
  revert k. induction l as [|x l IH]; intros k; simpl; [done|].
  destruct k as [|y k]; simpl.
  - apply sublist_nil_l.
  - by apply sublist_skip.
Qed.

(** [dict(zip(keys, vals))]: a name that is no key is absent. *)
Lemma dict_zip_None (keys : list string) (vals : list value) (k : string) :
  k ∉ keys → dict_zip keys vals !! k = None.
Proof.
  intros Hk. unfold dict_zip. rewrite foldl_insert_notin; [done|].
  intros Hin. apply Hk. eapply elem_of_sublist; [exact Hin|apply zip_fst_sublist].
Qed.

Lemma dict_zip_is_Some (keys : list string) (vals : list value) (k : string) :
  is_Some (dict_zip keys vals !! k) → k ∈ keys.
Proof.
  intros [v Hv]. destruct (decide (k ∈ keys)) as [|Hn]; [done|].
  by rewrite dict_zip_None in Hv.
Qed.

(** With distinct keys, each key holds the value at its position. *)
Lemma dict_zip_Some (keys : list string) (vals : list value) (j : nat) (k : string)
    (v : value) :
  NoDup keys → keys !! j = Some k → vals !! j = Some v →
  dict_zip keys vals !! k = Some v.
Proof.
  intros Hnd Hk Hv. unfold dict_zip. apply (foldl_insert_in _ _ j).
  - eapply sublist_NoDup; [exact Hnd|apply zip_fst_sublist].
  - unfold zip. apply lookup_zip_with_Some. by exists k, v.
Qed.

Section InitFields.
Context (sch : schema).

(** The constructor sets no attribute through a bulk-deferred descriptor
    when no keyword names a bulk-deferred field. *)
Lemma init_fields_absent (k : klass) (kwargs : gmap string value) (a : string) :
  (∀ n, is_Some (kwargs !! n) → is_bulk_deferred k n = false) →
  kwargs !! a = None → is_deferred_attr k a = true →
  o_dict (init_fields sch k kwargs) !! a = None.
Proof.
  intros Hkw Ha Hd. unfold init_fields.
  apply (foldl_preserve (λ o, o_class o = k ∧ o_dict o !! a = None)); [done|].
  intros o f [Hc Hn].
  assert (Hset : ∀ v, f_attname f ≠ a → is_bulk_deferred k (f_attname f) = false →
            o_class (setattr sch o (f_attname f) v) = k
            ∧ o_dict (setattr sch o (f_attname f) v) !! a = None).
  { intros v Hne Hb. rewrite setattr_class. split; [done|].
    rewrite setattr_not_bulk by (by rewrite Hc). simpl. by rewrite lookup_insert_ne. }
  destruct (kwargs !! f_attname f) as [v|] eqn:E.
  - apply Hset; [intros Heq; rewrite Heq in E; congruence|]. apply Hkw. by eexists.
  - destruct (is_deferred_attr k (f_attname f)) eqn:Ed; [done|].
    apply Hset; [intros Heq; rewrite Heq in Ed; congruence|].
    destruct k as [m|m attrs bulk]; [done|]. simpl in *.
    apply bool_decide_eq_false in Ed. apply bool_decide_eq_false.
    intros [? _]%elem_of_difference. apply Ed, elem_of_union. by right.
Qed.

(** A keyword that names a field is held by the new object. *)
Lemma init_fields_keyword (k : klass) (kwargs : gmap string value) (a : string) (v : value) :
  (∀ n, is_Some (kwargs !! n) → is_bulk_deferred k n = false) →
  kwargs !! a = Some v → a ∈ attnames sch (klass_model k) →
  o_dict (init_fields sch k kwargs) !! a = Some v.
Proof.
  intros Hkw Ha Hin. unfold attnames in Hin. apply elem_of_list_to_set in Hin.
  apply list_elem_of_fmap in Hin as (f & -> & Hf). unfold init_fields.
  assert (Hstep : ∀ o g, o_class o = k →
            ∃ d, (match kwargs !! f_attname g with
                  | Some v => setattr sch o (f_attname g) v
                  | None => if is_deferred_attr k (f_attname g) then o
                            else setattr sch o (f_attname g) (f_default g)
                  end) = set_dict o d
                 ∧ (∀ n, n ≠ f_attname g → d !! n = o_dict o !! n)
                 ∧ (is_Some (kwargs !! f_attname g) → d !! f_attname g = kwargs !! f_attname g)).
  { intros o g Hc. destruct (kwargs !! f_attname g) as [w|] eqn:E.
    - exists (<[f_attname g := w]> (o_dict o)). split.
      + apply setattr_not_bulk. rewrite Hc. apply Hkw. by eexists.
      + split; [intros n Hn; by rewrite lookup_insert_ne|]. intros _. by rewrite lookup_insert_eq.
    - destruct (is_deferred_attr k (f_attname g)) eqn:Ed.
      + exists (o_dict o). split; [by destruct o|]. split; [done|]. by intros [? ?].
      + exists (<[f_attname g := f_default g]> (o_dict o)). split.
        * apply setattr_not_bulk. rewrite Hc.
          destruct k as [m|m attrs bulk]; [done|]. simpl in *.
          apply bool_decide_eq_false in Ed. apply bool_decide_eq_false.
          intros [? _]%elem_of_difference. apply Ed, elem_of_union. by right.
        * split; [intros n Hn; by rewrite lookup_insert_ne|]. by intros [? ?]. }
  apply (foldl_reach (λ o, o_class o = k) (λ o, o_dict o !! f_attname f = Some v) _ f);
    [done| | | |done].
  - intros o g Hc. destruct (Hstep o g Hc) as (d & -> & _). done.
  - intros o Hc. destruct (Hstep o f Hc) as (d & -> & _ & Hd). simpl.
    rewrite Hd, Ha; [done|]. rewrite Ha. by eexists.
  - intros o g Hc Hv. destruct (Hstep o g Hc) as (d & -> & Hne & Hd). simpl.
    destruct (decide (f_attname f = f_attname g)) as [Heq|Hneq].
    + rewrite Heq. rewrite Hd; rewrite <- Heq, Ha; [done|by eexists].
    + by rewrite Hne.
Qed.
End InitFields.

Section RowValues.
Context (sch : schema).

Lemma imap_pair_zip_seq (names : list string) (c : nat) :
  imap (λ i k, (c + i, k)%nat) names = zip (seq c (length names)) names.
Proof.
  revert c. induction names as [|n names IH]; intros c; simpl; [done|].
  f_equal; [f_equal; lia|]. rewrite <- (IH (S c)). apply imap_ext. intros i x _. simpl.
  f_equal. lia.
Qed.

(** [for i, name in enumerate(names): setattr(o, name, row[i + start])] on
    names that are stored in the instance dictionary. *)
Lemma set_from_seq (names : list string) (c start : nat) (row : list value) (o o' : obj) :
  Forall (stored_directly sch) names → NoDup names →
  for_each (λ o (ik : nat * string),
              let* v := index row (ik.1 + start) in Ok (setattr sch o ik.2 v))
           (zip (seq c (length names)) names) o = Ok o' →
  o_class o' = o_class o
  ∧ (∀ k, k ∉ names → o_dict o' !! k = o_dict o !! k)
  ∧ (∀ i k, names !! i = Some k →
       ∃ v, row !! (c + i + start)%nat = Some v ∧ o_dict o' !! k = Some v).
Proof.
  revert c o. induction names as [|n names IH]; intros c o Hs Hnd H.
  - simpl in H. injection H as <-. split; [done|]. split; [done|]. by intros i k ?.
  - apply Forall_cons in Hs as [Hn Hs]. apply NoDup_cons in Hnd as [Hnin Hnd].
    cbn [length seq zip zip_with for_each] in H.
    unfold index at 1 in H. cbn [fst snd] in H.
    destruct (row !! (c + start)%nat) as [v|] eqn:Ev; [|done]. cbn [res_bind] in H.
    destruct (IH (S c) _ Hs Hnd H) as (Hc & Hkeep & Hget).
    rewrite (setattr_stored sch _ _ _ Hn) in Hc, Hkeep. simpl in Hc, Hkeep.
    split; [done|]. split.
    + intros k Hk. apply not_elem_of_cons in Hk as [Hne Hk].
      rewrite Hkeep by done. by rewrite lookup_insert_ne.
    + intros [|i] k Hi; simpl in Hi.
      * injection Hi as <-. exists v. split; [by rewrite Nat.add_0_r|].
        rewrite Hkeep by done. by rewrite lookup_insert_eq.
      * destruct (Hget i k Hi) as (w & Hw & Ho). exists w. split; [|done].
        by replace (c + S i + start)%nat with (S c + i + start)%nat by lia.
Qed.

Lemma set_from_row_lookup (names : list string) (start : nat) (row : list value) (o o' : obj) :
  Forall (stored_directly sch) names → NoDup names →
  set_from_row sch names start row o = Ok o' →
  o_class o' = o_class o
  ∧ (∀ k, k ∉ names → o_dict o' !! k = o_dict o !! k)
  ∧ (∀ i k, names !! i = Some k →
       ∃ v, row !! (i + start)%nat = Some v ∧ o_dict o' !! k = Some v).
Proof.
  intros Hs Hnd H. unfold set_from_row in H.
  rewrite (imap_ext _ (λ i k, (0 + i, k)%nat)) in H by done.
  rewrite imap_pair_zip_seq in H.
  apply (set_from_seq names 0 start row o o' Hs Hnd H).
Qed.
End RowValues.

Lemma foldl_insert_inv (d : gmap string value) (l : list (string * value)) (k : string)
    (v : value) :
  foldl (λ d kv, <[kv.1 := kv.2]> d) d l !! k = Some v → d !! k = Some v ∨ (k, v) ∈ l.
Proof.
  revert d. induction l as [|[k0 v0] l IH]; intros d H; simpl in H; [by left|].
  destruct (IH _ H) as [Hd|Hin]; [|right; by right].
  simpl in Hd. destruct (decide (k0 = k)) as [->|Hne].
  - rewrite lookup_insert_eq in Hd. injection Hd as ->. right. by left.
  - rewrite lookup_insert_ne in Hd by done. by left.
Qed.

(** Each entry of [dict(zip(keys, vals))] comes from a position of the
    two lists. *)
Lemma dict_zip_inv (keys : list string) (vals : list value) (k : string) (v : value) :
  dict_zip keys vals !! k = Some v → ∃ j, keys !! j = Some k ∧ vals !! j = Some v.
Proof.
  intros H. apply foldl_insert_inv in H as [H|H]; [by rewrite lookup_empty in H|].
  apply list_elem_of_lookup in H as [j Hj]. exists j.
  unfold zip in Hj. apply lookup_zip_with_Some in Hj as (x & y & [= -> ->] & ? & ?). done.
Qed.

Section RowObjects.
Context (sch : schema) (db : database) (self : queryset).

(** The columns of the fields: [row[index_start:aggregate_start]]. *)
Lemma field_columns_lookup (row : list value) (j : nat) :
  take (aggregate_start sch self - index_start self) (drop (index_start self) row) !! j
  = if decide (index_start self + j < aggregate_start sch self)%nat
    then row !! (index_start self + j)%nat else None.
Proof.
  destruct (decide (index_start self + j < aggregate_start sch self)%nat) as [Hlt|Hge].
  - rewrite lookup_take_lt by lia. by rewrite lookup_drop.
  - apply lookup_take_ge. lia.
Qed.

Lemma init_list_attnames (a : string) :
  a ∈ init_list sch self → a ∈ attnames sch (model self).
Proof.
  unfold init_list, attnames. intros (f & -> & Hf)%list_elem_of_fmap.
  apply list_elem_of_filter in Hf as [_ Hf].
  apply elem_of_list_to_set, list_elem_of_fmap. by exists f.
Qed.

Lemma skip_attnames (a : string) : a ∈ skip sch self → a ∈ attnames sch (model self).
Proof.
  unfold skip, attnames. intros (f & -> & Hf)%elem_of_list_to_set%list_elem_of_fmap.
  apply list_elem_of_filter in Hf as [_ Hf].
  apply elem_of_list_to_set, list_elem_of_fmap. by exists f.
Qed.

(** The steps of [object_of_row] when the row is not built by
    [get_cached_row]. *)
Lemma object_of_row_inv (row : list value) (bo : obj) :
  select_related self = false →
  object_of_row sch db self row = Ok bo →
  ∃ (i : Z) (m : string) (pk : value) (o2 : obj),
    let kwargs := dict_zip (init_list sch self)
                    (take (aggregate_start sch self - index_start self)
                          (drop (index_start self) row)) in
    let bulk_skip :=
      (attnames sch m ∖ attnames sch (model self)) ∖ {[meta_pk_attname sch m]} in
    let model_cls := if decide (skip sch self = ∅ ∧ bulk_skip = ∅) then Plain m
                     else deferred_class_factory m (skip sch self) bulk_skip in
    kwargs !! "polymorphic_ctype_id" = Some (VInt i)
    ∧ get_for_id sch i = Some m
    ∧ kwargs !! meta_pk_attname sch (model self) = Some pk
    ∧ dom (<[meta_pk_attname sch m := pk]> kwargs) ⊆ attnames sch m
    ∧ set_from_row sch (extra_select self) 0 row
        (init_fields sch model_cls (<[meta_pk_attname sch m := pk]> kwargs)) = Ok o2
    ∧ set_from_row sch (aggregate_select self) (aggregate_start sch self) row o2 = Ok bo.
Proof.
  intros Hsr. unfold object_of_row, fill_cache. rewrite Hsr.
  destruct (dict_zip _ _ !! "polymorphic_ctype_id") as [ct|] eqn:Ect; simpl; [|done].
  destruct ct as [|i| |]; simpl; try done.
  destruct (get_for_id sch i) as [m|] eqn:Em; simpl; [|done].
  destruct (dict_zip _ _ !! meta_pk_attname sch (model self)) as [pk|] eqn:Epk; simpl; [|done].
  unfold model_init.
  match goal with |- context [decide (dom ?d ⊆ ?s)] => destruct (decide (dom d ⊆ s)) as [Hdom|] end;
    simpl; [|done].
  match goal with
  | |- context [set_from_row sch (extra_select self) 0 row ?o] =>
      destruct (set_from_row sch (extra_select self) 0 row o) as [o2|] eqn:E2
  end; simpl; [|done].
  intros E3. exists i, m, pk, o2. simpl.
  repeat split; try done.
  - clear -Hdom. by destruct (decide _).
Qed.

(** X12.  The content type of a row is read from the loaded columns.  When
    an [only()] or [defer()] clause leaves the field of the content type
    out of the fields to load, no row makes an object: each raises the
    [KeyError] of [polymorphic_ctype_id]. *)
Theorem only_must_load_the_content_type (row : list value) :
  select_related self = false →
  load_fields sch self ≠ [] →
  (∀ f, f ∈ meta_fields sch (model self) → f_attname f = "polymorphic_ctype_id" →
        f_name f ∉ load_fields sch self) →
  object_of_row sch db self row = Raise (KeyErrorName "polymorphic_ctype_id").
Proof.
  intros Hsr Hne Hct. unfold object_of_row, fill_cache. rewrite Hsr.
  rewrite dict_zip_None; [done|].
  unfold init_list. intros (f & Hf & Hin)%list_elem_of_fmap.
  apply list_elem_of_filter in Hin as [Hns Hin]. apply Hns. split; [done|].
  by apply Hct.
Qed.

(** The class that a row is made an object of, and its model. *)
Lemma row_class_model (m : string) (bulk_skip : gset string) :
  klass_model (if decide (skip sch self = ∅ ∧ bulk_skip = ∅) then Plain m
               else deferred_class_factory m (skip sch self) bulk_skip) = m.
Proof. by destruct (decide _). Qed.

(** No keyword of the constructor names a bulk-deferred field. *)
Lemma row_keywords_not_deferred (m : string) (pk : value) (vals : list value) (n : string) :
  let bulk_skip :=
    (attnames sch m ∖ attnames sch (model self)) ∖ {[meta_pk_attname sch m]} in
  is_Some (<[meta_pk_attname sch m := pk]> (dict_zip (init_list sch self) vals) !! n) →
  is_bulk_deferred (if decide (skip sch self = ∅ ∧ bulk_skip = ∅) then Plain m
                    else deferred_class_factory m (skip sch self) bulk_skip) n = false.
Proof.
  intros bulk_skip Hn. destruct (decide _); [done|]. simpl.
  apply bool_decide_eq_false. intros [Hb _]%elem_of_difference.
  unfold bulk_skip in Hb. apply elem_of_difference in Hb as [Hb Hpk].
  apply elem_of_difference in Hb as [_ Hbase].
  destruct (decide (n = meta_pk_attname sch m)) as [->|Hne].
  - apply Hpk. by apply elem_of_singleton.
  - rewrite lookup_insert_ne in Hn by done.
    apply Hbase, init_list_attnames. by apply dict_zip_is_Some in Hn.
Qed.

(** X14.  The object that [_iterator] makes of a row holds the columns of
    the row under the names of the fields that are loaded, and its primary
    key is the value of the column of the primary key of the base model. *)
Theorem object_of_row_holds_the_columns (row : list value) (bo : obj) :
  select_related self = false →
  NoDup (init_list sch self) →
  Forall (stored_directly sch) (extra_select self ++ aggregate_select self) →
  NoDup (extra_select self) → NoDup (aggregate_select self) →
  object_of_row sch db self row = Ok bo →
  let m := klass_model (o_class bo) in
  (meta_pk_attname sch m ∉ extra_select self ++ aggregate_select self →
   ∃ j pk, init_list sch self !! j = Some (meta_pk_attname sch (model self))
           ∧ row !! (index_start self + j)%nat = Some pk
           ∧ get_pk sch bo = Ok pk)
  ∧ ∀ j a v,
      init_list sch self !! j = Some a →
      (index_start self + j < aggregate_start sch self)%nat →
      row !! (index_start self + j)%nat = Some v →
      a ≠ meta_pk_attname sch m →
      a ∉ extra_select self ++ aggregate_select self →
      o_dict bo !! a = Some v.
Proof.
  intros Hsr Hndi [Hse Hsa]%Forall_app Hnde Hnda Hrow.
  destruct (object_of_row_inv row bo Hsr Hrow) as (i & m0 & pk & o2 & H).
  cbv zeta in H. destruct H as (Hct & Hm & Hpk & Hdom & E2 & E3).
  destruct (set_from_row_lookup sch _ _ _ _ _ Hse Hnde E2) as (Hc2 & Hk2 & _).
  destruct (set_from_row_lookup sch _ _ _ _ _ Hsa Hnda E3) as (Hc3 & Hk3 & _).
  rewrite init_fields_class in Hc2.
  assert (Hm0 : klass_model (o_class bo) = m0).
  { rewrite Hc3, Hc2. apply row_class_model. }
  intros m. subst m. rewrite Hm0.
  set (vals := take (aggregate_start sch self - index_start self)
                    (drop (index_start self) row)) in *.
  pose proof (row_keywords_not_deferred m0 pk vals) as Hkw. cbv zeta in Hkw.
  assert (Hheld : ∀ a v, <[meta_pk_attname sch m0 := pk]> (dict_zip (init_list sch self) vals)
                           !! a = Some v →
            a ∉ extra_select self ++ aggregate_select self → o_dict bo !! a = Some v).
  { intros a v Ha Hn. rewrite elem_of_app in Hn.
    rewrite Hk3, Hk2 by tauto. apply init_fields_keyword; [exact Hkw|done|].
    rewrite row_class_model. apply Hdom. apply elem_of_dom. by eexists. }
  split.
  - intros Hn. apply dict_zip_inv in Hpk as (j & Hj & Hv).
    unfold vals in Hv. rewrite field_columns_lookup in Hv.
    destruct (decide (index_start self + j < aggregate_start sch self)%nat); [|done].
    exists j, pk. split; [done|]. split; [done|].
    unfold get_pk, getattr. rewrite Hm0.
    rewrite (Hheld (meta_pk_attname sch m0) pk); [done| |done].
    by rewrite lookup_insert_eq.
  - intros j a v Hj Hlt Hv Hne Hn. apply Hheld; [|done].
    rewrite lookup_insert_ne by done. apply (dict_zip_Some _ _ j); [done|done|].
    unfold vals. rewrite field_columns_lookup. by rewrite decide_True.
Qed.

(** The two loops at the end of [object_of_row]. *)
Lemma object_of_row_tail (row : list value) (bo : obj) :
  object_of_row sch db self row = Ok bo →
  ∃ o1 o2, set_from_row sch (extra_select self) 0 row o1 = Ok o2
           ∧ set_from_row sch (aggregate_select self) (aggregate_start sch self) row o2 = Ok bo.
Proof.
  unfold object_of_row.
  match goal with |- res_bind ?x _ = _ → _ => destruct x as [o1|] end; simpl; [|done].
  destruct (set_from_row sch (extra_select self) 0 row o1) as [o2|] eqn:E2; simpl; [|done].
  intros E3. by exists o1, o2.
Qed.

(** X15.  The object that [_iterator] makes of a row carries the
    extra-select values and the aggregates of the row: the extra-select
    values are the first columns, the aggregates are the columns after those
    of the fields. *)
Theorem object_of_row_holds_the_annotations (row : list value) (bo : obj) :
  Forall (stored_directly sch) (extra_select self ++ aggregate_select self) →
  NoDup (extra_select self) → NoDup (aggregate_select self) →
  object_of_row sch db self row = Ok bo →
  (∀ i k, aggregate_select self !! i = Some k →
     ∃ v, row !! (i + aggregate_start sch self)%nat = Some v ∧ getattr bo k = Ok v)
  ∧ (∀ i k, extra_select self !! i = Some k → k ∉ aggregate_select self →
       ∃ v, row !! i = Some v ∧ getattr bo k = Ok v).
Proof.
  intros [Hse Hsa]%Forall_app Hnde Hnda Hrow.
  destruct (object_of_row_tail row bo Hrow) as (o1 & o2 & E2 & E3).
  destruct (set_from_row_lookup sch _ _ _ _ _ Hse Hnde E2) as (_ & _ & Hg2).
  destruct (set_from_row_lookup sch _ _ _ _ _ Hsa Hnda E3) as (_ & Hk3 & Hg3).
  split.
  - intros i k Hi. destruct (Hg3 i k Hi) as (v & Hv & Ho). exists v. split; [done|].
    unfold getattr. by rewrite Ho.
  - intros i k Hi Hn. destruct (Hg2 i k Hi) as (v & Hv & Ho). exists v.
    rewrite Nat.add_0_r in Hv. split; [done|].
    unfold getattr. by rewrite Hk3, Ho.
Qed.
End RowObjects.

(** No field of the sample is a descriptor of its own. *)
Lemma sample_stored_directly (n : string) : stored_directly Sample.sch n.
Proof.
  intros m f Hf _. unfold Sample.sch in Hf. simpl in Hf.
  destruct (decide (m = "B")); unfold Sample.fieldsB, Sample.fieldsA in Hf;
    repeat (apply elem_of_cons in Hf as [->|Hf] || apply elem_of_app in Hf as [Hf|Hf]);
    try done; by apply elem_of_nil in Hf.
Qed.

Lemma sample_all_stored_directly (names : list string) :
  Forall (stored_directly Sample.sch) names.
Proof. apply Forall_forall. intros n _. apply sample_stored_directly. Qed.

(** ** The class that a row records *)

Section RowClass.
Context (sch : schema) (db : database) (self : queryset).

Lemma list_find_NoDup (l : list string) (j : nat) (a : string) :
  NoDup l → l !! j = Some a → list_find (λ x, x = a) l = Some (j, a).
Proof.
  intros Hnd Hj. apply list_find_Some. split; [done|]. split; [done|].
  intros i y Hi Hlt ->. assert (i = j) by (by eapply NoDup_lookup). lia.
Qed.

(** The keyword of the content type is the content type of the row. *)
Lemma row_content_type_keyword (row : list value) (v : value) :
  NoDup (init_list sch self) →
  dict_zip (init_list sch self)
    (take (aggregate_start sch self - index_start self) (drop (index_start self) row))
    !! "polymorphic_ctype_id" = Some v →
  row_content_type sch self row = Some v.
Proof.
  intros Hnd (j & Hj & Hv)%dict_zip_inv. rewrite field_columns_lookup in Hv.
  unfold row_content_type. rewrite (list_find_NoDup _ j _ Hnd Hj). simpl.
  by destruct (decide _).
Qed.

(** What [_iterator] makes of a row: the class is read from the content
    type of the row, the object holds the content type, and it holds none
    of the fields that only this class has. *)
Lemma object_of_row_recorded (row : list value) (bo : obj) :
  select_related self = false →
  NoDup (init_list sch self) →
  Forall (stored_directly sch) (extra_select self ++ aggregate_select self) →
  NoDup (extra_select self) → NoDup (aggregate_select self) →
  object_of_row sch db self row = Ok bo →
  ∃ ct m,
    row_content_type sch self row = Some (VInt ct)
    ∧ get_for_id sch ct = Some m
    ∧ o_class bo = (if decide (skip sch self = ∅ ∧ subclass_only sch self m = ∅) then Plain m
                    else deferred_class_factory m (skip sch self) (subclass_only sch self m))
    ∧ (meta_pk_attname sch m ≠ "polymorphic_ctype_id" →
       "polymorphic_ctype_id" ∉ extra_select self ++ aggregate_select self →
       o_dict bo !! "polymorphic_ctype_id" = Some (VInt ct))
    ∧ is_Some (o_dict bo !! meta_pk_attname sch m) 
    ∧ (∀ a, a ∈ subclass_only sch self m → a ∉ extra_select self →
            a ∉ aggregate_select self → o_dict bo !! a = None).
Proof.
  intros Hsr Hndi [Hse Hsa]%Forall_app Hnde Hnda Hrow.
  destruct (object_of_row_inv sch db self row bo Hsr Hrow) as (i & m & pk & o2 & H).
  cbv zeta in H. destruct H as (Hct & Hm & Hpk & Hdom & E2 & E3).
  destruct (set_from_row_lookup sch _ _ _ _ _ Hse Hnde E2) as (Hc2 & Hk2 & Hg2).
  destruct (set_from_row_lookup sch _ _ _ _ _ Hsa Hnda E3) as (Hc3 & Hk3 & Hg3).
  rewrite init_fields_class in Hc2.
  set (vals := take (aggregate_start sch self - index_start self)
                    (drop (index_start self) row)) in *.
  pose proof (row_keywords_not_deferred sch self m pk vals) as Hkw. cbv zeta in Hkw.
  assert (Hheld : ∀ a v, <[meta_pk_attname sch m := pk]> (dict_zip (init_list sch self) vals)
                           !! a = Some v →
            a ∉ extra_select self ++ aggregate_select self → o_dict bo !! a = Some v).
  { intros a v Ha Hn. rewrite elem_of_app in Hn.
    rewrite Hk3, Hk2 by tauto. apply init_fields_keyword; [exact Hkw|done|].
    rewrite row_class_model. apply Hdom. apply elem_of_dom. by eexists. }
  exists i, m. split; [by apply row_content_type_keyword|]. split; [done|].
  split; [unfold subclass_only; congruence|]. split; [|split].
  - intros Hne Hn. apply Hheld; [|done]. by rewrite lookup_insert_ne.
  - destruct (decide (meta_pk_attname sch m ∈ aggregate_select self)) as [Hin|Hnin].
    { apply list_elem_of_lookup in Hin as [j Hj]. destruct (Hg3 j _ Hj) as (v & _ & Hv).
      by eexists. }
    rewrite Hk3 by done.
    destruct (decide (meta_pk_attname sch m ∈ extra_select self)) as [Hin|Hnin2].
    { apply list_elem_of_lookup in Hin as [j Hj]. destruct (Hg2 j _ Hj) as (v & _ & Hv).
      by eexists. }
    rewrite Hk2 by done. exists pk. apply init_fields_keyword; [exact Hkw| |].
    + by rewrite lookup_insert_eq.
    + rewrite row_class_model. apply Hdom. apply elem_of_dom. rewrite lookup_insert_eq.
      by eexists.
  - intros a Ha Hne Hna. unfold subclass_only in Ha.
    assert (Hbase : a ∉ attnames sch (model self)).
    { apply elem_of_difference in Ha as [Ha _]. by apply elem_of_difference in Ha as [_ ?]. }
    assert (Hapk : a ≠ meta_pk_attname sch m).
    { apply elem_of_difference in Ha as [_ Ha]. intros ->. apply Ha. by apply elem_of_singleton. }
    rewrite Hk3, Hk2 by done.
    apply init_fields_absent.
    + exact Hkw.
    + rewrite lookup_insert_ne by done. apply dict_zip_None.
      intros Hin. by apply Hbase, init_list_attnames.
    + rewrite decide_False.
      2:{ intros [_ He]. rewrite He in Ha. by apply elem_of_empty in Ha. }
      simpl. apply bool_decide_eq_true, elem_of_union. by right.
Qed.

(** X13.  The object that [_iterator] makes of a row is an instance of the
    class that the content type of the row records, the column of the field
    [polymorphic_ctype_id], or of a deferred class over that class: the
    fields that only this class has, its primary key apart, are
    bulk-deferred.  The object does not hold them, and its class has the
    bulk-deferred descriptor for each of them, so that the first access
    loads them. *)
Theorem object_of_row_defers_the_subclass_fields (row : list value) (bo : obj) :
  select_related self = false →
  NoDup (init_list sch self) →
  Forall (stored_directly sch) (extra_select self ++ aggregate_select self) →
  NoDup (extra_select self) → NoDup (aggregate_select self) →
  object_of_row sch db self row = Ok bo →
  ∃ (j : nat) (ct : Z) (m : string),
    init_list sch self !! j = Some "polymorphic_ctype_id"
    ∧ row !! (index_start self + j)%nat = Some (VInt ct)
    ∧ get_for_id sch ct = Some m
    ∧ klass_model (o_class bo) = m
    ∧ let bulk_skip :=
        (attnames sch m ∖ attnames sch (model self)) ∖ {[meta_pk_attname sch m]} in
      o_class bo = (if decide (skip sch self = ∅ ∧ bulk_skip = ∅) then Plain m
                    else deferred_class_factory m (skip sch self) bulk_skip)
      ∧ ∀ a, a ∈ bulk_skip → a ∉ extra_select self → a ∉ aggregate_select self →
          is_bulk_deferred (o_class bo) a = true ∧ o_dict bo !! a = None.
Proof.
  intros Hsr Hndi Hs Hnde Hnda Hrow.
  destruct (object_of_row_recorded row bo Hsr Hndi Hs Hnde Hnda Hrow)
    as (ct & m & Hct & Hm & Hcls & _ & _ & Hnone).
  unfold row_content_type in Hct.
  destruct (list_find _ (init_list sch self)) as [[j a]|] eqn:Ej; [|done]. simpl in Hct.
  apply list_find_Some in Ej as (Hj & -> & _).
  destruct (decide (index_start self + j < aggregate_start sch self)%nat); [|done].
  exists j, ct, m. split; [done|]. split; [done|]. split; [done|].
  split; [rewrite Hcls; apply row_class_model|].
  cbv zeta. split; [exact Hcls|].
  intros a Ha Hne Hna. split; [|by apply Hnone].
  rewrite Hcls. unfold subclass_only. rewrite decide_False.
  2:{ intros [_ He]. rewrite He in Ha. by apply elem_of_empty in Ha. }
  simpl. apply bool_decide_eq_true. apply elem_of_difference. split; [done|].
  intros Hsk. apply skip_attnames in Hsk.
  apply elem_of_difference in Ha as [Ha _]. by apply elem_of_difference in Ha as [_ ?].
Qed.
End RowClass.

(** On the sample: a row that was saved as [B]. *)
Lemma object_of_row_defers_the_subclass_fields_witness :
  ∃ bo,
    object_of_row Sample.sch (Sample.db []) Sample.qs [VInt 2; VInt 2; VStr "b"] = Ok bo
    ∧ klass_model (o_class bo) = "B"
    ∧ is_bulk_deferred (o_class bo) "field2" = true
    ∧ o_dict bo !! "field2" = None.
Proof.
  destruct (object_of_row Sample.sch (Sample.db []) Sample.qs [VInt 2; VInt 2; VStr "b"])
    as [bo|] eqn:E; [|vm_compute in E; discriminate].
  exists bo. split; [done|].
  destruct (object_of_row_defers_the_subclass_fields Sample.sch (Sample.db []) Sample.qs
              [VInt 2; VInt 2; VStr "b"] bo)
    as (j & ct & m & Hj & Hct & Hm & Hcls & _ & Hdef).
  - reflexivity.
  - apply (bool_decide_unpack _). vm_compute. exact I.
  - apply sample_all_stored_directly.
  - apply NoDup_nil_2.
  - apply NoDup_nil_2.
  - exact E.
  - assert (Hl : init_list Sample.sch Sample.qs = ["id"; "polymorphic_ctype_id"; "field1"])
      by (vm_compute; reflexivity).
    rewrite Hl in Hj.
    destruct j as [|[|[|j]]]; simpl in Hj; try discriminate Hj.
    vm_compute in Hct. injection Hct as <-.
    vm_compute in Hm. injection Hm as <-.
    split; [exact Hcls|].
    apply Hdef.
    + apply (bool_decide_unpack _). vm_compute. exact I.
    + apply not_elem_of_nil.
    + apply not_elem_of_nil.
Defined.

(** On the sample, with [only("id", "field1")]. *)
Lemma only_must_load_the_content_type_witness :
  load_fields Sample.sch SampleOnly.qs = ["id"; "field1"]
  ∧ object_of_row Sample.sch (Sample.db []) SampleOnly.qs [VInt 1; VStr "a"]
    = Raise (KeyErrorName "polymorphic_ctype_id").
Proof.
  assert (Hl : load_fields Sample.sch SampleOnly.qs = ["id"; "field1"])
    by (vm_compute; reflexivity).
  split; [exact Hl|].
  apply (only_must_load_the_content_type Sample.sch (Sample.db []) SampleOnly.qs).
  - reflexivity.
  - by rewrite Hl.
  - intros f Hf Ha. rewrite Hl.
    change (meta_fields Sample.sch (model SampleOnly.qs)) with Sample.fieldsA in Hf.
    unfold Sample.fieldsA in Hf.
    repeat (apply elem_of_cons in Hf as [->|Hf]); try discriminate Ha.
    + simpl. intros Hin. repeat (apply elem_of_cons in Hin as [Hin|Hin]); try discriminate.
      by apply elem_of_nil in Hin.
    + by apply elem_of_nil in Hf.
Defined.

(** On the sample: a row that was saved as [B]. *)
Lemma object_of_row_holds_the_columns_witness :
  ∃ bo,
    object_of_row Sample.sch (Sample.db []) Sample.qs [VInt 2; VInt 2; VStr "b"] = Ok bo
    ∧ get_pk Sample.sch bo = Ok (VInt 2)
    ∧ o_dict bo !! "field1" = Some (VStr "b").
Proof.
  destruct (object_of_row Sample.sch (Sample.db []) Sample.qs [VInt 2; VInt 2; VStr "b"])
    as [bo|] eqn:E; [|vm_compute in E; discriminate].
  exists bo. split; [done|].
  assert (Hm : klass_model (o_class bo) = "B").
  { vm_compute in E. by injection E as <-. }
  destruct (object_of_row_holds_the_columns Sample.sch (Sample.db []) Sample.qs
              [VInt 2; VInt 2; VStr "b"] bo) as [Hpk Hcol].
  - reflexivity.
  - apply (bool_decide_unpack _). vm_compute. exact I.
  - apply sample_all_stored_directly.
  - apply NoDup_nil_2.
  - apply NoDup_nil_2.
  - exact E.
  - split.
    + destruct Hpk as (j & pk & Hj & Hv & Hget); [apply not_elem_of_nil|].
      rewrite Hget. f_equal.
      assert (Hl : init_list Sample.sch Sample.qs = ["id"; "polymorphic_ctype_id"; "field1"])
        by (vm_compute; reflexivity).
      rewrite Hl in Hj. change (meta_pk_attname Sample.sch (model Sample.qs)) with "id" in Hj.
      destruct j as [|[|[|j]]]; simpl in Hj; try discriminate Hj.
      vm_compute in Hv. by injection Hv as <-.
    + apply (Hcol 2%nat "field1" (VStr "b")).
      * reflexivity.
      * vm_compute. lia.
      * reflexivity.
      * by rewrite Hm.
      * apply not_elem_of_nil.
Defined.

(** On the sample, with an extra-select value [x] and an aggregate [cnt]. *)
Lemma object_of_row_holds_the_annotations_witness :
  ∃ bo,
    object_of_row Sample.sch (Sample.db []) Sample.qs_annotated
      [VInt 11; VInt 2; VInt 2; VStr "b"; VInt 20] = Ok bo
    ∧ getattr bo "cnt" = Ok (VInt 20)
    ∧ getattr bo "x" = Ok (VInt 11).
Proof.
  destruct (object_of_row Sample.sch (Sample.db []) Sample.qs_annotated
              [VInt 11; VInt 2; VInt 2; VStr "b"; VInt 20])
    as [bo|] eqn:E; [|vm_compute in E; discriminate].
  exists bo. split; [done|].
  destruct (object_of_row_holds_the_annotations Sample.sch (Sample.db []) Sample.qs_annotated
              [VInt 11; VInt 2; VInt 2; VStr "b"; VInt 20] bo) as [Hagg Hext].
  - apply sample_all_stored_directly.
  - apply (bool_decide_unpack _). vm_compute. exact I.
  - apply (bool_decide_unpack _). vm_compute. exact I.
  - exact E.
  - split.
    + destruct (Hagg 0%nat "cnt" eq_refl) as (v & Hv & Hg).
      vm_compute in Hv. injection Hv as <-. exact Hg.
    + destruct (Hext 0%nat "x" eq_refl) as (v & Hv & Hg).
      * apply (bool_decide_unpack _). vm_compute. exact I.
      * vm_compute in Hv. injection Hv as <-. exact Hg.
Defined.

(** ** The proxy set-up of the metaclass *)

Module ProxyProofs.
Import ProxySetup.

Lemma no_field_filter (l : list (string * member)) :
  filter (λ kv, kv.2 = Field) l = [] ↔ Forall (λ kv, kv.2 ≠ Field) l.
Proof.
  induction l as [|kv l IH]; [by rewrite filter_nil|].
  rewrite filter_cons, Forall_cons. destruct (decide (kv.2 = Field)) as [He|Hn].
  - split; [done|]. by intros [? _].
  - rewrite IH. tauto.
Qed.

(** X16.  A new class is set up as a proxy exactly when its [Meta] is not
    abstract, exactly one of its parent model classes has [_meta], this
    parent is not an abstract class with fields, and the class body
    declares no field.  The class body that the host gets then has a [Meta]
    that sets [proxy] and keeps every other attribute of the [Meta] of the
    class; in every other case the class body is handed on as it is. *)
Theorem proxy_is_set_up_for_a_single_parent (bases : list base) (attrs : class_body) :
  (is_proxy bases attrs = true
   ↔ Meta_abstract attrs = false
     ∧ (∃ p, omap _meta (parents bases) = [p] ∧ (abstract p = true → fields p = []))
     ∧ Forall (λ kv, kv.2 ≠ Field) (members attrs))
  ∧ (is_proxy bases attrs = true →
     ∃ d, Meta (setup_proxy bases attrs) = Some d
          ∧ d !! "proxy" = Some true
          ∧ (∀ n, n ≠ "proxy" → d !! n = Meta attrs ≫= λ d0, d0 !! n)
          ∧ members (setup_proxy bases attrs) = members attrs)
  ∧ (is_proxy bases attrs = false → setup_proxy bases attrs = attrs).
Proof.
  split; [|split].
  - unfold is_proxy. destruct (parents bases) as [|b0 bs] eqn:Ep.
    { split; [done|]. by intros (_ & (p & Hp & _) & _). }
    rewrite <- Ep. clear Ep b0 bs.
    destruct (Meta_abstract attrs); [split; [done|by intros [? _]]|].
    destruct (omap _meta (parents bases)) as [|p [|q rest]]; simpl.
    + split; [done|]. by intros (_ & (p & Hp & _) & _).
    + destruct (abstract p) eqn:Ea; simpl.
      * case_bool_decide as Hf; simpl.
        -- split; [done|]. intros (_ & (p' & [= <-] & Hp) & _). exfalso. by apply Hf, Hp.
        -- destruct (filter _ (members attrs)) as [|x l] eqn:Em.
           ++ split; [|done]. intros _. split; [done|]. split.
              ** exists p. split; [done|]. intros _.
                 destruct (decide (fields p = [])) as [|Hn]; [done|]. by destruct Hf.
              ** by apply no_field_filter.
           ++ split; [done|]. intros (_ & _ & Hm). apply no_field_filter in Hm. congruence.
      * destruct (filter _ (members attrs)) as [|x l] eqn:Em.
        -- split; [|done]. intros _. split; [done|]. split.
           ++ exists p. split; [done|]. by rewrite Ea.
           ++ by apply no_field_filter.
        -- split; [done|]. intros (_ & _ & Hm). apply no_field_filter in Hm. congruence.
    + destruct (abstract p && bool_decide (fields p ≠ [])); simpl.
      * split; [done|]. by intros (_ & (p0 & ? & _) & _).
      * destruct (abstract q && bool_decide (fields q ≠ [])); simpl;
          (split; [done|]; by intros (_ & (p0 & ? & _) & _)).
  - intros Hp. unfold setup_proxy. rewrite Hp. simpl.
    eexists. split; [done|]. split; [by rewrite lookup_insert_eq|]. split; [|done].
    intros n Hn. rewrite lookup_insert_ne by done. by destruct (Meta attrs).
  - intros Hp. unfold setup_proxy. by rewrite Hp.
Qed.

(** A class with one concrete polymorphic parent and no field of its own
    is made a proxy; with a field of its own it is not. *)
Example proxy_set_up_sample :
  let parent := {| base_name := "Model2A"; is_ModelBase := true;
                   _meta := Some {| abstract := false; fields := ["id"; "field1"] |} |} in
  let object := {| base_name := "object"; is_ModelBase := false; _meta := None |} in
  is_proxy [parent; object] {| Meta := None; members := [("__module__", Other)] |} = true
  ∧ is_proxy [parent; object] {| Meta := None; members := [("field2", Field)] |} = false.
Proof. done. Qed.

End ProxyProofs.

(** ** The managers of a new class *)

Module ManagerProofs.
Import Base BaseSpec ManagerSpec.

(** The least element of the list of [(creation_counter, key, manager)]. *)
Lemma first_of_spec (l : list (nat * string * manager)) :
  match first_of l with
  | None => l = []
  | Some m => ∃ x : nat * string * manager,
                x ∈ l ∧ x.2 = m ∧ ∀ y : nat * string * manager, y ∈ l → (x.1.1 ≤ y.1.1)%nat
  end.
Proof.
  unfold first_of.
  match goal with |- context [foldr ?f None l] => set (best := foldr f None) end.
  assert (H : match best l with
              | None => l = []
              | Some x => x ∈ l ∧ ∀ y : nat * string * manager, y ∈ l → (x.1.1 ≤ y.1.1)%nat
              end).
  { induction l as [|x l IH]; [done|]. unfold best in *. simpl.
    destruct (foldr _ None l) as [y|].
    - destruct IH as [Hy Hmin].
      destruct (decide _) as [Hlt|Hge].
      + split; [by left|]. intros z [->|Hz]%elem_of_cons; [done|].
        specialize (Hmin z Hz). lia.
      + split; [by right|]. intros z [->|Hz]%elem_of_cons; [|by apply Hmin].
        destruct (decide (x.1.1 < y.1.1)%nat); [exfalso; apply Hge; by left|]. lia.
    - subst l. split; [by left|]. by intros z ->%list_elem_of_singleton. }
  destruct (best l) as [x|]; simpl; [|done].
  destruct H as [Hx Hmin]. by exists x.
Qed.

(** Bound to a class, [get_first_user_defined_manager] gives no manager
    exactly when the dictionary of that class holds none; otherwise it gives
    a manager of that dictionary whose creation counter is the least of all
    of them: the manager that was declared first. *)
Lemma first_user_defined_manager_is_the_oldest (self : list (string * class_attr)) :
  (get_first_user_defined_manager self = None
   ↔ ∀ key a, (key, a) ∈ self → manager_of a = None)
  ∧ ∀ m, get_first_user_defined_manager self = Some m →
      (∃ key a, (key, a) ∈ self ∧ manager_of a = Some m)
      ∧ ∀ key a m', (key, a) ∈ self → manager_of a = Some m' →
          (creation_counter m ≤ creation_counter m')%nat.
Proof.
  unfold get_first_user_defined_manager.
  set (l := omap (λ kv : string * class_attr,
                    (λ m, (creation_counter m, kv.1, m)) <$> manager_of kv.2) self).
  assert (Hl : ∀ x, x ∈ l ↔ ∃ key a m, (key, a) ∈ self ∧ manager_of a = Some m
                                       ∧ x = (creation_counter m, key, m)).
  { intros x. unfold l. rewrite list_elem_of_omap. split.
    - intros ([key a] & Hin & Hx). simpl in Hx.
      destruct (manager_of a) as [m|] eqn:E; [|done]. injection Hx as <-.
      by exists key, a, m.
    - intros (key & a & m & Hin & Hm & ->). exists (key, a). split; [done|]. simpl.
      by rewrite Hm. }
  pose proof (first_of_spec l) as Hspec. split.
  - destruct (first_of l) as [m|].
    + split; [done|]. intros Hnone. destruct Hspec as (x & Hx & _).
      apply Hl in Hx as (key & a & m0 & Hin & Hm & _). by rewrite (Hnone key a Hin) in Hm.
    + split; [|done]. intros _ key a Hin.
      destruct (manager_of a) as [m|] eqn:Hm; [|done].
      assert (Hx : (creation_counter m, key, m) ∈ l) by (apply Hl; by exists key, a, m).
      rewrite Hspec in Hx. by apply elem_of_nil in Hx.
  - intros m Hm. rewrite Hm in Hspec. destruct Hspec as (x & Hx & <- & Hmin).
    apply Hl in Hx as (key & a & m0 & Hin & Hm0 & ->). simpl in *. split.
    + by exists key, a.
    + intros key' a' m' Hin' Hm'.
      apply (Hmin (creation_counter m', key', m')). apply Hl. by exists key', a', m'.
Qed.

(** X17.  [get_first_user_defined_manager] is a class method of the
    metaclass, and [__new__] calls it on the new class, an instance of the
    metaclass: the call binds it to the metaclass.  Bound to a class it
    gives the oldest manager of the dictionary of that class and none when
    there is no manager in it; the dictionary of the metaclass holds none,
    so the call gives [None] whatever managers the new class declares, the
    branch that would make a user-defined manager the default manager is
    never taken, and the class leaves [__new__] with the default manager
    that it has once the inherited managers are added. *)
Theorem user_defined_managers_are_looked_up_on_the_metaclass
    (_copy_to_model : manager → new_class → manager)
    (add_to_class : new_class → string → manager → new_class)
    (c : new_class) (inherited : list (string * string * manager)) :
  (∀ key a, (key, a) ∈ PolymorphicModelBase_dict → manager_of a = None)
  ∧ get_first_user_defined_manager PolymorphicModelBase_dict = None
  ∧ with_managers _copy_to_model add_to_class c inherited
    = foldl (λ c x, add_to_class c x.1.2 (_copy_to_model x.2 c)) c inherited
  ∧ ∀ self : list (string * class_attr),
      (get_first_user_defined_manager self = None
       ↔ ∀ key a, (key, a) ∈ self → manager_of a = None)
      ∧ ∀ m, get_first_user_defined_manager self = Some m →
          (∃ key a, (key, a) ∈ self ∧ manager_of a = Some m)
          ∧ ∀ key a m', (key, a) ∈ self → manager_of a = Some m' →
              (creation_counter m ≤ creation_counter m')%nat.
Proof.
  assert (Hnone : ∀ key a, (key, a) ∈ PolymorphicModelBase_dict → manager_of a = None).
  { intros key a Hin. unfold PolymorphicModelBase_dict in Hin.
    apply list_elem_of_fmap in Hin as (k & [= _ ->] & _). done. }
  assert (Hget : get_first_user_defined_manager PolymorphicModelBase_dict = None)
    by (by apply first_user_defined_manager_is_the_oldest).
  split; [done|]. split; [done|]. split.
  - unfold with_managers. by rewrite Hget.
  - apply first_user_defined_manager_is_the_oldest.
Qed.

(** The sample class declares two managers of its own, [objects] before
    [mine]: bound to that class the method would find [objects], but
    [__new__] leaves the class as it is. *)
Example first_user_defined_manager_sample :
  get_first_user_defined_manager (nc_dict two_bases) = Some poly_manager
  ∧ with_managers sample_copy sample_add two_bases [] = two_bases.
Proof. split; reflexivity. Qed.

(** *** The traversal of the bases *)

Lemma taken_over_Some (attrs keys : list string) (key : string) (a : class_attr)
    (m : manager) :
  taken_over attrs keys key a = Some m
  ↔ manager_of a = Some m ∧ key ≠ "_base_manager" ∧ (key ∉ attrs) ∧ (key ∉ keys)
    ∧ _inherited m = false.
Proof.
  unfold taken_over. destruct (manager_of a) as [m0|]; [|by split; [|intros [? _]]].
  destruct (decide (key = "_base_manager")); [split; [done|]; by intros (_ & ? & _)|].
  destruct (decide (key ∈ attrs)); [split; [done|]; by intros (_ & _ & ? & _)|].
  destruct (decide (key ∈ keys)); [split; [done|]; by intros (_ & _ & _ & ? & _)|].
  destruct (_inherited m0) eqn:E.
  - split; [done|]. intros ([= <-] & _ & _ & _ & ?). congruence.
  - split; [by intros [= <-]|]. by intros ([= <-] & _).
Qed.

(** The success of [get_inherited_managers] gives what the traversal
    collects, and every polymorphic manager of it has passed the
    validation. *)
Lemma get_inherited_managers_Ok (self : new_class) (attrs : list string)
    (l : list (string * string * manager)) :
  get_inherited_managers self attrs = Ok l →
  l = inherited_managers self attrs ∧ ¬ Exists bad_inherited l.
Proof.
  intros H.
  assert (Hnil : ¬ Exists bad_inherited ([] : list (string * string * manager)))
    by (by intros ?%Exists_nil).
  destruct (BaseProofs.get_inherited_managers_collect self attrs (nc_mro_tail self) [] Hnil)
    as [G1 G2].
  simpl in G1, G2. fold (get_inherited_managers self attrs) in G1, G2.
  fold (inherited_managers self attrs) in G1, G2.
  destruct (decide (Exists bad_inherited (inherited_managers self attrs))) as [Hb|Hb].
  - destruct (G1 Hb) as [msg Hm]. congruence.
  - rewrite (G2 Hb) in H. injection H as <-. done.
Qed.

Section Collect.
Context (attrs : list string).

Lemma collect_item_cases (base : base_class) (acc : list (string * string * manager))
    (item : string * class_attr) :
  (collect_item base attrs acc item = acc
   ∧ taken_over attrs (((λ x : string * string * manager, x.1.2) <$> acc)) item.1 item.2 = None)
  ∨ ∃ m, collect_item base attrs acc item = acc ++ [(b_name base, item.1, m)]
         ∧ taken_over attrs (((λ x : string * string * manager, x.1.2) <$> acc)) item.1 item.2 = Some m.
Proof.
  unfold collect_item. destruct (taken_over _ _ _ _) as [m|]; [right; by exists m|by left].
Qed.

Lemma collect_items_keep (base : base_class) (items : list (string * class_attr))
    (acc : list (string * string * manager)) x :
  x ∈ acc → x ∈ foldl (collect_item base attrs) acc items.
Proof.
  revert acc. induction items as [|it items IH]; intros acc Hx; simpl; [done|].
  apply IH. destruct (collect_item_cases base acc it) as [[-> _]|(m & -> & _)]; [done|].
  apply elem_of_app. by left.
Qed.

Lemma collect_base_keep (acc : list (string * string * manager)) (base : base_class) x :
  x ∈ acc → x ∈ collect_base attrs acc base.
Proof.
  intros Hx. unfold collect_base.
  destruct (negb (b_is_model base)); [done|].
  destruct (negb (polymorphic_model_marker base)); [done|].
  by apply collect_items_keep.
Qed.

Lemma collect_bases_keep (bases : list base_class) (acc : list (string * string * manager)) x :
  x ∈ acc → x ∈ foldl (collect_base attrs) acc bases.
Proof.
  revert acc. induction bases as [|b bases IH]; intros acc Hx; simpl; [done|].
  by apply IH, collect_base_keep.
Qed.

Lemma collect_items_collected (bases : list base_class) (base : base_class)
    (items : list (string * class_attr)) (acc : list (string * string * manager)) :
  base ∈ bases → b_is_model base = true → polymorphic_model_marker base = true →
  (∀ it, it ∈ items → it ∈ b_dict base) →
  collected attrs bases acc → collected attrs bases (foldl (collect_item base attrs) acc items).
Proof.
  unfold collected, names in *.
  intros Hb Hm Hp. revert acc. induction items as [|it items IH]; intros acc Hsub Hc; simpl;
    [done|].
  apply IH; [intros it' Hit'; apply Hsub; by right|].
  destruct (collect_item_cases base acc it) as [[-> _]|(m & -> & Ht)]; [done|].
  apply taken_over_Some in Ht as (Hman & Hk1 & Hk2 & Hk3 & Hinh).
  destruct Hc as [Hnd Hall]. split.
  - rewrite fmap_app. apply NoDup_app. split; [done|]. split; [|apply NoDup_singleton].
    intros k Hk ->%list_elem_of_singleton. done.
  - intros x [Hx| ->%list_elem_of_singleton]%elem_of_app; [by apply Hall|].
    exists base. split; [done|]. split; [done|]. simpl.
    split; [done|]. split; [done|]. split; [|done].
    exists it.2. split; [|done]. destruct it. apply Hsub. by left.
Qed.

Lemma collect_bases_collected (all bases : list base_class)
    (acc : list (string * string * manager)) :
  (∀ b, b ∈ bases → b ∈ all) →
  collected attrs all acc → collected attrs all (foldl (collect_base attrs) acc bases).
Proof.
  revert acc. induction bases as [|b bases IH]; intros acc Hsub Hc; simpl; [done|].
  apply IH; [intros b' Hb'; apply Hsub; by right|].
  unfold collect_base.
  destruct (b_is_model b) eqn:Hm; simpl; [|done].
  destruct (polymorphic_model_marker b) eqn:Hp; simpl; [|done].
  apply (collect_items_collected all b); try done. apply Hsub. by left.
Qed.

(** Every manager that a base hands down has its name in the list. *)
Lemma collect_items_complete (base : base_class) (items : list (string * class_attr))
    (acc : list (string * string * manager)) (key : string) (a : class_attr) (m : manager) :
  (key, a) ∈ items → manager_of a = Some m →
  key ≠ "_base_manager" → key ∉ attrs → _inherited m = false →
  key ∈ (λ x : string * string * manager, x.1.2) <$> (foldl (collect_item base attrs) acc items).
Proof.
  unfold collected, names in *.
  intros Hin Hman Hk1 Hk2 Hinh. revert acc.
  induction items as [|it items IH]; intros acc; [by apply elem_of_nil in Hin|].
  apply elem_of_cons in Hin as [<-|Hin]; [|by apply IH]. simpl.
  assert (Hnow : key ∈ (λ x : string * string * manager, x.1.2) <$> (collect_item base attrs acc (key, a))).
  { destruct (collect_item_cases base acc (key, a)) as [[-> Ht]|(m' & -> & Ht)]; simpl in Ht.
    - destruct (decide (key ∈ ((λ x : string * string * manager, x.1.2) <$> acc))) as [|Hn]; [done|].
      assert (taken_over attrs (((λ x : string * string * manager, x.1.2) <$> acc)) key a = Some m) by (by apply taken_over_Some).
      congruence.
    - rewrite fmap_app. apply elem_of_app. right. by left. }
  apply list_elem_of_fmap in Hnow as (x & -> & Hx).
  apply list_elem_of_fmap. exists x. split; [done|]. by apply collect_items_keep.
Qed.

Lemma collect_bases_complete (bases : list base_class) (acc : list (string * string * manager))
    (base : base_class) (key : string) (m : manager) :
  base ∈ bases → hands_down attrs base key m →
  key ∈ (λ x : string * string * manager, x.1.2) <$> (foldl (collect_base attrs) acc bases).
Proof.
  unfold collected, names in *.
  intros Hin (Hm & Hp & (a & Ha & Hman) & Hk1 & Hk2 & Hinh). revert acc.
  induction bases as [|b bases IH]; intros acc; [by apply elem_of_nil in Hin|].
  apply elem_of_cons in Hin as [<-|Hin]; [|by apply IH]. simpl.
  assert (Hnow : key ∈ (λ x : string * string * manager, x.1.2) <$> (collect_base attrs acc base)).
  { unfold collect_base. rewrite Hm, Hp. simpl. by apply (collect_items_complete _ _ _ key a m). }
  apply list_elem_of_fmap in Hnow as (x & -> & Hx).
  apply list_elem_of_fmap. exists x. split; [done|]. by apply collect_bases_keep.
Qed.

(** The first manager of a name wins. *)
Lemma collect_items_first (base : base_class) (items : list (string * class_attr))
    (acc : list (string * string * manager)) (key : string) (a : class_attr) (m : manager) :
  NoDup (items.*1) → (key, a) ∈ items → manager_of a = Some m →
  key ≠ "_base_manager" → key ∉ attrs → _inherited m = false →
  key ∉ ((λ x : string * string * manager, x.1.2) <$> acc) →
  (b_name base, key, m) ∈ foldl (collect_item base attrs) acc items.
Proof.
  unfold collected, names in *.
  intros Hnd Hin Hman Hk1 Hk2 Hinh. revert acc.
  induction items as [|[k0 a0] items IH]; intros acc Hnew; [by apply elem_of_nil in Hin|].
  rewrite fmap_cons in Hnd. apply NoDup_cons in Hnd as [Hk0 Hnd]. simpl in Hk0. simpl.
  apply elem_of_cons in Hin as [[= <- <-]|Hin].
  - apply collect_items_keep.
    destruct (collect_item_cases base acc (key, a)) as [[_ Ht]|(m' & -> & Ht)]; simpl in Ht.
    + assert (taken_over attrs (((λ x : string * string * manager, x.1.2) <$> acc)) key a = Some m) by (by apply taken_over_Some).
      congruence.
    + apply taken_over_Some in Ht as (Hman' & _). assert (m' = m) as -> by congruence.
      apply elem_of_app. right. by left.
  - apply IH; [done|done|].
    assert (Hne : k0 ≠ key).
    { intros ->. apply Hk0. apply list_elem_of_fmap. by exists (key, a). }
    destruct (collect_item_cases base acc (k0, a0)) as [[-> _]|(m' & -> & _)]; [done|].
    rewrite fmap_app. intros [?|Hk%list_elem_of_singleton]%elem_of_app; [done|].
    simpl in Hk. congruence.
Qed.
End Collect.

(** X18.  When [get_inherited_managers] succeeds, the managers of its list
    have distinct names; each is a manager that a polymorphic model class
    of [__mro__[1:]] holds in its class dictionary, not marked as
    inherited, not named [_base_manager] and not overwritten by an
    attribute of the new class, and it has passed the validation if it is a
    polymorphic manager.  Conversely every name under which a base holds
    such a manager is in the list. *)
Theorem inherited_managers_are_those_of_the_bases (self : new_class) (attrs : list string)
    (l : list (string * string * manager)) :
  get_inherited_managers self attrs = Ok l →
  NoDup (names l)
  ∧ (∀ bname key m, (bname, key, m) ∈ l →
       (∃ base, base ∈ nc_mro_tail self ∧ b_name base = bname
                ∧ hands_down attrs base key m)
       ∧ (is_polymorphic_manager m = true → valid_manager m))
  ∧ (∀ base key m, base ∈ nc_mro_tail self → hands_down attrs base key m →
       key ∈ names l).
Proof.
  unfold collected, names in *.
  intros [-> Hvalid]%get_inherited_managers_Ok. unfold inherited_managers in *.
  assert (Hc : collected attrs (nc_mro_tail self)
                 (foldl (collect_base attrs) [] (nc_mro_tail self))).
  { apply collect_bases_collected; [done|]. split; [apply NoDup_nil_2|].
    by intros x ?%elem_of_nil. }
  destruct Hc as [Hnd Hall]. split; [done|]. split.
  - intros bname key m Hin. split; [by apply (Hall _ Hin)|].
    intros Hp. destruct (decide (valid_manager m)) as [|Hn]; [done|].
    exfalso. apply Hvalid, Exists_exists. by exists (bname, key, m).
  - intros base key m Hb Hh. by apply (collect_bases_complete attrs _ _ base key m).
Qed.

(** X19.  The nearest base wins: when a base of [__mro__[1:]] hands a
    manager down under a name and no base before it hands one down under
    that name, a successful [get_inherited_managers] lists the manager of
    this base under the name. *)
Theorem nearest_base_hands_the_manager_down (self : new_class) (attrs : list string)
    (l : list (string * string * manager)) (before after : list base_class)
    (base : base_class) (key : string) (m : manager) :
  get_inherited_managers self attrs = Ok l →
  nc_mro_tail self = before ++ base :: after →
  NoDup ((b_dict base).*1) →
  hands_down attrs base key m →
  (∀ b m', b ∈ before → ¬ hands_down attrs b key m') →
  (b_name base, key, m) ∈ l.
Proof.
  unfold collected, names in *.
  intros [-> _]%get_inherited_managers_Ok Hmro Hnd Hh Hbefore.
  unfold inherited_managers. rewrite Hmro, foldl_app. simpl.
  apply collect_bases_keep.
  destruct Hh as (Hm & Hp & (a & Ha & Hman) & Hk1 & Hk2 & Hinh).
  unfold collect_base. rewrite Hm, Hp. simpl.
  apply (collect_items_first attrs base _ _ key a m); try done.
  assert (Hc : collected attrs before (foldl (collect_base attrs) [] before)).
  { apply collect_bases_collected; [done|]. split; [apply NoDup_nil_2|].
    by intros x ?%elem_of_nil. }
  destruct Hc as [_ Hall].
  intros (x & -> & Hx)%list_elem_of_fmap.
  destruct (Hall x Hx) as (b & Hb & _ & Hh). by apply (Hbefore b x.2).
Qed.

(** On the sample class with two polymorphic bases that both declare
    [objects]: the list has the [objects] of the first base, and the
    [others] of the second. *)
Lemma inherited_managers_are_those_of_the_bases_witness :
  ∃ l, get_inherited_managers two_bases ["mine"] = Ok l
       ∧ NoDup (names l)
       ∧ "others" ∈ names l.
Proof.
  destruct (get_inherited_managers two_bases ["mine"]) as [l|] eqn:E;
    [|vm_compute in E; discriminate].
  exists l. split; [done|].
  destruct (inherited_managers_are_those_of_the_bases two_bases ["mine"] l E)
    as (Hnd & _ & Hall).
  split; [exact Hnd|].
  apply (Hall second_base "others" other_manager).
  - right. left.
  - split; [done|]. split; [done|]. split.
    + exists (AManager other_manager). split; [|done]. right. left.
    + split; [done|]. split; [|done].
      intros Hin. apply list_elem_of_singleton in Hin. discriminate.
Defined.

Lemma nearest_base_hands_the_manager_down_witness :
  ∃ l, get_inherited_managers two_bases ["mine"] = Ok l
       ∧ ("PolymorphicModel", "objects", poly_manager) ∈ l.
Proof.
  destruct (get_inherited_managers two_bases ["mine"]) as [l|] eqn:E;
    [|vm_compute in E; discriminate].
  exists l. split; [done|].
  apply (nearest_base_hands_the_manager_down two_bases ["mine"] l [] [second_base]
           polymorphic_base "objects" poly_manager E).
  - reflexivity.
  - apply (bool_decide_unpack _). vm_compute. exact I.
  - split; [done|]. split; [done|]. split.
    + exists (AManagerDescriptor poly_manager). split; [|done]. left.
    + split; [done|]. split; [|done].
      intros Hin. apply list_elem_of_singleton in Hin. discriminate.
  - intros b m' Hb. by apply elem_of_nil in Hb.
Defined.

End ManagerProofs.

(** ** The switch [polymorphic_disabled] *)

Module FlagProofs.
Import Flags.

Section Switch.
Context {A : Type} (base_objects : string → A) (super_getattribute : string → string → A).

(** X20.  [polymorphic_disabled] is one switch per thread for all the
    model classes: it is off until it is set; once it is set through any
    class, every class of the thread reads the value set, and with the
    switch on [_default_manager] and [_base_manager] of every class resolve
    to its [base_objects] while every other name resolves as before; other
    threads are not touched; and the creation of any class puts the switch
    of the thread back to whether [dumpdata] is among the arguments of the
    command. *)
Theorem polymorphic_disabled_is_one_switch_per_thread (flags : gmap nat bool) (thread : nat)
    (cls : string) (disabled : bool) :
  let flags' := _set_polymorphic_disabled flags thread cls disabled in
  (∀ other, _get_polymorphic_disabled ∅ thread other = false)
  ∧ (∀ other, _get_polymorphic_disabled flags' thread other = disabled)
  ∧ (∀ t other, t ≠ thread →
       _get_polymorphic_disabled flags' t other = _get_polymorphic_disabled flags t other)
  ∧ (∀ other name,
       __getattribute__ base_objects super_getattribute flags' thread other name
       = if disabled && bool_decide (name = "_default_manager" ∨ name = "_base_manager")
         then base_objects other else super_getattribute other name)
  ∧ (∀ argv created other,
       _get_polymorphic_disabled (__init__ argv flags' thread created) thread other
       = bool_decide ("dumpdata" ∈ argv)).
Proof.
  intros flags'. unfold flags', __getattribute__, __init__, _get_polymorphic_disabled,
    _set_polymorphic_disabled.
  split; [intros; by rewrite lookup_empty|].
  split; [intros; by rewrite lookup_insert_eq|].
  split; [intros; by rewrite lookup_insert_ne|].
  split; [|intros; by rewrite lookup_insert_eq].
  intros other name. rewrite lookup_insert_eq. simpl.
  rewrite andb_comm. destruct disabled; simpl; [|done].
  assert (Heq : bool_decide (name ∈ ["_default_manager"; "_base_manager"])
                = bool_decide (name = "_default_manager" ∨ name = "_base_manager")).
  { apply bool_decide_ext. rewrite !elem_of_cons. split; [|tauto].
    intros [?|[?|Hn]]; [tauto|tauto|]. by apply elem_of_nil in Hn. }
  by rewrite Heq.
Qed.
End Switch.

End FlagProofs.

(** ** Aggregates with model lookups *)

Module AggregateProofs.
Import Aggregates.

Lemma prefix_spec (sub s : string) :
  String.prefix sub s = true ↔ ∃ post, s = sub +:+ post.
Proof.
  revert s. induction sub as [|a sub IH]; intros s.
  - split; [intros _; by exists s|]. intros _. by destruct s.
  - destruct s as [|b s]; simpl.
    + split; [done|]. by intros [post ?].
    + destruct (Ascii.ascii_dec a b) as [->|Hne].
      * rewrite IH. split; intros [post Hp]; exists post; [by rewrite Hp|].
        by injection Hp.
      * split; [done|]. intros [post Hp]. injection Hp as -> _. done.
Qed.

(** [sub in s] holds exactly of the strings that have [sub] somewhere. *)
Lemma contains_spec (sub s : string) :
  contains sub s = true ↔ ∃ pre post, s = pre +:+ sub +:+ post.
Proof.
  induction s as [|c s IH]; cbn [contains].
  - rewrite orb_false_r, prefix_spec. split.
    + intros [post Hp]. by exists "", post.
    + intros (pre & post & Hp). destruct pre as [|? ?]; [by exists post|done].
  - rewrite orb_true_iff, prefix_spec, IH. split.
    + intros [[post Hp]|(pre & post & Hp)].
      * by exists "", post.
      * exists (String c pre), post. simpl. by rewrite Hp.
    + intros (pre & post & Hp). destruct pre as [|c' pre]; simpl in Hp.
      * left. by exists post.
      * right. injection Hp as -> Hp. by exists pre, post.
Qed.

Section Calls.
Context {R : Type}.
Context (translate_polymorphic_field_path : string → string → res string).
Context (super_annotate super_aggregate
           : queryset → list Aggregate → list (string * Aggregate) → res R).

Lemma check_args_raise (args : list Aggregate) (msg : string) :
  Exists model_lookup args →
  for_each (λ (_ : unit) a,
              if contains "___" (lookup a) then Raise (AssertionError msg) else Ok tt)
           args tt = Raise (AssertionError msg).
Proof.
  induction 1 as [a args Ha|a args _ IH]; simpl.
  - apply contains_spec in Ha. by rewrite Ha.
  - destruct (contains "___" (lookup a)); [done|]. simpl. exact IH.
Qed.

Lemma check_args_ok (args : list Aggregate) (msg : string) :
  ¬ Exists model_lookup args →
  for_each (λ (_ : unit) a,
              if contains "___" (lookup a) then Raise (AssertionError msg) else Ok tt)
           args tt = Ok tt.
Proof.
  induction args as [|a args IH]; intros Hn; simpl; [done|].
  destruct (contains "___" (lookup a)) eqn:E.
  - exfalso. apply Hn. left. by apply contains_spec.
  - simpl. apply IH. intros He. apply Hn. by right.
Qed.

Lemma translate_loop (self : queryset) (kwargs kwargs' seen : list (string * Aggregate)) :
  Forall2 (translated translate_polymorphic_field_path self) kwargs kwargs' →
  for_each (λ seen kv,
              let* l := translate_polymorphic_field_path (model self) (lookup kv.2) in
              Ok (seen ++ [(kv.1, {| function := function kv.2; lookup := l |})]))
           kwargs seen = Ok (seen ++ kwargs').
Proof.
  intros H. revert seen. induction H as [|kv kv' kwargs kwargs' (H1 & H2 & H3) _ IH];
    intros seen; simpl.
  - by rewrite app_nil_r.
  - rewrite H3. simpl. rewrite IH, <- app_assoc. do 2 f_equal. simpl. f_equal.
    destruct kv' as [k [f l]]. simpl in *. by subst.
Qed.

Lemma translate_loop_raise (self : queryset) (before after translated_ seen
    : list (string * Aggregate)) (kv : string * Aggregate) (e : exn) :
  Forall2 (translated translate_polymorphic_field_path self) before translated_ →
  translate_polymorphic_field_path (model self) (lookup kv.2) = Raise e →
  for_each (λ seen kv,
              let* l := translate_polymorphic_field_path (model self) (lookup kv.2) in
              Ok (seen ++ [(kv.1, {| function := function kv.2; lookup := l |})]))
           (before ++ kv :: after) seen = Raise e.
Proof.
  intros H He. rewrite for_each_app, (translate_loop _ _ _ _ H). simpl. by rewrite He.
Qed.

(** X21.  [annotate] and [aggregate] take the model syntax [ModelX___field]
    for keyword arguments only.  When a positional aggregate has a lookup
    with [___] in it, both raise an [AssertionError], whatever the keyword
    arguments are, and the host is not called.  Otherwise the host's method
    is called with the positional aggregates as they are and with the
    keyword aggregates under their names, in their order, each with its
    lookup translated, [aggregate] calling it on a clone whose polymorphic
    behaviour is switched off; and the first keyword lookup that the
    translation refuses makes both raise what the translation raises. *)
Theorem positional_aggregates_take_no_model_lookup (self : queryset)
    (args : list Aggregate) (kwargs : list (string * Aggregate)) :
  (Exists model_lookup args →
   ∃ msg,
     annotate translate_polymorphic_field_path super_annotate self args kwargs
     = Raise (AssertionError msg)
     ∧ aggregate translate_polymorphic_field_path super_aggregate self args kwargs
       = Raise (AssertionError msg))
  ∧ (¬ Exists model_lookup args →
     ∀ kwargs', Forall2 (translated translate_polymorphic_field_path self) kwargs kwargs' →
       annotate translate_polymorphic_field_path super_annotate self args kwargs
       = super_annotate self args kwargs'
       ∧ aggregate translate_polymorphic_field_path super_aggregate self args kwargs
         = super_aggregate (set_polymorphic_disabled true (_clone self)) args kwargs')
  ∧ (¬ Exists model_lookup args →
     ∀ before kv after translated_ e,
       kwargs = before ++ kv :: after →
       Forall2 (translated translate_polymorphic_field_path self) before translated_ →
       translate_polymorphic_field_path (model self) (lookup kv.2) = Raise e →
       annotate translate_polymorphic_field_path super_annotate self args kwargs = Raise e
       ∧ aggregate translate_polymorphic_field_path super_aggregate self args kwargs
         = Raise e).
Proof.
  unfold annotate, aggregate, _process_aggregate_args.
  change (model (_clone self)) with (model self).
  split; [|split].
  - intros He. eexists. rewrite (check_args_raise _ _ He). by split.
  - intros Hn kwargs' Ht. rewrite (check_args_ok _ _ Hn). cbn [res_bind].
    rewrite (translate_loop self _ _ [] Ht). by split.
  - intros Hn before kv after translated_ e -> Ht He.
    rewrite (check_args_ok _ _ Hn). cbn [res_bind].
    rewrite (translate_loop_raise self _ _ _ [] kv e Ht He). by split.
Qed.
End Calls.

(** A positional [Count] over a model lookup is refused, whatever the
    translation and the host's methods are. *)
Example positional_model_lookup_sample (self : queryset) :
  annotate (λ _ l, Ok l) (λ _ _ kw, Ok kw) self
    [{| function := "Count"; lookup := "Model2B___field2" |}] []
  = Raise (AssertionError
             ("PolymorphicModel: annotate()/aggregate(): ___ model lookup " +:+
              "supported for keyword arguments only")).
Proof. reflexivity. Qed.

End AggregateProofs.

(** ** Proxies *)

Section ProxyObjects.
Context (sch : schema) (db : database) (self : queryset).

(** X22.  The object that the loader returns for a base object that was
    saved as a proxy of the base model is an instance of the proxy that has
    every attribute of the base object with the value the base object has
    for it; a field of the proxy that the base object does not have holds
    the default of the field.  No query is sent for it. *)
Theorem proxy_objects_hold_the_base_data (objs : list obj) :
  Forall (object_ok sch db self) objs →
  ∃ out log,
    _get_real_instances sch db self objs = Ok (out, log)
    ∧ ∀ i bo bo0 m,
        objs !! i = Some bo →
        first_by_pk sch objs (pk_of sch bo) = Some bo0 →
        classify sch self bo0 = Ok (Proxy m) →
        ∃ o, out !! i = Some o
          ∧ o_class o = Plain m
          ∧ (∀ n v, o_dict bo0 !! n = Some v → n ∉ bookkeeping_names →
                    o_dict o !! n = Some v)
          ∧ (NoDup (f_attname <$> meta_fields sch m) →
             ∀ f, f ∈ meta_fields sch m → o_dict bo0 !! f_attname f = None →
                  f_attname f ∉ bookkeeping_names →
                  o_dict o !! f_attname f = Some (f_default f)).
Proof.
  intros Hok.
  destruct (loader_places sch db self objs Hok) as (st & res1 & outs & _ & Hres & Hpos & Hrec).
  eexists _, _. split; [exact Hres|].
  intros i bo bo0 m Hi Hbo0 Hc.
  destruct (Forall2_lookup_l _ _ _ _ _ Hpos Hi) as (o & Ho & Hr).
  destruct (Hrec _ _ Hbo0) as (o' & Ho' & Hrc).
  assert (o' = o) as -> by congruence.
  unfold reconstructed in Hrc. rewrite Hc in Hrc. subst o.
  set (o := copy_dict bo0 (new_instance sch (Plain m))).
  assert (Hcls : o_class o = Plain m) by (unfold o, copy_dict; simpl; apply new_instance_class).
  assert (Hplain : _deferred (o_class o) = false) by (by rewrite Hcls).
  exists (finalize sch self o). split; [by rewrite list_lookup_fmap, Ho|].
  split; [by rewrite finalize_class|]. split.
  - intros n v Hv Hnb. rewrite (finalize_lookup_plain sch self) by done.
    unfold o, copy_dict. simpl. by apply lookup_union_Some_l.
  - intros Hnd f Hf Hnone Hnb. rewrite (finalize_lookup_plain sch self) by done.
    unfold o, copy_dict. simpl. rewrite lookup_union_r by done.
    by apply new_instance_defaults.
Qed.
End ProxyObjects.

(** On the sample: the third object of the page was saved as the proxy
    [P]. *)
Lemma proxy_objects_hold_the_base_data_witness :
  ∃ out log o,
    _get_real_instances Sample.sch (Sample.db []) Sample.qs Sample.page = Ok (out, log)
    ∧ out !! 2%nat = Some o
    ∧ o_class o = Plain "P"
    ∧ o_dict o !! "field1" = Some (VStr "p").
Proof.
  destruct (proxy_objects_hold_the_base_data Sample.sch (Sample.db []) Sample.qs Sample.page)
    as (out & log & Hres & Hall).
  { apply sample_page_ok. }
  destruct (Hall 2%nat (Sample.bo 3 3 "p") (Sample.bo 3 3 "p") "P")
    as (o & Ho & Hc & Hattrs & _); [reflexivity|reflexivity|reflexivity|].
  exists out, log, o. split; [done|]. split; [done|]. split; [done|].
  apply Hattrs; [reflexivity|].
  apply (bool_decide_unpack _). vm_compute. exact I.
Defined.

(** ** Deferred mode against the eager load *)

Section DeferredAgrees.
Context (sch : schema) (db : database) (self : queryset).
Context {R : Type} (super_aggregate : queryset → list (option string) → res R).

Lemma base_objects_get_inv (cls : string) (pk : value) (o : obj) :
  base_objects_get sch db cls pk = Ok o →
  ∃ row, o = {| o_class := Plain cls; o_dict := row |}
         ∧ filter (λ row, row !! meta_pk_attname sch cls = Some pk) (db_table db cls) = [row].
Proof.
  unfold base_objects_get.
  destruct (filter _ (db_table db cls)) as [|row [|row2 rows]]; [done| |done].
  intros [= <-]. by exists row.
Qed.

(** [defer()] gives the query set in deferred mode, the same in everything
    else. *)
Lemma defer_no_fields (qd : queryset) :
  defer super_aggregate self [] = Ok (inl qd) → qd = set_deferred true (_clone self).
Proof. unfold defer. simpl. by intros [= <-]. Qed.

(** What deferred mode makes of a base object of a derived class has the
    primary key of the base object, on both paths. *)
Lemma deferred_instance_key (m : string) (bo : obj) :
  Forall (stored_directly sch) (loader_names self) →
  meta_pk_attname sch m ∉ loader_names self →
  is_Some (o_dict bo !! meta_pk_attname sch (klass_model (o_class bo))) →
  o_dict (deferred_instance sch self m bo) !! meta_pk_attname sch m = Some (pk_of sch bo).
Proof.
  intros Hs Hpkn [v Hv]. unfold deferred_instance.
  destruct (_deferred (o_class bo) && bool_decide (klass_model (o_class bo) = m)) eqn:E.
  - apply andb_true_iff in E as [_ E]. apply bool_decide_eq_true in E.
    unfold pk_of, attr_of. rewrite E in Hv |- *. by rewrite Hv.
  - unfold loader_names in *. pose proof Hs as [Hsa [Hse _]%Forall_app]%Forall_app.
    unfold rebuilt, annotated. rewrite (annotate_lookup sch _ _ _ _ Hse).
    rewrite decide_False by (intros ?; apply Hpkn; rewrite !elem_of_app; auto).
    rewrite (annotate_lookup sch _ _ _ _ Hsa).
    rewrite decide_False by (intros ?; apply Hpkn; rewrite !elem_of_app; auto).
    unfold set_pk, copy_dict. cbn [o_class set_dict]. rewrite new_instance_class.
    cbn [klass_model deferred_class_factory].
    rewrite setattr_not_bulk.
    2:{ cbn [o_class set_dict]. rewrite new_instance_class. simpl.
        apply bool_decide_eq_false. intros [Hin _]%elem_of_difference.
        unfold subclass_only in Hin. apply elem_of_difference in Hin as [_ Hin].
        apply Hin. by apply elem_of_singleton. }
    cbn [o_dict set_dict]. by rewrite lookup_insert_eq.
Qed.

(** Its class has the bulk-deferred descriptor for a field that only the
    derived class has, when the class of a base object that is returned as
    it is has it. *)
Lemma deferred_instance_bulk (m : string) (bo : obj) (a : string) :
  a ∈ subclass_only sch self m →
  (_deferred (o_class bo) = true → klass_model (o_class bo) = m →
   is_bulk_deferred (o_class bo) a = true) →
  is_bulk_deferred (o_class (deferred_instance sch self m bo)) a = true.
Proof.
  intros Ha Hbo. unfold deferred_instance.
  destruct (_deferred (o_class bo) && bool_decide (klass_model (o_class bo) = m)) eqn:E.
  - apply andb_true_iff in E as [E1 E2]. apply bool_decide_eq_true in E2. by apply Hbo.
  - rewrite rebuilt_class. simpl. apply bool_decide_eq_true.
    apply elem_of_difference. split; [done|]. apply not_elem_of_empty.
Qed.

(** X23.  Deferred mode changes when the fields of a derived class are
    read, not what is read.  For a base object of a derived class whose row
    is in the table of the class, the object that the query set made by
    [defer()] returns does not hold a field that only the derived class has,
    and the first access to the field sends one query and returns the value
    that the object of the eager load of the same page holds for the field.
    This holds on both paths of deferred mode: for a base object that is
    already an instance of a deferred class of its derived class, as
    [_iterator] makes it, which is returned as it is, and for any other base
    object, for which a new instance of a deferred class is filled. *)
Theorem deferred_access_agrees_with_the_eager_load (objs : list obj) (qd : queryset) :
  deferred self = false →
  defer super_aggregate self [] = Ok (inl qd) →
  Forall (object_ok sch db self) objs →
  Forall (object_ok sch db qd) objs →
  Forall (stored_directly sch) (loader_names self) →
  ∃ eager lazy log,
    _get_real_instances sch db self objs = Ok (eager, log)
    ∧ _get_real_instances sch db qd objs = Ok (lazy, [])
    ∧ ∀ i bo bo0 m row f,
        objs !! i = Some bo →
        first_by_pk sch objs (pk_of sch bo) = Some bo0 →
        classify sch self bo0 = Ok (Derived m) →
        (_deferred (o_class bo0) = true → klass_model (o_class bo0) = m →
         is_bulk_deferred (o_class bo0) (f_attname f) = true) →
        base_objects_get sch db m (pk_of sch bo0)
        = Ok {| o_class := Plain m; o_dict := row |} →
        (∀ g, g ∈ meta_fields sch m → is_Some (row !! f_attname g)) →
        f ∈ meta_fields sch m →
        f_attname f ∈ subclass_only sch self m →
        f_attname f ∉ loader_names self →
        meta_pk_attname sch m ∉ loader_names self →
        o_dict bo0 !! f_attname f = None →
        ∃ oe ol v,
          eager !! i = Some oe ∧ lazy !! i = Some ol
          ∧ o_dict oe !! f_attname f = Some v
          ∧ o_dict ol !! f_attname f = None
          ∧ (_deferred (o_class bo0) = true → klass_model (o_class bo0) = m →
             o_class ol = o_class bo0
             ∧ ∀ n, n ∉ bookkeeping_names → o_dict ol !! n = o_dict bo0 !! n)
          ∧ ∀ log0, ∃ ol',
              BulkDeferredAttribute_get sch db (f_attname f) m ol log0
              = Ok (v, ol',
                    log0 ++ [QGetOnly m (pk_of sch bo0)
                               (f_name <$> bulk_fields sch m (o_class ol))]).
Proof.
  intros Hd Hdefer Hoke Hokl Hs. apply defer_no_fields in Hdefer. subst qd.
  set (qd := set_deferred true (_clone self)) in *.
  destruct (loader_places sch db self objs Hoke)
    as (ste & rese & outse & _ & Hrese & Hpose & Hrece).
  destruct (loader_places sch db qd objs Hokl)
    as (stl & resl & outsl & _ & Hresl & Hposl & Hrecl).
  unfold page_queries in Hresl. change (deferred qd) with true in Hresl.
  eexists _, _, _. split; [exact Hrese|]. split; [exact Hresl|].
  intros i bo bo0 m row f Hi Hbo0 Hc Hbulk Hrow Hall Hf Hsub Hnames Hpkn Hnone.
  set (a := f_attname f) in *.
  assert (Hv : is_Some (row !! a)) by (by apply (Hall f)).
  destruct Hv as [v Hv].
  assert (Hnb : a ∉ bookkeeping_names).
  { intros Hb. apply Hnames. unfold loader_names. rewrite !elem_of_app. auto. }
  assert (Hna : (a ∉ aggregates self) ∧ (a ∉ extra_select self)).
  { split; intros Hin; apply Hnames; unfold loader_names; rewrite !elem_of_app; auto. }
  pose proof Hs as [Hsa [Hse _]%Forall_app]%Forall_app.
  assert (Hbo0ok : object_ok sch db self bo0).
  { rewrite Forall_forall in Hoke. apply Hoke. by apply (first_by_pk_pk sch objs _ _ Hbo0). }
  destruct Hbo0ok as (Hkey0 & _ & _).
  (* the eager load *)
  destruct (Forall2_lookup_l _ _ _ _ _ Hpose Hi) as (oe & Hoe & Hre).
  destruct (Hrece _ _ Hbo0) as (oe' & Hoe' & Hrce).
  assert (oe' = oe) as -> by congruence.
  apply base_objects_get_inv in Hrow as (row0 & [= <-] & Hfilter).
  assert (Heager : oe = annotated sch self bo0 {| o_class := Plain m; o_dict := row |}).
  { unfold reconstructed in Hrce. rewrite Hc in Hrce. unfold derived_instance in Hrce.
    rewrite Hd in Hrce.
    assert (Hin : ∀ r, r ∈ db_table db m → r !! meta_pk_attname sch m = Some (pk_of sch bo0) →
                       r = row).
    { intros r Hr Hk.
      assert (Hrf : r ∈ filter (λ row, row !! meta_pk_attname sch m = Some (pk_of sch bo0))
                               (db_table db m)) by (by apply list_elem_of_filter).
      rewrite Hfilter in Hrf. by apply list_elem_of_singleton in Hrf. }
    destruct Hrce as [(r & Hr & Hk & ->)|[Hno _]].
    - by rewrite (Hin r Hr Hk).
    - exfalso. apply Hno.
      assert (Hrf : row ∈ filter (λ row, row !! meta_pk_attname sch m = Some (pk_of sch bo0))
                                 (db_table db m)) by (rewrite Hfilter; by left).
      apply list_elem_of_filter in Hrf as [? ?]. by exists row. }
  (* the load in deferred mode *)
  destruct (Forall2_lookup_l _ _ _ _ _ Hposl Hi) as (ol & Hol & Hrl).
  destruct (Hrecl _ _ Hbo0) as (ol' & Hol' & Hrcl).
  assert (ol' = ol) as -> by congruence.
  assert (Hlazy : ol = deferred_instance sch self m bo0).
  { unfold reconstructed in Hrcl. change (classify sch qd bo0) with (classify sch self bo0) in Hrcl.
    rewrite Hc in Hrcl. unfold derived_instance in Hrcl. change (deferred qd) with true in Hrcl.
    exact Hrcl. }
  assert (Hmodel : klass_model (o_class (finalize sch self ol)) = m).
  { rewrite finalize_class, Hlazy. apply deferred_instance_model. }
  assert (Hfb : f ∈ bulk_fields sch m (o_class (finalize sch self ol))).
  { unfold bulk_fields. apply list_elem_of_filter. split; [|done].
    rewrite finalize_class, Hlazy. by apply deferred_instance_bulk. }
  assert (Habs : o_dict (finalize sch self ol) !! a = None).
  { rewrite (finalize_lookup sch self _ _ Hs Hnb), Hlazy.
    by destruct (deferred_instance_unfetched sch self m bo0 a Hs Hsub Hnames Hnone). }
  assert (Hpk : o_dict (finalize sch self ol) !! meta_pk_attname sch m = Some (pk_of sch bo0)).
  { rewrite (finalize_lookup sch self _ _ Hs).
    2:{ intros Hb. apply Hpkn. unfold loader_names. rewrite !elem_of_app. auto. }
    rewrite Hlazy. by apply deferred_instance_key. }
  exists (finalize sch self oe), (finalize sch self ol), v.
  split; [by rewrite list_lookup_fmap, Hoe|].
  split; [by rewrite list_lookup_fmap, Hol|].
  split.
  { rewrite (finalize_lookup sch self _ _ Hs Hnb), Heager. unfold annotated.
    rewrite (annotate_lookup sch _ _ _ _ Hse). rewrite decide_False by tauto.
    rewrite (annotate_lookup sch _ _ _ _ Hsa). by rewrite decide_False by tauto. }
  split; [done|].
  split.
  { intros Hdef Hmod.
    assert (Hsame : ol = bo0).
    { rewrite Hlazy. unfold deferred_instance. rewrite Hdef. simpl.
      by rewrite bool_decide_true. }
    rewrite finalize_class, Hsame. split; [done|].
    intros n Hn. by apply finalize_lookup. }
  intros log0.
  destruct (BulkDeferredAttribute_get_first sch db a m (finalize sch self ol) log0
              (pk_of sch bo0) {| o_class := Plain m; o_dict := row |})
    as (v2 & ol2 & Hget & _ & Hv2 & Hdict2).
  { done. }
  { by apply list_elem_of_fmap_2. }
  { by rewrite Hmodel. }
  { apply source_of_values_row. unfold base_objects_get. by rewrite Hfilter. }
  { apply Forall_forall. intros g Hg. simpl. apply Hall.
    unfold bulk_fields in Hg. by apply list_elem_of_filter in Hg as [_ ?]. }
  assert (v2 = v) as ->.
  { rewrite Hdict2 in Hv2.
    rewrite decide_True in Hv2 by (by apply list_elem_of_fmap_2).
    simpl in Hv2. congruence. }
  by exists ol2.
Qed.
End DeferredAgrees.

(** On the sample: the row that was saved as [B].  [_iterator] makes it an
    instance of a deferred class of [B]; the eager load fetches the row of
    the table of [B], deferred mode returns the instance as it is, and the
    first access to its [field2] gives the value of the eager load. *)
Lemma deferred_access_agrees_with_the_eager_load_witness :
  ∃ bo oe ol ol',
    object_of_row Sample.sch (Sample.db []) Sample.qs [VInt 2; VInt 2; VStr "b"] = Ok bo
    ∧ _deferred (o_class bo) = true
    ∧ _get_real_instances Sample.sch (Sample.db []) Sample.qs [bo]
      = Ok ([oe], [QFilterPkIn "B" [VInt 2]])
    ∧ _get_real_instances Sample.sch (Sample.db []) Sample.qs_deferred [bo]
      = Ok ([ol], [])
    ∧ o_class ol = o_class bo
    ∧ o_dict oe !! "field2" = Some (VStr "bb")
    ∧ o_dict ol !! "field2" = None
    ∧ BulkDeferredAttribute_get Sample.sch (Sample.db []) "field2" "B" ol []
      = Ok (VStr "bb", ol', [QGetOnly "B" (VInt 2) ["field2"]]).
Proof.
  destruct (object_of_row Sample.sch (Sample.db []) Sample.qs [VInt 2; VInt 2; VStr "b"])
    as [bo|] eqn:E; [|vm_compute in E; discriminate].
  vm_compute in E. injection E as <-.
  match goal with |- ∃ bo oe ol ol', Ok ?b = Ok bo ∧ _ => set (b2 := b) end.
  destruct (deferred_access_agrees_with_the_eager_load Sample.sch (Sample.db []) Sample.qs
              (λ _ _, Raise (TypeError "no aggregate") : res unit)
              [b2] Sample.qs_deferred)
    as (eager & lazy & log & He & Hl & Hall).
  { reflexivity. }
  { reflexivity. }
  { apply (bool_decide_unpack _). vm_compute. exact I. }
  { apply (bool_decide_unpack _). vm_compute. exact I. }
  { apply sample_all_stored_directly. }
  destruct (Hall 0%nat b2 b2 "B" (Sample.rowB 2 "b" "bb")
              (Sample.fld "field2" (VStr "dflt")))
    as (oe & ol & v & Hoe & Hol & Hve & Hnone & Hsame & Hget).
  { reflexivity. }
  { vm_compute. reflexivity. }
  { vm_compute. reflexivity. }
  { intros _ _. vm_compute. reflexivity. }
  { vm_compute. reflexivity. }
  { intros g Hg.
    change (meta_fields Sample.sch "B") with Sample.fieldsB in Hg.
    unfold Sample.fieldsB, Sample.fieldsA in Hg.
    repeat (apply elem_of_cons in Hg as [->|Hg] || apply elem_of_app in Hg as [Hg|Hg]);
      try (by apply elem_of_nil in Hg); by eexists. }
  { change (meta_fields Sample.sch "B") with Sample.fieldsB.
    unfold Sample.fieldsB. apply elem_of_app. right. right. left. }
  { apply (bool_decide_unpack _). vm_compute. exact I. }
  { apply (bool_decide_unpack _). vm_compute. exact I. }
  { apply (bool_decide_unpack _). vm_compute. exact I. }
  { vm_compute. reflexivity. }
  destruct (Hget []) as [ol' Hget'].
  destruct Hsame as [Hcls _]; [reflexivity|reflexivity|].
  pose proof He as He'. vm_compute in He'. injection He' as He1 He2.
  pose proof Hl as Hl'. vm_compute in Hl'. injection Hl' as Hl1.
  subst eager lazy log.
  simpl in Hoe, Hol. injection Hoe as <-. injection Hol as <-.
  eexists b2, _, _, ol'. split; [done|]. split; [reflexivity|].
  split; [exact He|]. split; [exact Hl|]. split; [exact Hcls|].
  assert (v = VStr "bb") as ->.
  { vm_compute in Hve. by injection Hve as <-. }
  split; [exact Hve|]. split; [exact Hnone|]. exact Hget'.
Defined.

(** ** From the rows of the base query to the objects returned *)

Section RecordedClass.
Context (sch : schema) (db : database) (self : queryset).

(** A new instance of a class over the model of a base object, filled from
    the base object, has every attribute of the base object with the value
    that the base object has for it. *)
Lemma rebuilt_holds (k : klass) (bo : obj) (n : string) (v : value) :
  Forall (stored_directly sch) (loader_names self) →
  is_bulk_deferred k (meta_pk_attname sch (klass_model k)) = false →
  klass_model (o_class bo) = klass_model k →
  o_dict bo !! n = Some v →
  o_dict (rebuilt sch self k bo) !! n = Some v.
Proof.
  intros Hs Hnb Hk Hv. unfold loader_names in Hs.
  pose proof Hs as [Hsa [Hse _]%Forall_app]%Forall_app.
  assert (Ha : attr_of bo n = v) by (unfold attr_of; by rewrite Hv).
  unfold rebuilt, annotated. rewrite (annotate_lookup sch _ _ _ _ Hse).
  destruct (decide (n ∈ extra_select self)); [by rewrite Ha|].
  rewrite (annotate_lookup sch _ _ _ _ Hsa).
  destruct (decide (n ∈ aggregates self)); [by rewrite Ha|].
  unfold set_pk, copy_dict. cbn [o_class set_dict]. rewrite new_instance_class.
  rewrite setattr_not_bulk by (cbn [o_class set_dict]; by rewrite new_instance_class).
  cbn [o_dict set_dict].
  destruct (decide (n = meta_pk_attname sch (klass_model k))) as [->|Hne].
  - rewrite lookup_insert_eq. unfold pk_of. rewrite Hk. by rewrite Ha.
  - rewrite lookup_insert_ne by done. by apply lookup_union_Some_l.
Qed.

(** The kind that the first loop of the loader finds an object to be, from
    its content type. *)
Lemma classify_content_type (bo : obj) (ct : Z) (m : string) :
  o_dict bo !! "polymorphic_ctype_id" = Some (VInt ct) →
  get_for_id sch ct = Some m →
  classify sch self bo
  = Ok (if decide (ct = self_model_content_type_id sch self) then AsIs
        else if decide (get_for_model sch m = self_model_unproxied_content_type_id sch self)
             then Proxy m else Derived m).
Proof.
  intros Hct Hm. unfold classify, get_real_instance_class, getattr. rewrite Hct. simpl.
  destruct (decide (ct = self_model_content_type_id sch self)) as [->|Hne].
  - by rewrite decide_True.
  - rewrite decide_False by congruence. rewrite Hm. simpl. by destruct (decide _).
Qed.

(** C1.  A page of rows of the base query is made a page of base objects by
    [_iterator] and handed to the loader.  The loader returns one object per
    row, and the object returned at the place of a row is an instance of the
    class that the content type of the row records, the column of the field
    [polymorphic_ctype_id]; it is made from the base object of that row (of
    the first row of the page with that primary key, when several rows have
    it).  When the content type is that of the base model, the base object
    is returned as it is.  When the recorded class is a proxy of the base
    model, the object is a new instance of the proxy that holds every
    attribute of the base object with the value of the base object.
    Otherwise the object is of the derived class: outside deferred mode it
    holds the columns of the row of the table of the derived class with that
    primary key, or, when there is no such row, it is a new instance that
    holds the attributes of the base object; in deferred mode it is an
    instance of a deferred class over the derived class that holds the
    attributes of the base object.  (The two attributes in which the loader
    records the names of the annotations are left aside.) *)
Theorem rows_are_returned_as_their_recorded_class
    (rows : list (list value)) (objs : list obj) :
  select_related self = false →
  NoDup (init_list sch self) →
  NoDup (extra_select self) → NoDup (aggregate_select self) →
  Forall (stored_directly sch) (extra_select self ++ aggregate_select self) →
  Forall (stored_directly sch) (loader_names self) →
  "polymorphic_ctype_id" ∉ extra_select self ++ aggregate_select self →
  (∀ m, meta_pk_attname sch m ≠ "polymorphic_ctype_id") →
  Forall2 (λ row bo, object_of_row sch db self row = Ok bo) rows objs →
  Forall (object_ok sch db self) objs →
  ∃ out log,
    _get_real_instances sch db self objs = Ok (out, log)
    ∧ length out = length rows
    ∧ ∀ i bo, objs !! i = Some bo →
        ∃ (i0 : nat) (row0 : list value) (bo0 : obj) (ct : Z) (m : string) (o : obj),
          rows !! i0 = Some row0 ∧ objs !! i0 = Some bo0
          ∧ first_by_pk sch objs (pk_of sch bo) = Some bo0
          ∧ row_content_type sch self row0 = Some (VInt ct)
          ∧ get_for_id sch ct = Some m
          ∧ out !! i = Some o
          ∧ klass_model (o_class o) = m
          ∧ if decide (ct = self_model_content_type_id sch self) then
              o_class o = o_class bo0
              ∧ ∀ n, n ∉ bookkeeping_names → o_dict o !! n = o_dict bo0 !! n
            else if decide (get_for_model sch m = self_model_unproxied_content_type_id sch self)
            then
              o_class o = Plain m
              ∧ ∀ n v, n ∉ bookkeeping_names → o_dict bo0 !! n = Some v →
                       o_dict o !! n = Some v
            else if deferred self then
              _deferred (o_class o) = true
              ∧ ∀ n v, n ∉ bookkeeping_names → o_dict bo0 !! n = Some v →
                       o_dict o !! n = Some v
            else
              o_class o = Plain m
              ∧ ((∃ r, r ∈ db_table db m
                       ∧ r !! meta_pk_attname sch m = Some (pk_of sch bo0)
                       ∧ ∀ n, n ∉ loader_names self → o_dict o !! n = r !! n)
                 ∨ (¬ has_row sch db m (pk_of sch bo0)
                    ∧ ∀ n v, n ∉ bookkeeping_names → o_dict bo0 !! n = Some v →
                             o_dict o !! n = Some v)).
Proof.
  intros Hsr Hndi Hnde Hnda Hsrow Hs Hctn Hpkn Hrows Hok.
  destruct (loader_places sch db self objs Hok) as (st & res1 & outs & _ & Hres & Hpos & Hrec).
  eexists _, _. split; [exact Hres|]. split.
  { rewrite length_fmap. rewrite <- (Forall2_length _ _ _ Hpos).
    symmetry. by eapply Forall2_length. }
  intros i bo Hi.
  destruct (Forall2_lookup_l _ _ _ _ _ Hpos Hi) as (o & Ho & Hr).
  destruct (first_by_pk_elem sch objs bo) as [bo0 Hbo0]; [by eapply list_elem_of_lookup_2|].
  destruct (Hrec _ _ Hbo0) as (o' & Ho' & Hrc).
  assert (o' = o) as -> by congruence.
  assert (Hin0 : bo0 ∈ objs) by (by apply (first_by_pk_pk sch objs _ _ Hbo0)).
  apply list_elem_of_lookup in Hin0 as [i0 Hi0].
  destruct (Forall2_lookup_r _ _ _ _ _ Hrows Hi0) as (row0 & Hrow0 & Hmade).
  destruct (object_of_row_recorded sch db self row0 bo0 Hsr Hndi Hsrow Hnde Hnda Hmade)
    as (ct & m & Hct & Hm & Hcls & Hheld & Hpk0 & _).
  specialize (Hheld (Hpkn m) Hctn).
  assert (Hmod : klass_model (o_class bo0) = m) by (rewrite Hcls; apply row_class_model).
  exists i0, row0, bo0, ct, m, (finalize sch self o).
  split; [done|]. split; [done|]. split; [done|]. split; [done|]. split; [done|].
  split; [by rewrite list_lookup_fmap, Ho|].
  unfold reconstructed in Hrc. rewrite (classify_content_type bo0 ct m Hheld Hm) in Hrc.
  rewrite finalize_class.
  destruct (decide (ct = self_model_content_type_id sch self)) as [Hself|Hnself].
  { subst o. split; [done|]. split; [done|]. intros n Hn. by apply finalize_lookup. }
  destruct (decide (get_for_model sch m = self_model_unproxied_content_type_id sch self))
    as [Hproxy|Hnproxy].
  { subst o. unfold copy_dict. cbn [o_class set_dict]. rewrite new_instance_class.
    split; [done|]. split; [done|]. intros n v Hn Hv.
    rewrite finalize_lookup by done. simpl. by apply lookup_union_Some_l. }
  split; [by apply (derived_instance_model sch db self m bo0)|].
  unfold derived_instance in Hrc. destruct (deferred self) eqn:Hd.
  - subst o. unfold deferred_instance.
    destruct (_deferred (o_class bo0) && bool_decide (klass_model (o_class bo0) = m)) eqn:E.
    + apply andb_true_iff in E as [E _]. split; [done|].
      intros n v Hn Hv. by rewrite finalize_lookup.
    + rewrite rebuilt_class. split; [done|]. intros n v Hn Hv.
      rewrite finalize_lookup by done. apply rebuilt_holds; [done| |done|done].
      simpl. apply bool_decide_eq_false. intros [Hin _]%elem_of_difference.
      unfold subclass_only in Hin. apply elem_of_difference in Hin as [_ Hin].
      apply Hin. by apply elem_of_singleton.
  - destruct Hrc as [(r & Hr0 & Hk & ->)|[Hno ->]].
    + rewrite annotated_class. split; [done|]. left. exists r. split; [done|]. split; [done|].
      intros n Hn. unfold loader_names in Hn. rewrite !elem_of_app in Hn.
      rewrite finalize_lookup by tauto. unfold annotated.
      pose proof Hs as [Hsa [Hse _]%Forall_app]%Forall_app.
      rewrite (annotate_lookup sch _ _ _ _ Hse). rewrite decide_False by tauto.
      rewrite (annotate_lookup sch _ _ _ _ Hsa). by rewrite decide_False by tauto.
    + rewrite rebuilt_class. split; [done|]. right. split; [done|]. intros n v Hn Hv.
      rewrite finalize_lookup by done. by apply rebuilt_holds.
Qed.
End RecordedClass.

(** On the sample: five rows, saved as [A], as [B], as the proxy [P], as
    [B] without a row in the table of [B], and the second row once more. *)
Lemma rows_are_returned_as_their_recorded_class_witness :
  let rows := [[VInt 1; VInt 1; VStr "a"]; [VInt 2; VInt 2; VStr "b"];
               [VInt 3; VInt 3; VStr "p"]; [VInt 4; VInt 2; VStr "lost"];
               [VInt 2; VInt 2; VStr "again"]] in
  ∃ objs out log,
    Forall2 (λ row bo, object_of_row Sample.sch (Sample.db rows) Sample.qs row = Ok bo)
            rows objs
    ∧ _get_real_instances Sample.sch (Sample.db rows) Sample.qs objs = Ok (out, log)
    ∧ recorded_class Sample.sch Sample.qs <$> rows
      = [Some "A"; Some "B"; Some "P"; Some "B"; Some "B"]
    ∧ klass_model ∘ o_class <$> out = ["A"; "B"; "P"; "B"; "B"]
    ∧ (λ o, o_dict o !! "field1") <$> out
      = [Some (VStr "a"); Some (VStr "b"); Some (VStr "p"); Some (VStr "lost");
         Some (VStr "b")].
Proof.
  intros rows.
  set (db := Sample.db rows).
  destruct (object_of_row Sample.sch db Sample.qs [VInt 1; VInt 1; VStr "a"])
    as [b1|] eqn:E1; [|vm_compute in E1; discriminate].
  destruct (object_of_row Sample.sch db Sample.qs [VInt 2; VInt 2; VStr "b"])
    as [b2|] eqn:E2; [|vm_compute in E2; discriminate].
  destruct (object_of_row Sample.sch db Sample.qs [VInt 3; VInt 3; VStr "p"])
    as [b3|] eqn:E3; [|vm_compute in E3; discriminate].
  destruct (object_of_row Sample.sch db Sample.qs [VInt 4; VInt 2; VStr "lost"])
    as [b4|] eqn:E4; [|vm_compute in E4; discriminate].
  destruct (object_of_row Sample.sch db Sample.qs [VInt 2; VInt 2; VStr "again"])
    as [b5|] eqn:E5; [|vm_compute in E5; discriminate].
  assert (Hrows : Forall2 (λ row bo, object_of_row Sample.sch db Sample.qs row = Ok bo)
                          rows [b1; b2; b3; b4; b5]).
  { unfold rows. repeat (constructor; [assumption|]). constructor. }
  destruct (rows_are_returned_as_their_recorded_class Sample.sch db Sample.qs
              rows [b1; b2; b3; b4; b5]) as (out & log & Hres & _).
  - reflexivity.
  - apply (bool_decide_unpack _). vm_compute. exact I.
  - apply NoDup_nil_2.
  - apply NoDup_nil_2.
  - apply sample_all_stored_directly.
  - apply sample_all_stored_directly.
  - apply not_elem_of_nil.
  - intros m. unfold Sample.sch. cbn [meta_pk_attname]. by destruct (decide (m = "B")).
  - exact Hrows.
  - vm_compute in E1, E2, E3, E4, E5.
    injection E1 as <-. injection E2 as <-. injection E3 as <-.
    injection E4 as <-. injection E5 as <-.
    apply (bool_decide_unpack _). vm_compute. exact I.
  - exists [b1; b2; b3; b4; b5], out, log.
    split; [exact Hrows|]. split; [exact Hres|].
    split; [vm_compute; reflexivity|].
    vm_compute in E1, E2, E3, E4, E5.
    injection E1 as <-. injection E2 as <-. injection E3 as <-.
    injection E4 as <-. injection E5 as <-.
    vm_compute in Hres. injection Hres as <- _.
    split; vm_compute; reflexivity.
Defined.

(** ** Rows that are missing from the table of the derived class *)

Section MissingRows.
Context (sch : schema) (db : database) (self : queryset).

(** What the object holds that is re-created for an instance whose row is
    missing. *)
Lemma recreated_lookup (cls : string) (instance : obj) (pk : value) (n : string) :
  o_dict (set_pk sch (copy_dict instance (new_instance sch (Plain cls))) pk) !! n
  = if decide (n = meta_pk_attname sch cls) then Some pk
    else match o_dict instance !! n with
         | Some v => Some v
         | None => o_dict (new_instance sch (Plain cls)) !! n
         end.
Proof.
  unfold set_pk, copy_dict. cbn [o_class set_dict]. rewrite new_instance_class.
  cbn [klass_model].
  rewrite setattr_not_bulk by (cbn [o_class set_dict]; by rewrite new_instance_class).
  cbn [o_dict set_dict].
  destruct (decide (n = meta_pk_attname sch cls)) as [->|Hne].
  - by rewrite lookup_insert_eq.
  - rewrite lookup_insert_ne by done. rewrite lookup_union.
    by destruct (o_dict instance !! n), (o_dict (new_instance sch (Plain cls)) !! n).
Qed.

(** C5, as the code has it.  A row that is missing from the table of the
    derived class does not surface as an error, neither when the page is
    loaded nor when a deferred field is read.  Outside deferred mode, the
    loader returns, for a base object whose derived row is missing, a new
    instance of the derived class with the primary key of the base object:
    it has every attribute of the base object with the value of the base
    object, and each field that the base object does not have holds the
    default of the field.  The access to a bulk-deferred field of an
    instance whose row is missing sends its one query, catches the host's
    "does not exist" error and returns the default of the field; every
    bulk-deferred field of the instance then holds the value that the
    instance had for it, or else the default of the field. *)
Theorem missing_rows_are_recreated_from_the_base_object :
  (∀ objs, Forall (object_ok sch db self) objs → deferred self = false →
     ∃ out log,
       _get_real_instances sch db self objs = Ok (out, log)
       ∧ ∀ i bo bo0 m,
           objs !! i = Some bo →
           first_by_pk sch objs (pk_of sch bo) = Some bo0 →
           classify sch self bo0 = Ok (Derived m) →
           ¬ has_row sch db m (pk_of sch bo0) →
           meta_pk_attname sch m ∉ loader_names self →
           ∃ o, out !! i = Some o
             ∧ o_class o = Plain m
             ∧ get_pk sch o = Ok (pk_of sch bo0)
             ∧ (∀ n v, o_dict bo0 !! n = Some v → n ≠ meta_pk_attname sch m →
                       n ∉ bookkeeping_names → o_dict o !! n = Some v)
             ∧ (NoDup (f_attname <$> meta_fields sch m) →
                ∀ f, f ∈ meta_fields sch m → o_dict bo0 !! f_attname f = None →
                     f_attname f ≠ meta_pk_attname sch m →
                     f_attname f ∉ bookkeeping_names →
                     o_dict o !! f_attname f = Some (f_default f)))
  ∧ (∀ cls instance f pk log,
       f ∈ bulk_fields sch cls (o_class instance) →
       NoDup (f_attname <$> meta_fields sch cls) →
       o_dict instance !! f_attname f = None →
       o_dict instance !! meta_pk_attname sch (klass_model (o_class instance)) = Some pk →
       ¬ has_row sch db cls pk →
       f_attname f ≠ meta_pk_attname sch cls →
       ∃ instance',
         BulkDeferredAttribute_get sch db (f_attname f) cls instance log
         = Ok (f_default f, instance',
               log ++ [QGetOnly cls pk (f_name <$> bulk_fields sch cls (o_class instance))])
         ∧ o_class instance' = o_class instance
         ∧ ∀ g, g ∈ bulk_fields sch cls (o_class instance) →
                f_attname g ≠ meta_pk_attname sch cls →
                o_dict instance' !! f_attname g
                = Some (default (f_default g) (o_dict instance !! f_attname g))).
Proof.
  split.
  - intros objs Hok Hd.
    destruct (loader_places sch db self objs Hok)
      as (st & res1 & outs & _ & Hres & Hpos & Hrec).
    eexists _, _. split; [exact Hres|].
    intros i bo bo0 m Hi Hbo0 Hc Hrow Hpkn.
    destruct (Forall2_lookup_l _ _ _ _ _ Hpos Hi) as (o & Ho & Hr).
    destruct (Hrec _ _ Hbo0) as (o' & Ho' & Hrc).
    assert (o' = o) as -> by congruence.
    assert (o = rebuilt sch self (Plain m) bo0) as ->.
    { unfold reconstructed in Hrc. rewrite Hc in Hrc. unfold derived_instance in Hrc.
      rewrite Hd in Hrc. destruct Hrc as [(row & Hin & Hk & _)|[_ ->]]; [|done].
      exfalso. apply Hrow. by exists row. }
    assert (Hbo0ok : object_ok sch db self bo0).
    { rewrite Forall_forall in Hok. apply Hok. by apply (first_by_pk_pk sch objs _ _ Hbo0). }
    destruct Hbo0ok as (_ & Hnames & _). rewrite Forall_forall in Hnames.
    assert (Hcls : o_class (rebuilt sch self (Plain m) bo0) = Plain m) by apply rebuilt_class.
    assert (Hplain : _deferred (o_class (rebuilt sch self (Plain m) bo0)) = false)
      by (by rewrite Hcls).
    exists (finalize sch self (rebuilt sch self (Plain m) bo0)).
    split; [by rewrite list_lookup_fmap, Ho|].
    split; [by rewrite finalize_class|].
    unfold loader_names in Hpkn. rewrite !elem_of_app in Hpkn.
    split; [|split].
    + unfold get_pk, getattr. rewrite finalize_class, Hcls. cbn [klass_model].
      rewrite finalize_lookup_plain by tauto.
      rewrite rebuilt_plain_lookup.
      rewrite decide_False by tauto. rewrite decide_False by tauto.
      by rewrite decide_True.
    + intros n v Hv Hne Hnb. rewrite finalize_lookup_plain by done.
      rewrite rebuilt_plain_lookup. unfold attr_of. rewrite Hv. simpl.
      destruct (decide (n ∈ extra_select self)); [done|].
      destruct (decide (n ∈ aggregates self)); [done|].
      by rewrite decide_False.
    + intros Hnd f Hf Hnone Hne Hnb. rewrite finalize_lookup_plain by done.
      rewrite rebuilt_plain_lookup.
      assert (Hna : f_attname f ∉ aggregates self ++ extra_select self).
      { intros Hin. destruct (Hnames _ Hin) as [w Hw]. congruence. }
      rewrite elem_of_app in Hna.
      rewrite decide_False by tauto. rewrite decide_False by tauto.
      rewrite decide_False by done. rewrite Hnone.
      by apply new_instance_defaults.
  - intros cls instance f pk log Hf Hnd Hnone Hpk Hrow Hne.
    set (o := set_pk sch (copy_dict instance (new_instance sch (Plain cls))) pk).
    assert (Hsrc : source_of_values sch db cls instance pk = Ok o).
    { unfold source_of_values. by rewrite (base_objects_get_no_row sch db cls pk Hrow). }
    assert (Hfields : ∀ g, g ∈ bulk_fields sch cls (o_class instance) →
                           g ∈ meta_fields sch cls).
    { intros g Hg. unfold bulk_fields in Hg. by apply list_elem_of_filter in Hg as [_ ?]. }
    assert (Hall : Forall (λ g, is_Some (o_dict o !! f_attname g))
                          (bulk_fields sch cls (o_class instance))).
    { apply Forall_forall. intros g Hg. apply recreated_has_fields. by apply Hfields. }
    destruct (BulkDeferredAttribute_get_first sch db (f_attname f) cls instance log pk o)
      as (v & instance' & Hget & Hcls & Hv & Hd);
      [done|by apply list_elem_of_fmap_2|done|done|done|].
    assert (Hheld : ∀ g, g ∈ bulk_fields sch cls (o_class instance) →
                         f_attname g ≠ meta_pk_attname sch cls →
                         o_dict instance' !! f_attname g
                         = Some (default (f_default g) (o_dict instance !! f_attname g))).
    { intros g Hg Hgne. rewrite Hd. rewrite decide_True by (by apply list_elem_of_fmap_2).
      unfold o. rewrite recreated_lookup. rewrite decide_False by done.
      destruct (o_dict instance !! f_attname g); [done|]. simpl.
      apply new_instance_defaults; [done|]. by apply Hfields. }
    assert (v = f_default f) as ->.
    { rewrite (Hheld f Hf Hne), Hnone in Hv. simpl in Hv. congruence. }
    exists instance'. split; [done|]. split; [done|]. exact Hheld.
Qed.
End MissingRows.

(** On the sample: the row with the primary key 4 was saved as [B] and has
    no row in the table of [B].  The loader returns an instance of [B] with
    the default of [field2]; on the sample with two fields, the access to
    [field3] of the deferred instance returns the default. *)
Lemma missing_rows_are_recreated_from_the_base_object_witness :
  (∃ bo out log o,
     object_of_row Sample.sch (Sample.db []) Sample.qs [VInt 4; VInt 2; VStr "lost"] = Ok bo
     ∧ _get_real_instances Sample.sch (Sample.db []) Sample.qs [bo] = Ok (out, log)
     ∧ out !! 0%nat = Some o
     ∧ o_class o = Plain "B"
     ∧ get_pk Sample.sch o = Ok (VInt 4)
     ∧ o_dict o !! "field1" = Some (VStr "lost")
     ∧ o_dict o !! "field2" = Some (VStr "dflt"))
  ∧ ∃ instance',
      BulkDeferredAttribute_get SampleTwoFields.sch SampleTwoFields.db "field3" "B"
        (SampleTwoFields.deferred_B 4) []
      = Ok (VStr "dflt3", instance', [QGetOnly "B" (VInt 4) ["field2"; "field3"]])
      ∧ o_dict instance' !! "field2" = Some (VStr "dflt").
Proof.
  split.
  - destruct (object_of_row Sample.sch (Sample.db []) Sample.qs
                [VInt 4; VInt 2; VStr "lost"]) as [bo|] eqn:E;
      [|vm_compute in E; discriminate].
    vm_compute in E. injection E as <-.
    match goal with |- ∃ bo out log o, Ok ?b = Ok bo ∧ _ => set (b4 := b) end.
    destruct (missing_rows_are_recreated_from_the_base_object
                Sample.sch (Sample.db []) Sample.qs) as [Hload _].
    destruct (Hload [b4]) as (out & log & Hres & Hall).
    { apply (bool_decide_unpack _). vm_compute. exact I. }
    { reflexivity. }
    destruct (Hall 0%nat b4 b4 "B") as (o & Ho & Hc & Hpk & Hattrs & Hdef).
    { reflexivity. }
    { vm_compute. reflexivity. }
    { vm_compute. reflexivity. }
    { apply sample_no_row_of_4. }
    { apply (bool_decide_unpack _). vm_compute. exact I. }
    exists b4, out, log, o. split; [done|]. split; [done|]. split; [done|].
    split; [done|]. split; [exact Hpk|]. split.
    + apply Hattrs; [vm_compute; reflexivity|done|].
      apply (bool_decide_unpack _). vm_compute. exact I.
    + apply (Hdef (sample_attnames_distinct "B") (Sample.fld "field2" (VStr "dflt"))).
      * change (meta_fields Sample.sch "B") with Sample.fieldsB.
        unfold Sample.fieldsB. apply elem_of_app. right. right. left.
      * vm_compute. reflexivity.
      * done.
      * apply (bool_decide_unpack _). vm_compute. exact I.
  - destruct (missing_rows_are_recreated_from_the_base_object
                SampleTwoFields.sch SampleTwoFields.db Sample.qs) as [_ Hget].
    destruct (Hget "B" (SampleTwoFields.deferred_B 4) (Sample.fld "field3" (VStr "dflt3"))
                (VInt 4) []) as (instance' & Hres & _ & Hheld).
    + unfold bulk_fields. apply list_elem_of_filter. split; [reflexivity|].
      change (meta_fields SampleTwoFields.sch "B") with SampleTwoFields.fieldsB.
      unfold SampleTwoFields.fieldsB. apply elem_of_app. right. left.
    + apply sample_two_fields_distinct.
    + reflexivity.
    + reflexivity.
    + apply sample_two_fields_no_row_of_4.
    + done.
    + exists instance'. split; [exact Hres|].
      apply (Hheld (Sample.fld "field2" (VStr "dflt"))); [|done].
      unfold bulk_fields. apply list_elem_of_filter. split; [reflexivity|].
      change (meta_fields SampleTwoFields.sch "B") with SampleTwoFields.fieldsB.
      unfold SampleTwoFields.fieldsB, Sample.fieldsB.
      apply elem_of_app. left. apply elem_of_app. right. right. left.
Defined.
